(** * hvacapp: tenant-scoped lead / job / invoice / task tracker

    A shallow embedding of [src/app.py].  The SQLite store is a record of
    tables, each table a finite map from rowid to row (the [INTEGER PRIMARY
    KEY] column) together with its AUTOINCREMENT counter.  A request handler
    is a program in a small state-and-exception monad over one database
    connection; [with_db] is the [with get_db() as conn:] block, which commits
    when its body returns and rolls back when it raises. *)

From stdpp Require Import gmap strings list fin_maps sorting.
From Stdlib Require Import ZArith Ascii String.

Open Scope string_scope.
Open Scope Z_scope.

(** ** Python strings

    A [str] is modelled as a [string] whose characters are code points below
    256.  [str.strip()] removes the characters for which [str.isspace] holds;
    in that range they are 9-13, 28-31, 32, 133 and 160. *)

Definition isspace (c : ascii) : bool :=
  let n := N_of_ascii c in
  ((9 <=? n) && (n <=? 13) || (28 <=? n) && (n <=? 32)
   || (n =? 133) || (n =? 160))%N.

Fixpoint lstrip (s : string) : string :=
  match s with
  | String c s' => if isspace c then lstrip s' else s
  | EmptyString => EmptyString
  end.

Definition rstrip (s : string) : string :=
  String.rev (lstrip (String.rev s)).

Definition strip (s : string) : string := rstrip (lstrip s).

(** Python truthiness of a [str]: the empty string is falsy. *)
Definition nonempty (s : string) : bool :=
  match s with EmptyString => false | _ => true end.

(** [x or d] where [x] is [None] or a [str]. *)
Definition or_default (x : option string) (d : string) : string :=
  match x with
  | Some s => if nonempty s then s else d
  | None => d
  end.

(** [s or None] for a [str] [s]. *)
Definition or_none (s : string) : option string :=
  if nonempty s then Some s else None.

(** ** The request: form data and session cookie *)

(** [request.form] is a multi-dict; [get] returns the first value stored
    under the key. *)
Definition form := list (string * string).

Fixpoint form_get (k : string) (f : form) : option string :=
  match f with
  | [] => None
  | (k', v) :: f' => if String.eqb k k' then Some v else form_get k f'
  end.

(** [request.form.get(k, "")] *)
Definition form_get_d (k : string) (f : form) : string :=
  default "" (form_get k f).

Inductive http_method := GET | POST.

(** The session cookie holds [user_id] and [company_id], each possibly
    absent or [None]. *)
Record session := { user_id : option Z; company_id : option Z }.

(** Python truthiness of [session.get(k)] for an integer or missing value. *)
Definition truthy (x : option Z) : bool :=
  match x with Some n => negb (n =? 0) | None => false end.

(** ** Rows *)

Record company := { c_name : string; c_created_at : string }.

Record user := {
  u_company_id : option Z; u_username : string; u_password_hash : string;
  u_role : string; u_created_at : string }.

Record lead := {
  l_company_id : option Z; l_name : string; l_phone : string;
  l_status : string; l_created_at : string;
  l_service_type : option string; l_source : option string;
  l_address : option string; l_notes : option string }.

Record job := {
  j_company_id : option Z; j_lead_id : option Z; j_customer_name : string;
  j_status : string; j_created_at : string;
  j_scheduled_date : option string; j_technician : option string;
  j_notes : option string }.

Record invoice {Amount : Type} := {
  i_company_id : option Z; i_job_id : Z; i_amount : Amount;
  i_status : string; i_created_at : string; i_paid_at : option string;
  i_due_date : option string; i_public_token : option string;
  i_customer_email : option string }.
Arguments invoice : clear implicits.

Record task := {
  t_company_id : Z; t_job_id : Z; t_title : string; t_status : string;
  t_due_date : option string; t_assigned_to : option string;
  t_created_at : string }.

(** ** Tables

    [rows] maps a rowid to its row; [seqno] is the table's [seq] entry in
    [sqlite_sequence], the largest rowid handed out so far.  Rowids are
    unbounded integers; SQLite's ceiling of [2^63 - 1] is not modelled.
    Nor is the error of [sqlite3] on an integer above it: a query for an id
    of [2^63] or more, which the URL converter lets through, raises
    [OverflowError] in the program; here it is a lookup that finds no
    row. *)

Record table (R : Type) := { rows : gmap Z R; seqno : Z }.
Arguments rows {R} _.
Arguments seqno {R} _.

Definition empty_table {R} : table R := {| rows := ∅; seqno := 0 |}.

Definition max_rowid {R} (m : gmap Z R) : Z :=
  foldr Z.max 0 (fst <$> map_to_list m).

(** The rowid an AUTOINCREMENT insert picks: one more than the largest rowid
    that ever existed in the table. *)
Definition next_rowid {R} (t : table R) : Z :=
  Z.max (seqno t) (max_rowid (rows t)) + 1.

Definition insert_row {R} (r : R) (t : table R) : table R :=
  let k := next_rowid t in {| rows := <[k := r]> (rows t); seqno := k |}.

(** [UPDATE t SET ... WHERE id = k AND p]: the row [k], if it satisfies [p],
    is replaced by [f] of itself. *)
Definition update_row {R} (k : Z) (p : R → bool) (f : R → R) (t : table R)
  : table R :=
  {| rows := alter (λ r, if p r then f r else r) k (rows t);
     seqno := seqno t |}.

(** [SELECT * FROM t WHERE id = k AND p ... fetchone()] *)
Definition select_row {R} (k : Z) (p : R → bool) (t : table R) : option R :=
  match rows t !! k with
  | Some r => if p r then Some r else None
  | None => None
  end.

(** Rowids in ascending order, the order in which a scan of the table visits
    the rows. *)
Definition rowid_le {R} (a b : Z * R) : Prop := a.1 ≤ b.1.

#[global] Instance rowid_le_dec {R} (a b : Z * R) : Decision (rowid_le a b) :=
  Z_le_dec a.1 b.1.

Definition rowid_lt {R} (a b : Z * R) : Prop := a.1 < b.1.

Definition scan {R} (t : table R) : list (Z * R) :=
  merge_sort rowid_le (map_to_list (rows t)).

(** [SELECT ... FROM t WHERE p LIMIT 1 ... fetchone()] *)
Definition select_first {R} (p : R → bool) (t : table R) : option (Z * R) :=
  head (filter (λ kr : Z * R, p kr.2) (scan t)).

(** [SELECT COUNT( * ) FROM t] *)
Definition count_rows {R} (t : table R) : nat := size (rows t).

(** [UPDATE t SET ... WHERE p] over the whole table. *)
Definition update_where {R} (p : R → bool) (f : R → R) (t : table R)
  : table R :=
  {| rows := (λ r, if p r then f r else r) <$> rows t; seqno := seqno t |}.

(** ** Tokens

    [secrets.token_urlsafe(n)] is
    [base64.urlsafe_b64encode(token_bytes(n)).rstrip(b"=").decode("ascii")],
    and [token_bytes(n)] reads [n] bytes from the operating system's random
    source, here the stream [src]. *)

Definition urlsafe_alphabet : string :=
  "ABCDEFGHIJKLMNOPQRSTUVWXYZabcdefghijklmnopqrstuvwxyz0123456789-_".

Definition sextet (n : N) : ascii :=
  default "="%char (String.get (N.to_nat n) urlsafe_alphabet).

(** Base64 with the URL-safe alphabet and without the [=] padding. *)
Fixpoint urlsafe_b64encode_nopad (bs : list Byte.byte) : string :=
  match bs with
  | a :: b :: c :: rest =>
      let n := (Byte.to_N a * 65536 + Byte.to_N b * 256 + Byte.to_N c)%N in
      String (sextet (n / 262144))
        (String (sextet ((n / 4096) mod 64))
           (String (sextet ((n / 64) mod 64))
              (String (sextet (n mod 64))
                 (urlsafe_b64encode_nopad rest))))
  | [a; b] =>
      let n := (Byte.to_N a * 1024 + Byte.to_N b * 4)%N in
      String (sextet (n / 4096))
        (String (sextet ((n / 64) mod 64))
           (String (sextet (n mod 64)) EmptyString))
  | [a] =>
      let n := (Byte.to_N a * 16)%N in
      String (sextet (n / 64)) (String (sextet (n mod 64)) EmptyString)
  | [] => EmptyString
  end.

(** The 24 bits of three bytes. *)
Definition group (a b c : Byte.byte) : N :=
  (Byte.to_N a * 65536 + Byte.to_N b * 256 + Byte.to_N c)%N.

(** The characters that need no escaping in a URL path segment and that
    the URL-safe alphabet is made of: letters, digits, [-] and [_]. *)
Definition is_urlsafe (c : ascii) : bool :=
  let n := N_of_ascii c in
  ((65 <=? n) && (n <=? 90) || (97 <=? n) && (n <=? 122)
   || (48 <=? n) && (n <=? 57) || (n =? 45) || (n =? 95))%N.

(** Position of a character in the alphabet, the decoder's table. *)
Fixpoint index_of (c : ascii) (s : string) : option N :=
  match s with
  | EmptyString => None
  | String c' s' =>
      if Ascii.eqb c c' then Some 0%N else N.succ <$> index_of c s'
  end.

Definition unsextet (c : ascii) : option N := index_of c urlsafe_alphabet.

Definition token_bytes (nbytes : nat) (src : nat → Byte.byte)
  : list Byte.byte :=
  src <$> seq 0 nbytes.

Definition token_urlsafe (nbytes : nat) (src : nat → Byte.byte) : string :=
  urlsafe_b64encode_nopad (token_bytes nbytes src).


(** ** Library functions the application calls

    Number parsing, calendar validation, Unicode case mapping and password
    hashing belong to Python and werkzeug, not to this repository; the model
    is parametric in them. *)

Class Externals := {
  (** the values of Python's [float] *)
  Amount : Type;
  (** [float(s)]; [None] when it raises [ValueError] *)
  py_float : string → option Amount;
  (** a NaN is bound by [sqlite3] as SQL NULL *)
  isnan : Amount → bool;
  (** [datetime.strptime(s, "%Y-%m-%d")] returns rather than raising *)
  strptime_ok : string → bool;
  (** [str.lower] *)
  lower : string → string;
  (** [werkzeug.security.generate_password_hash] *)
  generate_password_hash : string → string }.

Inductive exn :=
  | HTTPException (code : Z)
  | IntegrityError
  | RuntimeError (msg : string)
  | TypeError.

(** ** State and exceptions *)

Definition SE (S A : Type) : Type := S → (exn + A) * S.

#[global] Instance se_ret {S} : MRet (SE S) := λ A a s, (inr a, s).

#[global] Instance se_bind {S} : MBind (SE S) :=
  λ A B k m s, match m s with
               | (inr a, s') => k a s'
               | (inl e, s') => (inl e, s')
               end.

Definition raise {S A} (e : exn) : SE S A := λ s, (inl e, s).

(** [flask.abort(code)] *)
Definition abort {S A} (code : Z) : SE S A := raise (HTTPException code).

Definition gets {S A} (f : S → A) : SE S A := λ s, (inr (f s), s).

Section Model.
Context {Ext : Externals}.

(** What a view function sends back: a redirect, possibly after logging
    the user in, a rendered template, or an error status. *)
Inductive response :=
  | Redirect (endpoint : string)
  | RedirectLoggedIn (endpoint : string) (s : session)
  | Render (template : string) (error : option string)
  | RenderInvoice (inv : invoice Amount)
      (company_name customer_name : string)
  | Status (code : Z).

(** ** The store *)

Record DB := {
  companies : table company;
  users : table user;
  leads : table lead;
  jobs : table job;
  invoices : table (invoice Amount);
  tasks : table task }.

Definition empty_db : DB :=
  {| companies := empty_table; users := empty_table; leads := empty_table;
     jobs := empty_table; invoices := empty_table; tasks := empty_table |}.

Definition with_companies (f : table company → table company) (d : DB) : DB :=
  {| companies := f (companies d); users := users d; leads := leads d;
     jobs := jobs d; invoices := invoices d; tasks := tasks d |}.

Definition with_users (f : table user → table user) (d : DB) : DB :=
  {| companies := companies d; users := f (users d); leads := leads d;
     jobs := jobs d; invoices := invoices d; tasks := tasks d |}.

Definition with_leads (f : table lead → table lead) (d : DB) : DB :=
  {| companies := companies d; users := users d; leads := f (leads d);
     jobs := jobs d; invoices := invoices d; tasks := tasks d |}.

Definition with_jobs (f : table job → table job) (d : DB) : DB :=
  {| companies := companies d; users := users d; leads := leads d;
     jobs := f (jobs d); invoices := invoices d; tasks := tasks d |}.

Definition with_invoices
    (f : table (invoice Amount) → table (invoice Amount)) (d : DB) : DB :=
  {| companies := companies d; users := users d; leads := leads d;
     jobs := jobs d; invoices := f (invoices d); tasks := tasks d |}.

Definition with_tasks (f : table task → table task) (d : DB) : DB :=
  {| companies := companies d; users := users d; leads := leads d;
     jobs := jobs d; invoices := invoices d; tasks := f (tasks d) |}.

(** ** One connection

    [committed] is what every connection sees, [view] what this connection
    sees, its own uncommitted writes included.  [in_tx] records that a write
    opened a transaction; [last_insert_rowid] is SQLite's per-connection
    value of that name. *)

Record conn := {
  committed : DB;
  view : DB;
  in_tx : bool;
  last_insert_rowid : Z }.

Definition M := SE conn.

(** [sqlite3.connect(DB_PATH)] *)
Definition get_db (d : DB) : conn :=
  {| committed := d; view := d; in_tx := false; last_insert_rowid := 0 |}.

(** [conn.execute("SELECT ...")] *)
Definition query {A} (q : DB → A) : M A := gets (λ c, q (view c)).

(** [conn.execute("UPDATE ...")] *)
Definition execute (w : DB → DB) : M unit :=
  λ c, (inr (),
        {| committed := committed c; view := w (view c); in_tx := true;
           last_insert_rowid := last_insert_rowid c |}).

(** [conn.execute("INSERT INTO t ...")]: [w] adds the row to its table and
    [k] is the rowid it was given. *)
Definition execute_insert (w : DB → DB) (k : DB → Z) : M unit :=
  λ c, (inr (),
        {| committed := committed c; view := w (view c); in_tx := true;
           last_insert_rowid := k (w (view c)) |}).

(** What [conn.commit()] and [conn.rollback()] do to the connection. *)
Definition committing (c : conn) : conn :=
  {| committed := view c; view := view c; in_tx := false;
     last_insert_rowid := last_insert_rowid c |}.

Definition rollback (c : conn) : conn :=
  {| committed := committed c; view := committed c; in_tx := false;
     last_insert_rowid := last_insert_rowid c |}.

(** [conn.commit()] *)
Definition commit : M unit := λ c, (inr (), committing c).

(** Other connections commit [f] while this one holds no transaction.  While
    it holds one, SQLite's write lock keeps them out. *)
Definition others (f : DB → DB) : M unit :=
  λ c, if in_tx c then (inr (), c)
       else (inr (),
             {| committed := f (committed c); view := f (committed c);
                in_tx := false; last_insert_rowid := last_insert_rowid c |}).

(** [with get_db() as conn: body]: the connection commits when the body
    returns and rolls back when it raises; the exception propagates.  What
    is left is what the connection has committed. *)
Definition with_db {A} (body : M A) : SE DB A :=
  λ d, match body (get_db d) with
       | (inr a, c) => (inr a, committed (committing c))
       | (inl e, c) => (inl e, committed (rollback c))
       end.

(** The HTTP status code of a response. *)
Definition status_code (r : response) : Z :=
  match r with
  | Redirect _ | RedirectLoggedIn _ _ => 302
  | Render _ _ | RenderInvoice _ _ _ => 200
  | Status code => code
  end.

(** What Flask sends for a view function: its return value, the status of
    an [abort], or 500 for any other exception. *)
Definition respond (h : SE DB response) (d : DB) : response * DB :=
  match h d with
  | (inr r, d') => (r, d')
  | (inl (HTTPException code), d') => (Status code, d')
  | (inl _, d') => (Status 500, d')
  end.


(** ** Startup *)

(** [init_db]: [CREATE TABLE IF NOT EXISTS] and [ALTER TABLE ... ADD COLUMN]
    leave every stored row as it is; a column added to an old row reads as
    NULL, which the row types above already allow. *)
Definition init_db : SE DB () := with_db (commit;; commit).

Definition insert_company (c : company) : M () :=
  execute_insert (with_companies (insert_row c)) (λ d, seqno (companies d)).

(** [username TEXT NOT NULL UNIQUE] *)
Definition insert_user (u : user) : M () :=
  taken ← query (λ d,
    select_first (λ r, bool_decide (u_username r = u_username u)) (users d));
  if taken is Some _ then raise IntegrityError
  else execute_insert (with_users (insert_row u)) (λ d, seqno (users d)).

Definition ensure_super_admin (password : option string)
    (now1 now2 : string) : SE DB () :=
  with_db (
    row ← query (λ d,
      select_first (λ c, bool_decide (c_name c = "APtech Solutions"))
        (companies d));
    owner_company_id ←
      match row with
      | Some (id, _) => mret id
      | None =>
          insert_company
            {| c_name := "APtech Solutions"; c_created_at := now1 |};;
          commit;;
          gets last_insert_rowid
      end;
    exists_ ← query (λ d,
      select_first (λ u, bool_decide (u_role u = "super_admin")) (users d));
    if exists_ is Some _ then mret ()
    else
      if negb (nonempty (default "" password))
      then raise (RuntimeError "SUPER_ADMIN_PASSWORD is not set")
      else
        insert_user
          {| u_company_id := Some owner_company_id;
             u_username := "aptech_owner";
             u_password_hash :=
               generate_password_hash (default "" password);
             u_role := "super_admin"; u_created_at := now2 |};;
        commit).

Definition parse_date_yyyy_mm_dd (s : string) : option string :=
  let s := strip (or_default (Some s) "") in
  if negb (nonempty s) then None
  else if strptime_ok s then Some s else None.

(** ** Auth helpers *)

Definition login_required (s : session) (view_func : SE DB response)
  : SE DB response :=
  if negb (truthy (user_id s)) || negb (truthy (company_id s))
  then mret (Redirect "login")
  else view_func.

Definition current_company_id (s : session) : SE DB Z :=
  match company_id s with
  | Some cid => if truthy (Some cid) then mret cid else abort 401
  | None => abort 401
  end.

Definition any_users_exist : SE DB bool :=
  with_db (query (λ d, bool_decide (0 < count_rows (users d))%nat)).

(** ** One-time setup *)

Definition set_lead_company (cid : Z) (l : lead) : lead :=
  {| l_company_id := Some cid; l_name := l_name l; l_phone := l_phone l;
     l_status := l_status l; l_created_at := l_created_at l;
     l_service_type := l_service_type l; l_source := l_source l;
     l_address := l_address l; l_notes := l_notes l |}.

Definition set_job_company (cid : Z) (j : job) : job :=
  {| j_company_id := Some cid; j_lead_id := j_lead_id j;
     j_customer_name := j_customer_name j; j_status := j_status j;
     j_created_at := j_created_at j; j_scheduled_date := j_scheduled_date j;
     j_technician := j_technician j; j_notes := j_notes j |}.

Definition set_invoice_company (cid : Z) (i : invoice Amount)
  : invoice Amount :=
  {| i_company_id := Some cid; i_job_id := i_job_id i;
     i_amount := i_amount i; i_status := i_status i;
     i_created_at := i_created_at i; i_paid_at := i_paid_at i;
     i_due_date := i_due_date i; i_public_token := i_public_token i;
     i_customer_email := i_customer_email i |}.

Definition is_null {A} (x : option A) : bool :=
  if x is None then true else false.

Definition setup (method : http_method) (f : form) (now1 now2 : string)
  : SE DB response :=
  set_up ← any_users_exist;
  if set_up : bool then mret (Redirect "login")
  else
    match method with
    | POST =>
        let company_name := strip (or_default (form_get "company_name" f) "") in
        let username := strip (or_default (form_get "username" f) "") in
        let password := strip (or_default (form_get "password" f) "") in
        if negb (nonempty company_name) || negb (nonempty username)
           || negb (nonempty password)
        then mret (Render "setup.html" (Some "All fields are required."))
        else
          with_db (
            insert_company
              {| c_name := company_name; c_created_at := now1 |};;
            company_id ← gets last_insert_rowid;
            insert_user
              {| u_company_id := Some company_id; u_username := username;
                 u_password_hash := generate_password_hash password;
                 u_role := "admin"; u_created_at := now2 |};;
            execute (with_leads
              (update_where (λ l, is_null (l_company_id l))
                 (set_lead_company company_id)));;
            execute (with_jobs
              (update_where (λ j, is_null (j_company_id j))
                 (set_job_company company_id)));;
            execute (with_invoices
              (update_where (λ i, is_null (i_company_id i))
                 (set_invoice_company company_id)));;
            commit);;
          mret (Redirect "login")
    | GET => mret (Render "setup.html" None)
    end.

(** ** Signup

    The handler commits after the company insert, so other connections can
    write both between its username check and its first insert ([o1]) and
    between that commit and the user insert ([o2]).  A request that runs
    alone has [o1 = o2 = id]. *)

Definition signup (method : http_method) (f : form) (now1 now2 : string)
    (o1 o2 : DB → DB) : SE DB response :=
  match method with
  | POST =>
      let company_name := strip (or_default (form_get "company_name" f) "") in
      let username := strip (or_default (form_get "username" f) "") in
      let password := strip (or_default (form_get "password" f) "") in
      if negb (nonempty company_name) || negb (nonempty username)
         || negb (nonempty password)
      then mret (Render "signup.html" (Some "All fields are required."))
      else if bool_decide (lower username = "aptech_owner")
      then mret (Render "signup.html"
                   (Some "That username is reserved. Please choose another."))
      else
        r ← with_db (
          existing ← query (λ d,
            select_first (λ u, bool_decide (u_username u = username))
              (users d));
          if existing is Some _
          then mret (inl (Render "signup.html"
                 (Some "That username is already taken. Try another.")))
          else
            others o1;;
            insert_company
              {| c_name := company_name; c_created_at := now1 |};;
            commit;;
            company_id ← gets last_insert_rowid;
            others o2;;
            insert_user
              {| u_company_id := Some company_id; u_username := username;
                 u_password_hash := generate_password_hash password;
                 u_role := "admin"; u_created_at := now2 |};;
            commit;;
            user ← query (λ d,
              select_first (λ u, bool_decide (u_username u = username))
                (users d));
            mret (inr user));
        match r with
        | inl page => mret page
        | inr (Some (id, user)) =>
            mret (RedirectLoggedIn "dashboard"
                    {| user_id := Some id;
                       company_id := u_company_id user |})
        | inr None => raise TypeError
        end
  | GET => mret (Render "signup.html" None)
  end.


(** ** Leads *)

Definition lead_in (cid : Z) (l : lead) : bool :=
  bool_decide (l_company_id l = Some cid).

Definition job_in (cid : Z) (j : job) : bool :=
  bool_decide (j_company_id j = Some cid).

Definition invoice_in (cid : Z) (i : invoice Amount) : bool :=
  bool_decide (i_company_id i = Some cid).

Definition task_in (cid : Z) (t : task) : bool :=
  bool_decide (t_company_id t = cid).

Definition set_lead_status (st : string) (l : lead) : lead :=
  {| l_company_id := l_company_id l; l_name := l_name l;
     l_phone := l_phone l; l_status := st; l_created_at := l_created_at l;
     l_service_type := l_service_type l; l_source := l_source l;
     l_address := l_address l; l_notes := l_notes l |}.

Definition set_job_status (st : string) (j : job) : job :=
  {| j_company_id := j_company_id j; j_lead_id := j_lead_id j;
     j_customer_name := j_customer_name j; j_status := st;
     j_created_at := j_created_at j; j_scheduled_date := j_scheduled_date j;
     j_technician := j_technician j; j_notes := j_notes j |}.

Definition set_paid (now : string) (i : invoice Amount) : invoice Amount :=
  {| i_company_id := i_company_id i; i_job_id := i_job_id i;
     i_amount := i_amount i; i_status := "Paid";
     i_created_at := i_created_at i; i_paid_at := Some now;
     i_due_date := i_due_date i; i_public_token := i_public_token i;
     i_customer_email := i_customer_email i |}.

Definition set_task_status (st : string) (t : task) : task :=
  {| t_company_id := t_company_id t; t_job_id := t_job_id t;
     t_title := t_title t; t_status := st; t_due_date := t_due_date t;
     t_assigned_to := t_assigned_to t; t_created_at := t_created_at t |}.

Definition add_lead (s : session) (f : form) (now : string)
  : SE DB response :=
  login_required s (
    cid ← current_company_id s;
    let name := strip (form_get_d "name" f) in
    let phone := strip (form_get_d "phone" f) in
    let service_type := or_none (strip (form_get_d "service_type" f)) in
    let source := or_none (strip (form_get_d "source" f)) in
    let address := or_none (strip (form_get_d "address" f)) in
    let notes := or_none (strip (form_get_d "notes" f)) in
    (if negb (nonempty name) || negb (nonempty phone)
     then abort 400 else mret ());;
    with_db (
      execute_insert
        (with_leads (insert_row
           {| l_company_id := Some cid; l_name := name; l_phone := phone;
              l_status := "New"; l_created_at := now;
              l_service_type := service_type; l_source := source;
              l_address := address; l_notes := notes |}))
        (λ d, seqno (leads d));;
      commit);;
    mret (Redirect "dashboard")).

Definition lead_statuses : list string :=
  ["New"; "Contacted"; "Scheduled"; "Won"; "Lost"].

Definition update_lead_status (s : session) (f : form) (lead_id : Z)
  : SE DB response :=
  login_required s (
    cid ← current_company_id s;
    let status := strip (or_default (form_get "status" f) "New") in
    (if bool_decide (status ∈ lead_statuses)
     then mret () else abort 400);;
    with_db (
      lead ← query (λ d, select_row lead_id (lead_in cid) (leads d));
      (if lead is Some _ then mret () else abort 404);;
      execute (with_leads
        (update_row lead_id (lead_in cid) (set_lead_status status)));;
      commit);;
    mret (Redirect "dashboard")).

Definition convert_lead (s : session) (f : form) (lead_id : Z)
    (now : string) : SE DB response :=
  login_required s (
    cid ← current_company_id s;
    let scheduled_date :=
      parse_date_yyyy_mm_dd (form_get_d "scheduled_date" f) in
    let technician := or_none (strip (form_get_d "technician" f)) in
    with_db (
      lead ← query (λ d, select_row lead_id (lead_in cid) (leads d));
      match lead with
      | None => abort 404
      | Some lead =>
          execute_insert
            (with_jobs (insert_row
               {| j_company_id := Some cid; j_lead_id := Some lead_id;
                  j_customer_name := l_name lead; j_status := "Scheduled";
                  j_created_at := now; j_scheduled_date := scheduled_date;
                  j_technician := technician; j_notes := None |}))
            (λ d, seqno (jobs d));;
          execute (with_leads
            (update_row lead_id (lead_in cid)
               (set_lead_status "Scheduled")));;
          commit
      end);;
    mret (Redirect "dashboard")).

(** ** Jobs *)

Definition job_statuses : list string :=
  ["Scheduled"; "In Progress"; "Completed"; "Canceled"].

Definition update_job_status (s : session) (f : form) (job_id : Z)
  : SE DB response :=
  login_required s (
    cid ← current_company_id s;
    let status := strip (or_default (form_get "status" f) "Scheduled") in
    (if bool_decide (status ∈ job_statuses)
     then mret () else abort 400);;
    with_db (
      job ← query (λ d, select_row job_id (job_in cid) (jobs d));
      (if job is Some _ then mret () else abort 404);;
      execute (with_jobs
        (update_row job_id (job_in cid) (set_job_status status)));;
      commit);;
    mret (Redirect "dashboard")).

(** ** Invoices *)

(** [amount REAL NOT NULL]: a NaN arrives as NULL and is refused. *)
Definition insert_invoice (i : invoice Amount) : M () :=
  if isnan (i_amount i) then raise IntegrityError
  else execute_insert (with_invoices (insert_row i))
         (λ d, seqno (invoices d)).

Definition create_invoice (s : session) (f : form) (job_id : Z)
    (now : string) (src : nat → Byte.byte) : SE DB response :=
  login_required s (
    cid ← current_company_id s;
    let amount_raw := strip (or_default (form_get "amount" f) "") in
    let due_date := parse_date_yyyy_mm_dd (form_get_d "due_date" f) in
    amount ← (if py_float amount_raw is Some a then mret a else abort 400);
    let token := token_urlsafe 24 src in
    with_db (
      job ← query (λ d, select_row job_id (job_in cid) (jobs d));
      (if job is Some _ then mret () else abort 404);;
      insert_invoice
        {| i_company_id := Some cid; i_job_id := job_id;
           i_amount := amount; i_status := "Unpaid"; i_created_at := now;
           i_paid_at := None; i_due_date := due_date;
           i_public_token := Some token; i_customer_email := None |};;
      commit);;
    mret (Redirect "dashboard")).

(** One row of
    [invoices i JOIN companies c ON c.id = i.company_id
                JOIN jobs j ON j.id = i.job_id]. *)
Definition join_invoice (d : DB) (i : invoice Amount)
  : option (invoice Amount * string * string) :=
  cid ← i_company_id i;
  c ← rows (companies d) !! cid;
  j ← rows (jobs d) !! i_job_id i;
  Some (i, c_name c, j_customer_name j).

(** The join is driven by a scan of [invoices]; [LIMIT 1] keeps its first
    row. *)
Definition select_public_invoice (token : string) (d : DB)
  : option (invoice Amount * string * string) :=
  head (omap (λ ki : Z * invoice Amount,
                if bool_decide (i_public_token ki.2 = Some token)
                then join_invoice d ki.2 else None)
          (scan (invoices d))).

Definition public_invoice (token : string) : SE DB response :=
  inv ← with_db (query (select_public_invoice token));
  match inv with
  | None => abort 404
  | Some (i, company_name, customer_name) =>
      mret (RenderInvoice i company_name customer_name)
  end.

Definition mark_paid (s : session) (invoice_id : Z) (now : string)
  : SE DB response :=
  login_required s (
    cid ← current_company_id s;
    with_db (
      inv ← query (λ d, select_row invoice_id (invoice_in cid) (invoices d));
      (if inv is Some _ then mret () else abort 404);;
      execute (with_invoices
        (update_row invoice_id (invoice_in cid) (set_paid now)));;
      commit);;
    mret (Redirect "dashboard")).

(** ** Tasks *)

Definition add_task (s : session) (f : form) (job_id : Z) (now : string)
  : SE DB response :=
  login_required s (
    cid ← current_company_id s;
    let title := strip (or_default (form_get "title" f) "") in
    let due_date := parse_date_yyyy_mm_dd (form_get_d "due_date" f) in
    let assigned_to :=
      or_none (strip (or_default (form_get "assigned_to" f) "")) in
    (if negb (nonempty title) then abort 400 else mret ());;
    with_db (
      job ← query (λ d, select_row job_id (job_in cid) (jobs d));
      (if job is Some _ then mret () else abort 404);;
      execute_insert
        (with_tasks (insert_row
           {| t_company_id := cid; t_job_id := job_id; t_title := title;
              t_status := "todo"; t_due_date := due_date;
              t_assigned_to := assigned_to; t_created_at := now |}))
        (λ d, seqno (tasks d));;
      commit);;
    mret (Redirect "dashboard")).

(** [new_status = "done" if task["status"] != "done" else "todo"] *)
Definition toggled (st : string) : string :=
  if negb (bool_decide (st = "done")) then "done" else "todo".

Definition toggle_task (s : session) (task_id : Z) : SE DB response :=
  login_required s (
    cid ← current_company_id s;
    with_db (
      task ← query (λ d, select_row task_id (task_in cid) (tasks d));
      match task with
      | None => abort 404
      | Some task =>
          let new_status := toggled (t_status task) in
          execute (with_tasks
            (update_row task_id (task_in cid)
               (set_task_status new_status)));;
          commit
      end);;
    mret (Redirect "dashboard")).

(** ** Names for what the handlers write *)

(** The session of a logged-in member of company [cid]: both keys are set
    and truthy, as [login_required] demands. *)
Definition logged_in (s : session) (cid : Z) : Prop :=
  truthy (user_id s) = true ∧ company_id s = Some cid ∧ cid ≠ 0.

(** The row [convert_lead] inserts for lead [l] with rowid [k]. *)
Definition new_job (cid k : Z) (l : lead) (f : form) (now : string) : job :=
  {| j_company_id := Some cid; j_lead_id := Some k;
     j_customer_name := l_name l; j_status := "Scheduled";
     j_created_at := now;
     j_scheduled_date :=
       parse_date_yyyy_mm_dd (form_get_d "scheduled_date" f);
     j_technician := or_none (strip (form_get_d "technician" f));
     j_notes := None |}.

(** The row [create_invoice] inserts. *)
Definition new_invoice (cid : Z) (f : form) (k : Z) (now : string)
    (src : nat → Byte.byte) (amount : Amount) : invoice Amount :=
  {| i_company_id := Some cid; i_job_id := k; i_amount := amount;
     i_status := "Unpaid"; i_created_at := now; i_paid_at := None;
     i_due_date := parse_date_yyyy_mm_dd (form_get_d "due_date" f);
     i_public_token := Some (token_urlsafe 24 src);
     i_customer_email := None |}.

(** The fields [setup] and [signup] read from the form. *)
Definition field (name : string) (f : form) : string :=
  strip (or_default (form_get name f) "").

Definition new_company (f : form) (now : string) : company :=
  {| c_name := field "company_name" f; c_created_at := now |}.

Definition new_admin (company_id : Z) (f : form) (now : string) : user :=
  {| u_company_id := Some company_id; u_username := field "username" f;
     u_password_hash := generate_password_hash (field "password" f);
     u_role := "admin"; u_created_at := now |}.

Definition fields_missing (f : form) : bool :=
  negb (nonempty (field "company_name" f))
  || negb (nonempty (field "username" f))
  || negb (nonempty (field "password" f)).

Definition username_is (name : string) (u : user) : bool :=
  bool_decide (u_username u = name).

Definition owner_company : string := "APtech Solutions".

Definition is_owner_company (c : company) : bool :=
  bool_decide (c_name c = owner_company).

Definition is_super_admin (u : user) : bool :=
  bool_decide (u_role u = "super_admin").

Definition has_super_admin (d : DB) : Prop :=
  ∃ k u, rows (users d) !! k = Some u ∧ u_role u = "super_admin".

(** What [setup]'s transaction leaves when it commits. *)
Definition setup_writes (f : form) (now1 now2 : string) (d : DB) : DB :=
  let d1 := with_companies (insert_row (new_company f now1)) d in
  let cid := seqno (companies d1) in
  with_invoices
    (update_where (λ i, is_null (i_company_id i)) (set_invoice_company cid))
    (with_jobs
       (update_where (λ j, is_null (j_company_id j)) (set_job_company cid))
       (with_leads
          (update_where (λ l, is_null (l_company_id l))
             (set_lead_company cid))
          (with_users (insert_row (new_admin cid f now2)) d1))).

(** The store after [signup]'s first commit, and the user row it then
    inserts. *)
Definition signup_company (f : form) (now1 : string) (o1 : DB → DB)
    (d : DB) : DB :=
  with_companies (insert_row (new_company f now1)) (o1 d).

Definition signup_admin (f : form) (now1 now2 : string) (o1 : DB → DB)
    (d : DB) : user :=
  new_admin (seqno (companies (signup_company f now1 o1 d))) f now2.

(** The store once [ensure_super_admin] has seen to the owner company, and
    that company's rowid. *)
Definition with_owner_company (now1 : string) (d : DB) : DB :=
  if select_first is_owner_company (companies d) is Some _ then d
  else with_companies
         (insert_row {| c_name := owner_company; c_created_at := now1 |}) d.

Definition owner_company_id (now1 : string) (d : DB) : Z :=
  match select_first is_owner_company (companies d) with
  | Some (id, _) => id
  | None => seqno (companies (with_owner_company now1 d))
  end.

Definition super_admin_row (password : option string)
    (now1 now2 : string) (d : DB) : user :=
  {| u_company_id := Some (owner_company_id now1 d);
     u_username := "aptech_owner";
     u_password_hash := generate_password_hash (default "" password);
     u_role := "super_admin"; u_created_at := now2 |}.

(** ** The statements the application issues

    Every [INSERT] and [UPDATE] in the source, with what they store in the
    columns that later guards read. *)

Inductive write : DB → DB → Prop :=
  | write_company c d : write d (with_companies (insert_row c) d)
  | write_admin u d :
      u_role u = "admin" → write d (with_users (insert_row u) d)
  | write_super_admin u d :
      u_role u = "super_admin" → ¬ has_super_admin d →
      write d (with_users (insert_row u) d)
  | write_lead l d : write d (with_leads (insert_row l) d)
  | write_lead_status k p st d :
      write d (with_leads (update_row k p (set_lead_status st)) d)
  | write_lead_company p cid d :
      write d (with_leads (update_where p (set_lead_company cid)) d)
  | write_job j d : write d (with_jobs (insert_row j) d)
  | write_job_status k p st d :
      write d (with_jobs (update_row k p (set_job_status st)) d)
  | write_job_company p cid d :
      write d (with_jobs (update_where p (set_job_company cid)) d)
  | write_invoice i d : write d (with_invoices (insert_row i) d)
  | write_paid k p now d :
      write d (with_invoices (update_row k p (set_paid now)) d)
  | write_invoice_company p cid d :
      write d (with_invoices (update_where p (set_invoice_company cid)) d)
  | write_task t d :
      t_status t = "todo" → write d (with_tasks (insert_row t) d)
  | write_task_status k p st d :
      st = "todo" ∨ st = "done" →
      write d (with_tasks (update_row k p (set_task_status st)) d).

(** Every task is [todo] or [done]. *)
Definition tasks_ok (d : DB) : Prop :=
  ∀ k t, rows (tasks d) !! k = Some t →
         t_status t = "todo" ∨ t_status t = "done".

(** ** What validation lets through

    A required text column holds a text that is not empty and has no
    whitespace at either end; an optional one holds NULL or such a text; a
    date column holds NULL or such a text that [strptime] accepts. *)

Definition text_ok (s : string) : Prop := nonempty s = true ∧ strip s = s.

Definition opt_text_ok (x : option string) : Prop :=
  ∀ s, x = Some s → text_ok s.

Definition date_ok (x : option string) : Prop :=
  ∀ s, x = Some s → text_ok s ∧ strptime_ok s = true.

Definition lead_fields_ok (l : lead) : Prop :=
  text_ok (l_name l) ∧ text_ok (l_phone l)
  ∧ opt_text_ok (l_service_type l) ∧ opt_text_ok (l_source l)
  ∧ opt_text_ok (l_address l) ∧ opt_text_ok (l_notes l).

Definition job_fields_ok (j : job) : Prop :=
  text_ok (j_customer_name j) ∧ date_ok (j_scheduled_date j)
  ∧ opt_text_ok (j_technician j) ∧ j_notes j = None.

Definition invoice_fields_ok (i : invoice Amount) : Prop :=
  date_ok (i_due_date i) ∧ i_customer_email i = None.

Definition task_fields_ok (t : task) : Prop :=
  text_ok (t_title t) ∧ date_ok (t_due_date t)
  ∧ opt_text_ok (t_assigned_to t).

(** ** The statements with what their guards establish

    The same [INSERT]s and [UPDATE]s as in [write], each with the facts the
    handler has checked or fixed by the time it issues the statement: the
    session's company on the rows it inserts, the row a new row refers to,
    the value written into a status column, the free username. *)

Inductive statement : DB → DB → Prop :=
  | stmt_company c d :
      text_ok (c_name c) → statement d (with_companies (insert_row c) d)
  | stmt_user u cid d :
      select_first (username_is (u_username u)) (users d) = None →
      u_company_id u = Some cid →
      is_Some (rows (companies d) !! cid) →
      u_role u = "admin" ∨ (u_role u = "super_admin" ∧ ¬ has_super_admin d) →
      text_ok (u_username u) →
      statement d (with_users (insert_row u) d)
  | stmt_lead l cid d :
      l_company_id l = Some cid → l_status l = "New" → lead_fields_ok l →
      statement d (with_leads (insert_row l) d)
  | stmt_lead_status k cid st d :
      st ∈ lead_statuses →
      statement d
        (with_leads (update_row k (lead_in cid) (set_lead_status st)) d)
  | stmt_lead_company cid d :
      statement d
        (with_leads
           (update_where (λ l, is_null (l_company_id l))
              (set_lead_company cid)) d)
  | stmt_job j cid k l d :
      rows (leads d) !! k = Some l → l_company_id l = Some cid →
      j_company_id j = Some cid → j_lead_id j = Some k →
      j_customer_name j = l_name l → j_status j = "Scheduled" →
      date_ok (j_scheduled_date j) → opt_text_ok (j_technician j) →
      j_notes j = None →
      statement d (with_jobs (insert_row j) d)
  | stmt_job_status k cid st d :
      st ∈ job_statuses →
      statement d
        (with_jobs (update_row k (job_in cid) (set_job_status st)) d)
  | stmt_job_company cid d :
      statement d
        (with_jobs
           (update_where (λ j, is_null (j_company_id j))
              (set_job_company cid)) d)
  | stmt_invoice i cid j d :
      rows (jobs d) !! i_job_id i = Some j → j_company_id j = Some cid →
      i_company_id i = Some cid → i_status i = "Unpaid" →
      i_paid_at i = None → is_Some (i_public_token i) →
      invoice_fields_ok i →
      statement d (with_invoices (insert_row i) d)
  | stmt_paid k cid now d :
      statement d
        (with_invoices (update_row k (invoice_in cid) (set_paid now)) d)
  | stmt_invoice_company cid d :
      statement d
        (with_invoices
           (update_where (λ i, is_null (i_company_id i))
              (set_invoice_company cid)) d)
  | stmt_task t j d :
      rows (jobs d) !! t_job_id t = Some j →
      j_company_id j = Some (t_company_id t) → t_status t = "todo" →
      task_fields_ok t →
      statement d (with_tasks (insert_row t) d)
  | stmt_task_status k cid st d :
      st = "todo" ∨ st = "done" →
      statement d
        (with_tasks (update_row k (task_in cid) (set_task_status st)) d).

Definition invoice_statuses : list string := ["Unpaid"; "Paid"].

Definition task_statuses : list string := ["todo"; "done"].

(** What the data model promises of a store, table by table. *)

(** Usernames are unique, at most one user is the super-admin, and every
    user belongs to a company that exists. *)
Definition users_consistent (d : DB) : Prop :=
  (∀ k k' u u',
     rows (users d) !! k = Some u → rows (users d) !! k' = Some u' →
     u_username u = u_username u' → k = k')
  ∧ (∀ k k' u u',
       rows (users d) !! k = Some u → rows (users d) !! k' = Some u' →
       u_role u = "super_admin" → u_role u' = "super_admin" → k = k')
  ∧ (∀ k u, rows (users d) !! k = Some u →
            ∃ cid, u_company_id u = Some cid
                   ∧ is_Some (rows (companies d) !! cid)).

(** Every status column holds a value of its enumeration. *)
Definition statuses_consistent (d : DB) : Prop :=
  (∀ k l, rows (leads d) !! k = Some l → l_status l ∈ lead_statuses)
  ∧ (∀ k j, rows (jobs d) !! k = Some j → j_status j ∈ job_statuses)
  ∧ (∀ k i, rows (invoices d) !! k = Some i →
            i_status i ∈ invoice_statuses)
  ∧ (∀ k t, rows (tasks d) !! k = Some t → t_status t ∈ task_statuses).

(** Every lead, job and invoice has a company; a job's lead, an invoice's
    job and a task's job exist and belong to the same company. *)
Definition references_consistent (d : DB) : Prop :=
  (∀ k l, rows (leads d) !! k = Some l → is_Some (l_company_id l))
  ∧ (∀ k j, rows (jobs d) !! k = Some j →
       is_Some (j_company_id j)
       ∧ ∀ kl, j_lead_id j = Some kl →
               ∃ l, rows (leads d) !! kl = Some l
                    ∧ l_company_id l = j_company_id j)
  ∧ (∀ k i, rows (invoices d) !! k = Some i →
       is_Some (i_company_id i)
       ∧ ∃ j, rows (jobs d) !! i_job_id i = Some j
              ∧ j_company_id j = i_company_id i)
  ∧ (∀ k t, rows (tasks d) !! k = Some t →
       ∃ j, rows (jobs d) !! t_job_id t = Some j
            ∧ j_company_id j = Some (t_company_id t)).

(** An invoice is [Paid] exactly when it has a [paid_at], and it has its
    token. *)
Definition invoices_consistent (d : DB) : Prop :=
  ∀ k i, rows (invoices d) !! k = Some i →
    (i_status i = "Paid" ↔ is_Some (i_paid_at i))
    ∧ is_Some (i_public_token i).

Definition consistent (d : DB) : Prop :=
  users_consistent d ∧ statuses_consistent d ∧ references_consistent d
  ∧ invoices_consistent d.

(** AUTOINCREMENT hands out rowids from 1 upwards. *)
Definition rowids_positive (d : DB) : Prop :=
  (∀ k c, rows (companies d) !! k = Some c → 0 < k)
  ∧ (∀ k u, rows (users d) !! k = Some u → 0 < k).

(** Every stored row has passed its handler's validation. *)
Definition fields_consistent (d : DB) : Prop :=
  (∀ k c, rows (companies d) !! k = Some c → text_ok (c_name c))
  ∧ (∀ k u, rows (users d) !! k = Some u → text_ok (u_username u))
  ∧ (∀ k l, rows (leads d) !! k = Some l → lead_fields_ok l)
  ∧ (∀ k j, rows (jobs d) !! k = Some j → job_fields_ok j)
  ∧ (∀ k i, rows (invoices d) !! k = Some i → invoice_fields_ok i)
  ∧ (∀ k t, rows (tasks d) !! k = Some t → task_fields_ok t).

(** ** The application as a transition system

    The routes that write to the store, plus the public invoice page.
    [login], [logout], the dashboard and the owner's company list only
    read. *)

Inductive request :=
  | Setup (method : http_method) (f : form) (now1 now2 : string)
  | Signup (method : http_method) (f : form) (now1 now2 : string)
  | AddLead (s : session) (f : form) (now : string)
  | UpdateLeadStatus (s : session) (f : form) (lead_id : Z)
  | ConvertLead (s : session) (f : form) (lead_id : Z) (now : string)
  | UpdateJobStatus (s : session) (f : form) (job_id : Z)
  | CreateInvoice (s : session) (f : form) (job_id : Z) (now : string)
      (src : nat → Byte.byte)
  | PublicInvoice (token : string)
  | MarkPaid (s : session) (invoice_id : Z) (now : string)
  | AddTask (s : session) (f : form) (job_id : Z) (now : string)
  | ToggleTask (s : session) (task_id : Z).

Definition handle (r : request) : DB → response * DB :=
  respond
    match r with
    | Setup m f now1 now2 => setup m f now1 now2
    | Signup m f now1 now2 => signup m f now1 now2 id id
    | AddLead s f now => add_lead s f now
    | UpdateLeadStatus s f k => update_lead_status s f k
    | ConvertLead s f k now => convert_lead s f k now
    | UpdateJobStatus s f k => update_job_status s f k
    | CreateInvoice s f k now src => create_invoice s f k now src
    | PublicInvoice token => public_invoice token
    | MarkPaid s k now => mark_paid s k now
    | AddTask s f k now => add_task s f k now
    | ToggleTask s k => toggle_task s k
    end.

(** Module import: [init_db()] then [ensure_super_admin()]. *)
Definition startup (password : option string) (now1 now2 : string)
  : SE DB () :=
  init_db;; ensure_super_admin password now1 now2.

(** A deployment is the store together with whether a server process is up.
    A process comes up only if [startup] returns; an exception there leaves
    it down, with whatever [startup] had committed.  Requests are served
    only while it is up.  Each handler but [signup] is one transaction;
    [Race] is a [signup] during which other workers serve the requests
    [before] its company insert and the requests [after] its first commit. *)

Inductive process := Stopped | Running.

Inductive event :=
  | Start (password : option string) (now1 now2 : string)
  | Serve (r : request)
  | Race (method : http_method) (f : form) (now1 now2 : string)
      (before after : list request)
  | Stop.

Definition serve_all (rs : list request) (d : DB) : DB :=
  foldl (λ d r, (handle r d).2) d rs.

Definition exec (e : event) (σ : process * DB) : process * DB :=
  match e with
  | Start password now1 now2 =>
      match startup password now1 now2 σ.2 with
      | (inr _, d) => (Running, d)
      | (inl _, d) => (Stopped, d)
      end
  | Serve r =>
      match σ.1 with
      | Running => (Running, (handle r σ.2).2)
      | Stopped => σ
      end
  | Race method f now1 now2 before after =>
      match σ.1 with
      | Running =>
          (Running,
           (respond
              (signup method f now1 now2 (serve_all before)
                 (serve_all after)) σ.2).2)
      | Stopped => σ
      end
  | Stop => (Stopped, σ.2)
  end.

Definition run (es : list event) (σ : process * DB) : process * DB :=
  foldl (λ σ e, exec e σ) σ es.

Inductive reachable (σ0 : process * DB) : process * DB → Prop :=
  | reachable_refl : reachable σ0 σ0
  | reachable_step σ e : reachable σ0 σ → reachable σ0 (exec e σ).

(** A fresh deployment: no database file yet, no process. *)
Definition fresh : process * DB := (Stopped, empty_db).

(** At most one company carries the owner's name. *)
Definition one_owner_company (d : DB) : Prop :=
  ∀ k k' c c',
    rows (companies d) !! k = Some c → rows (companies d) !! k' = Some c' →
    c_name c = owner_company → c_name c' = owner_company → k = k'.

(** What holds of every deployment that started fresh: a running process
    has its super-admin, and as long as there is no super-admin there are no
    users at all and at most one owner company. *)
Definition bootstrap_inv (σ : process * DB) : Prop :=
  (σ.1 = Running → has_super_admin σ.2)
  ∧ (¬ has_super_admin σ.2 →
     rows (users σ.2) = ∅ ∧ one_owner_company σ.2).

(** ** What no statement rewrites

    What a stored row may have become later: every column but [status] (and
    [paid_at] with it) holds what it held; a company, once set, stays; an
    invoice that is [Paid] stays [Paid]. *)

Definition lead_kept (l l' : lead) : Prop :=
  l_name l' = l_name l ∧ l_phone l' = l_phone l
  ∧ l_created_at l' = l_created_at l
  ∧ l_service_type l' = l_service_type l ∧ l_source l' = l_source l
  ∧ l_address l' = l_address l ∧ l_notes l' = l_notes l
  ∧ (is_Some (l_company_id l) → l_company_id l' = l_company_id l).

Definition job_kept (j j' : job) : Prop :=
  j_lead_id j' = j_lead_id j ∧ j_customer_name j' = j_customer_name j
  ∧ j_created_at j' = j_created_at j
  ∧ j_scheduled_date j' = j_scheduled_date j
  ∧ j_technician j' = j_technician j ∧ j_notes j' = j_notes j
  ∧ (is_Some (j_company_id j) → j_company_id j' = j_company_id j).

Definition invoice_kept (i i' : invoice Amount) : Prop :=
  i_job_id i' = i_job_id i ∧ i_amount i' = i_amount i
  ∧ i_created_at i' = i_created_at i ∧ i_due_date i' = i_due_date i
  ∧ i_public_token i' = i_public_token i
  ∧ i_customer_email i' = i_customer_email i
  ∧ (is_Some (i_company_id i) → i_company_id i' = i_company_id i)
  ∧ (i_status i = "Paid" → i_status i' = "Paid")
  ∧ (is_Some (i_paid_at i) → is_Some (i_paid_at i')).

Definition task_kept (t t' : task) : Prop :=
  t_company_id t' = t_company_id t ∧ t_job_id t' = t_job_id t
  ∧ t_title t' = t_title t ∧ t_due_date t' = t_due_date t
  ∧ t_assigned_to t' = t_assigned_to t ∧ t_created_at t' = t_created_at t.

Definition rows_kept (d d' : DB) : Prop :=
  (∀ k c, rows (companies d) !! k = Some c →
          rows (companies d') !! k = Some c)
  ∧ (∀ k u, rows (users d) !! k = Some u → rows (users d') !! k = Some u)
  ∧ (∀ k l, rows (leads d) !! k = Some l →
            ∃ l', rows (leads d') !! k = Some l' ∧ lead_kept l l')
  ∧ (∀ k j, rows (jobs d) !! k = Some j →
            ∃ j', rows (jobs d') !! k = Some j' ∧ job_kept j j')
  ∧ (∀ k i, rows (invoices d) !! k = Some i →
            ∃ i', rows (invoices d') !! k = Some i' ∧ invoice_kept i i')
  ∧ (∀ k t, rows (tasks d) !! k = Some t →
            ∃ t', rows (tasks d') !! k = Some t' ∧ task_kept t t').

(** The session cookie a request to a [login_required] route carries. *)
Definition request_session (r : request) : option session :=
  match r with
  | AddLead s _ _ | UpdateLeadStatus s _ _ | ConvertLead s _ _ _
  | UpdateJobStatus s _ _ | CreateInvoice s _ _ _ _ | MarkPaid s _ _
  | AddTask s _ _ _ | ToggleTask s _ => Some s
  | Setup _ _ _ _ | Signup _ _ _ _ | PublicInvoice _ => None
  end.

End Model.

(** ** The routes that only read

    [login], [logout], the dashboard and the owner's list of companies.
    They call two more things that are not this repository's: werkzeug's
    password check, and SQLite's [SUM] and [ORDER BY].  [SUM] over REAL
    values is SQLite's own compensated summation.  [ORDER BY] on a column
    returns the rows it is given, ordered by that column under the BINARY
    collation; the order among rows that agree on the column is SQLite's to
    choose, so the model fixes none. *)

Class Werkzeug := {
  (** [werkzeug.security.check_password_hash(pwhash, password)] *)
  check_password_hash : string → string → bool }.

(** [ORDER BY key ASC] or, with [desc], [ORDER BY key DESC]. *)
Definition key_le {A} (desc : bool) (key : A → string) (a b : A) : Prop :=
  if desc then String.le (key b) (key a) else String.le (key a) (key b).

#[global] Instance key_le_dec {A} desc (key : A → string) a b
  : Decision (key_le desc key a b) :=
  match desc with
  | true => decide (String.le (key b) (key a))
  | false => decide (String.le (key a) (key b))
  end.

Class Sqlite `{Ext : Externals} := {
  (** [SUM(amount)] over at least one row *)
  sql_sum : list Amount → Amount;
  (** [ORDER BY] *)
  order_by : ∀ {A}, bool → (A → string) → list A → list A;
  order_by_perm : ∀ A desc (key : A → string) l, order_by desc key l ≡ₚ l;
  order_by_sorted : ∀ A desc (key : A → string) l,
    Sorted (key_le desc key) (order_by desc key l) }.

Section Reads.
Context {Ext : Externals} {Wz : Werkzeug} {Sq : Sqlite}.

(** *** Login and logout *)

(** The page is rendered with today's date as well; it plays no part. *)
Definition login (method : http_method) (f : form) : SE DB response :=
  set_up ← any_users_exist;
  if negb set_up then mret (Redirect "setup")
  else
    match method with
    | POST =>
        let username := strip (or_default (form_get "username" f) "") in
        let password := strip (or_default (form_get "password" f) "") in
        user ← with_db (query (λ d,
          select_first (λ u, bool_decide (u_username u = username))
            (users d)));
        match user with
        | Some (id, user) =>
            if check_password_hash (u_password_hash user) password
            then mret (RedirectLoggedIn "dashboard"
                         {| user_id := Some id;
                            company_id := u_company_id user |})
            else mret (Render "login.html"
                         (Some "Wrong username or password."))
        | None =>
            mret (Render "login.html" (Some "Wrong username or password."))
        end
    | GET => mret (Render "login.html" None)
    end.

(** [session.clear()]: the redirect carries the empty session. *)
Definition logout : SE DB response :=
  mret (RedirectLoggedIn "login" {| user_id := None; company_id := None |}).

(** *** Pages with a context *)

(** [SELECT * FROM t WHERE p ORDER BY id DESC] *)
Definition select_desc {R} (p : R → bool) (t : table R) : list (Z * R) :=
  reverse (filter (λ kr : Z * R, p kr.2) (scan t)).

(** [SELECT COUNT( * ) FROM t WHERE p] *)
Definition count_where {R} (p : R → bool) (t : table R) : nat :=
  List.length (filter (λ kr : Z * R, p kr.2) (scan t)).

(** [COALESCE(SUM(amount), 0)]: the integer 0 when no row qualifies,
    because [SUM] is then NULL, and a REAL otherwise. *)
Definition coalesce_sum (amounts : list Amount) : Z + Amount :=
  match amounts with
  | [] => inl 0
  | _ => inr (sql_sum amounts)
  end.

Definition is_new (l : lead) : bool := bool_decide (l_status l = "New").

Definition is_unpaid (i : invoice Amount) : bool :=
  bool_decide (i_status i = "Unpaid").

(** [due_date IS NOT NULL AND due_date < today] *)
Definition due_before (today : string) (i : invoice Amount) : bool :=
  match i_due_date i with
  | Some due => String.ltb due today
  | None => false
  end.

(** [scheduled_date = today]; a NULL date equals nothing. *)
Definition scheduled_on (today : string) (j : job) : bool :=
  bool_decide (j_scheduled_date j = Some today).

(** [substr(created_at, 1, 10) = today] *)
Definition created_on (today : string) (l : lead) : bool :=
  bool_decide (substring 0 10 (l_created_at l) = today).

(** What [dashboard] hands to its template. *)
Record dashboard_context := {
  ctx_company_name : string;
  ctx_leads : list (Z * lead);
  ctx_jobs : list (Z * job);
  ctx_tasks : list (Z * task);
  ctx_invoices : list (Z * invoice Amount);
  ctx_missed_leads : list (Z * lead);
  ctx_overdue_invoices : list (Z * invoice Amount);
  ctx_unpaid_total : Z + Amount;
  ctx_jobs_today : nat;
  ctx_leads_today : nat;
  ctx_today : string }.

(** One row of the owner's list: a company with its number of users. *)
Record company_count := {
  cc_id : Z; cc_name : string; cc_created_at : string; cc_user_count : nat }.

Inductive page :=
  | Plain (r : response)
  | RenderDashboard (ctx : dashboard_context)
  | RenderCompanies (companies : list company_count).

(** What Flask sends for a view function that renders such a page. *)
Definition respond_page (h : SE DB page) (d : DB) : page * DB :=
  match h d with
  | (inr r, d') => (r, d')
  | (inl (HTTPException code), d') => (Plain (Status code), d')
  | (inl _, d') => (Plain (Status 500), d')
  end.

(** [login_required] around such a view function. *)
Definition login_required_page (s : session) (view_func : SE DB page)
  : SE DB page :=
  if negb (truthy (user_id s)) || negb (truthy (company_id s))
  then mret (Plain (Redirect "login"))
  else view_func.

(** *** The dashboard

    The ten [SELECT]s are answered from one state of the store: no other
    connection commits between them. *)

Definition dashboard (s : session) (today : string) : SE DB page :=
  login_required_page s (
    cid ← current_company_id s;
    ctx ← with_db (
      company ← query (λ d, rows (companies d) !! cid);
      let company_name :=
        if company is Some c then c_name c else "Company" in
      leads_ ← query (λ d, select_desc (lead_in cid) (leads d));
      jobs_ ← query (λ d, select_desc (job_in cid) (jobs d));
      tasks_ ← query (λ d, select_desc (task_in cid) (tasks d));
      invoices_ ← query (λ d, select_desc (invoice_in cid) (invoices d));
      missed_leads ← query (λ d,
        select_desc (λ l, lead_in cid l && is_new l) (leads d));
      overdue_invoices ← query (λ d,
        order_by false (λ ki : Z * invoice Amount,
                          default "" (i_due_date ki.2))
          (filter (λ ki : Z * invoice Amount,
                     invoice_in cid ki.2 && is_unpaid ki.2
                     && due_before today ki.2)
             (scan (invoices d))));
      unpaid_total ← query (λ d,
        coalesce_sum
          ((λ ki : Z * invoice Amount, i_amount ki.2) <$>
             filter (λ ki : Z * invoice Amount,
                       invoice_in cid ki.2 && is_unpaid ki.2)
               (scan (invoices d))));
      jobs_today ← query (λ d,
        count_where (λ j, job_in cid j && scheduled_on today j) (jobs d));
      leads_today ← query (λ d,
        count_where (λ l, lead_in cid l && created_on today l) (leads d));
      mret {| ctx_company_name := company_name; ctx_leads := leads_;
              ctx_jobs := jobs_; ctx_tasks := tasks_;
              ctx_invoices := invoices_; ctx_missed_leads := missed_leads;
              ctx_overdue_invoices := overdue_invoices;
              ctx_unpaid_total := unpaid_total;
              ctx_jobs_today := jobs_today; ctx_leads_today := leads_today;
              ctx_today := today |});
    mret (RenderDashboard ctx)).

(** What the dashboard of company [cid] shows on the day [today] when the
    store is [d]. *)
Definition dashboard_context_of (cid : Z) (today : string) (d : DB)
  : dashboard_context :=
  {| ctx_company_name :=
       if rows (companies d) !! cid is Some c then c_name c else "Company";
     ctx_leads := select_desc (lead_in cid) (leads d);
     ctx_jobs := select_desc (job_in cid) (jobs d);
     ctx_tasks := select_desc (task_in cid) (tasks d);
     ctx_invoices := select_desc (invoice_in cid) (invoices d);
     ctx_missed_leads :=
       select_desc (λ l, lead_in cid l && is_new l) (leads d);
     ctx_overdue_invoices :=
       order_by false (λ ki : Z * invoice Amount,
                         default "" (i_due_date ki.2))
         (filter (λ ki : Z * invoice Amount,
                    invoice_in cid ki.2 && is_unpaid ki.2
                    && due_before today ki.2)
            (scan (invoices d)));
     ctx_unpaid_total :=
       coalesce_sum
         ((λ ki : Z * invoice Amount, i_amount ki.2) <$>
            filter (λ ki : Z * invoice Amount,
                      invoice_in cid ki.2 && is_unpaid ki.2)
              (scan (invoices d)));
     ctx_jobs_today :=
       count_where (λ j, job_in cid j && scheduled_on today j) (jobs d);
     ctx_leads_today :=
       count_where (λ l, lead_in cid l && created_on today l) (leads d);
     ctx_today := today |}.

(** *** The owner's list of companies *)

Definition super_admin_required (s : session) (view_func : SE DB page)
  : SE DB page :=
  match user_id s with
  | Some uid =>
      if negb (truthy (Some uid)) then mret (Plain (Redirect "login"))
      else
        user ← with_db (query (λ d, rows (users d) !! uid));
        match user with
        | Some u =>
            if negb (bool_decide (u_role u = "super_admin"))
            then abort 403 else view_func
        | None => abort 403
        end
  | None => mret (Plain (Redirect "login"))
  end.

(** [COUNT(u.id)] in the group of company [cid] of
    [companies c LEFT JOIN users u ON u.company_id = c.id]. *)
Definition user_count (cid : Z) (d : DB) : nat :=
  count_where (λ u, bool_decide (u_company_id u = Some cid)) (users d).

Definition company_counts (d : DB) : list company_count :=
  (λ kc : Z * company,
     {| cc_id := kc.1; cc_name := c_name kc.2;
        cc_created_at := c_created_at kc.2;
        cc_user_count := user_count kc.1 d |}) <$> scan (companies d).

Definition owner_companies (s : session) : SE DB page :=
  super_admin_required s (
    companies_ ← with_db (query (λ d,
      order_by true cc_created_at (company_counts d)));
    mret (RenderCompanies companies_)).

(** A session the application has issued for user [uid] of [d]: it names
    the user and the user's company. *)
Definition session_of (d : DB) (s : session) (uid cid : Z) : Prop :=
  user_id s = Some uid ∧ company_id s = Some cid
  ∧ ∃ u, rows (users d) !! uid = Some u ∧ u_company_id u = Some cid.

End Reads.

(** ** A stand-in for the library functions

    Used to run the handlers on sample requests: amounts are whole numbers
    written in decimal digits, a date is checked for its [dddd-dd-dd] shape
    only, [lower] maps [A]-[Z], and the password hash is a tagged copy. *)

Definition is_digit (c : ascii) : bool :=
  let n := N_of_ascii c in ((48 <=? n) && (n <=? 57))%N.

Fixpoint decimal (acc : Z) (s : string) : option Z :=
  match s with
  | EmptyString => Some acc
  | String c s' =>
      if is_digit c
      then decimal (10 * acc + Z.of_N (N_of_ascii c) - 48) s'
      else None
  end.

Definition sample_float (s : string) : option Z :=
  if nonempty s then decimal 0 s else None.

Definition sample_strptime_ok (s : string) : bool :=
  match list_ascii_of_string s with
  | [y1; y2; y3; y4; d1; m1; m2; d2; a1; a2] =>
      forallb is_digit [y1; y2; y3; y4; m1; m2; a1; a2]
      && bool_decide (d1 = "-"%char) && bool_decide (d2 = "-"%char)
  | _ => false
  end.

Definition ascii_lower (c : ascii) : ascii :=
  let n := N_of_ascii c in
  if ((65 <=? n) && (n <=? 90))%N then ascii_of_N (n + 32) else c.

Definition sample_lower (s : string) : string :=
  string_of_list_ascii (ascii_lower <$> list_ascii_of_string s).

Definition sample_externals : Externals :=
  {| Amount := Z;
     py_float := sample_float;
     isnan := λ _, false;
     strptime_ok := sample_strptime_ok;
     lower := sample_lower;
     generate_password_hash := λ pw, "hash:" ++ pw |}.

(** Two tenants, each with a lead, a job, an invoice and a task. *)

Definition acme : session := {| user_id := Some 2; company_id := Some 2 |}.
Definition bolt : session := {| user_id := Some 3; company_id := Some 3 |}.

Definition sample_src (k : nat) : Byte.byte :=
  default Byte.x00 (Byte.of_N (N.of_nat k)).

Definition sample_src' (k : nat) : Byte.byte :=
  default Byte.x00 (Byte.of_N (N.of_nat (k + 100))).

Definition sample_started : @DB sample_externals :=
  (startup (Some "s3cret") "t0" "t0" empty_db).2.

Definition sample_events : list event :=
  [ Serve (Signup POST [("company_name", "Acme Air"); ("username", "ann");
                        ("password", "pw")] "t1" "t1");
    Serve (Signup POST [("company_name", "Bolt Heating"); ("username", "bob");
                        ("password", "pw")] "t2" "t2");
    Serve (AddLead acme [("name", "Jane"); ("phone", "555-1000")] "t3");
    Serve (AddLead bolt [("name", "Omar"); ("phone", "555-2000")] "t4");
    Serve (ConvertLead acme [("scheduled_date", "2024-05-01")] 1 "t5");
    Serve (CreateInvoice acme [("amount", "150"); ("due_date", "2024-05-15")]
             1 "t6" sample_src);
    Serve (AddTask acme [("title", "Call back")] 1 "t7");
    Serve (ConvertLead bolt [("technician", "Raj")] 2 "t8");
    Serve (CreateInvoice bolt [("amount", "90")] 2 "t9" sample_src');
    Serve (AddTask bolt [("title", "Order parts")] 2 "t10") ].

Definition sample_db : @DB sample_externals :=
  (run sample_events (Running, sample_started)).2.

(** Bolt's lead as [sample_db] holds it. *)
Definition omar : lead :=
  {| l_company_id := Some 3; l_name := "Omar"; l_phone := "555-2000";
     l_status := "Scheduled"; l_created_at := "t4"; l_service_type := None;
     l_source := None; l_address := None; l_notes := None |}.

(** Acme's company and job rows as [sample_db] holds them. *)
Definition acme_company : company :=
  {| c_name := "Acme Air"; c_created_at := "t1" |}.

Definition jane_job : job :=
  {| j_company_id := Some 2; j_lead_id := Some 1; j_customer_name := "Jane";
     j_status := "Scheduled"; j_created_at := "t5";
     j_scheduled_date := Some "2024-05-01"; j_technician := None;
     j_notes := None |}.

(** Random bytes not drawn before. *)
Definition sample_src'' (k : nat) : Byte.byte :=
  default Byte.x00 (Byte.of_N (N.of_nat (k + 200))).

(** A signup, and a second one for the same username that commits while
    the first is between its two commits. *)
Definition cool_form : form :=
  [("company_name", "Cool Co"); ("username", "cy"); ("password", "pw")].

Definition rival_form : form :=
  [("company_name", "Dupe Ltd"); ("username", "cy"); ("password", "pw2")].

Definition rival_signup : @DB sample_externals → @DB sample_externals :=
  serve_all [Signup POST rival_form "t11" "t11"].

(** Forms that pass every handler's validation, and one that fails it. *)
Definition good_form : form :=
  [("status", "Scheduled"); ("amount", "75"); ("title", "Inspect")].

Definition bad_form : form :=
  [("status", "Bogus"); ("amount", "lots"); ("title", "  ")].

(** The stand-ins for werkzeug's check and for SQLite's [SUM] and
    [ORDER BY]: the hash is compared with the tagged password, amounts are
    added up, and rows are sorted by merging. *)

Definition sample_werkzeug : Werkzeug :=
  {| check_password_hash :=
       λ pwhash pw, bool_decide (pwhash = "hash:" ++ pw) |}.

Definition key_le_total {A} desc (key : A → string) : Total (key_le desc key) :=
  λ a b,
    match desc return key_le desc key a b ∨ key_le desc key b a with
    | true => total String.le (key b) (key a)
    | false => total String.le (key a) (key b)
    end.

Definition sample_sqlite : @Sqlite sample_externals :=
  {| sql_sum := foldr Z.add 0 : list (@Amount sample_externals) → Z;
     order_by := λ A desc key, merge_sort (key_le desc key);
     order_by_perm := λ A desc key, merge_sort_Permutation (key_le desc key);
     order_by_sorted := λ A desc key,
       @Sorted_merge_sort A (key_le desc key) _ (key_le_total desc key) |}.

(** ** The schema

    [init_db] once more, this time for what it does to the schema rather
    than to the rows.  A table is its name and the names of its columns in
    order; the schema is the list of tables in the order of their creation.
    The model covers databases whose schema objects are ordinary tables with
    ordinary columns.  SQLite compares the names of tables and columns
    without regard to the case of ASCII letters, while Python's [col not in
    cols] compares them exactly.  Under the [sqlite3] module's defaults no
    transaction is open around a [CREATE] or an [ALTER]: each is durable as
    soon as it has run, so an exception leaves what was done before it. *)

Module Schema.

Record table_def := { name : string; columns : list string }.

Definition schema := list table_def.

Definition fold_case (s : string) : string :=
  string_of_list_ascii (ascii_lower <$> list_ascii_of_string s).

Definition same_name (a b : string) : bool :=
  bool_decide (fold_case a = fold_case b).

Fixpoint find_table (table : string) (sch : schema) : option table_def :=
  match sch with
  | [] => None
  | t :: rest =>
      if same_name (name t) table then Some t else find_table table rest
  end.

(** [CREATE TABLE IF NOT EXISTS table (cols)] *)
Definition create_table_if_not_exists (table : string) (cols : list string)
    (sch : schema) : schema :=
  if find_table table sch is Some _ then sch
  else (sch ++ [{| name := table; columns := cols |}])%list.

(** The two ways [ALTER TABLE ... ADD COLUMN] fails here, both raised as
    [sqlite3.OperationalError]. *)
Inductive sql_error := NoSuchTable | DuplicateColumnName.

(** [ALTER TABLE table ADD COLUMN col coltype_sql], for a plain column
    type. *)
Fixpoint add_column (table col : string) (sch : schema)
  : sql_error + schema :=
  match sch with
  | [] => inl NoSuchTable
  | t :: rest =>
      if same_name (name t) table then
        if existsb (same_name col) (columns t) then inl DuplicateColumnName
        else inr ({| name := name t; columns := (columns t ++ [col])%list |}
                    :: rest)
      else
        match add_column table col rest with
        | inr rest' => inr (t :: rest')
        | inl e => inl e
        end
  end.

(** Statements run one after the other until one raises. *)
Definition DDL (A : Type) : Type := schema → (sql_error + A) * schema.

#[global] Instance ddl_ret : MRet DDL := λ A a sch, (inr a, sch).

#[global] Instance ddl_bind : MBind DDL :=
  λ A B k m sch, match m sch with
                 | (inr a, sch') => k a sch'
                 | (inl e, sch') => (inl e, sch')
                 end.

Definition execute_create (table : string) (cols : list string) : DDL () :=
  λ sch, (inr (), create_table_if_not_exists table cols sch).

Definition execute_alter (table col coltype_sql : string) : DDL () :=
  λ sch, match add_column table col sch with
         | inr sch' => (inr (), sch')
         | inl e => (inl e, sch)
         end.

(** [conn.commit()]: nothing is pending. *)
Definition commit : DDL () := mret ().

(** The names [PRAGMA table_info(table)] lists; none for a table that does
    not exist. *)
Definition table_columns (sch : schema) (table : string) : list string :=
  if find_table table sch is Some t then columns t else [].

Definition ensure_column (table col coltype_sql : string) : DDL () :=
  λ sch,
    let cols := table_columns sch table in
    if negb (bool_decide (col ∈ cols))
    then execute_alter table col coltype_sql sch
    else (inr (), sch).

Definition init_db : DDL () :=
  execute_create "companies" ["id"; "name"; "created_at"];;
  execute_create "users"
    ["id"; "company_id"; "username"; "password_hash"; "role"; "created_at"];;
  execute_create "leads" ["id"; "name"; "phone"; "status"; "created_at"];;
  execute_create "jobs"
    ["id"; "lead_id"; "customer_name"; "status"; "created_at"];;
  execute_create "invoices"
    ["id"; "job_id"; "amount"; "status"; "created_at"; "paid_at"];;
  execute_create "tasks"
    ["id"; "company_id"; "job_id"; "title"; "status"; "due_date";
     "assigned_to"; "created_at"];;
  commit;;
  ensure_column "leads" "service_type" "TEXT";;
  ensure_column "leads" "source" "TEXT";;
  ensure_column "leads" "address" "TEXT";;
  ensure_column "leads" "notes" "TEXT";;
  ensure_column "jobs" "scheduled_date" "TEXT";;
  ensure_column "jobs" "technician" "TEXT";;
  ensure_column "jobs" "notes" "TEXT";;
  ensure_column "invoices" "due_date" "TEXT";;
  ensure_column "invoices" "public_token" "TEXT";;
  ensure_column "invoices" "customer_email" "TEXT";;
  ensure_column "leads" "company_id" "INTEGER";;
  ensure_column "jobs" "company_id" "INTEGER";;
  ensure_column "invoices" "company_id" "INTEGER";;
  commit.

(** The tables [init_db] creates and the columns it adds, in its order. *)
Definition created : list (string * list string) :=
  [("companies", ["id"; "name"; "created_at"]);
   ("users",
    ["id"; "company_id"; "username"; "password_hash"; "role"; "created_at"]);
   ("leads", ["id"; "name"; "phone"; "status"; "created_at"]);
   ("jobs", ["id"; "lead_id"; "customer_name"; "status"; "created_at"]);
   ("invoices",
    ["id"; "job_id"; "amount"; "status"; "created_at"; "paid_at"]);
   ("tasks",
    ["id"; "company_id"; "job_id"; "title"; "status"; "due_date";
     "assigned_to"; "created_at"])].

Definition upgrades : list (string * string * string) :=
  [("leads", "service_type", "TEXT"); ("leads", "source", "TEXT");
   ("leads", "address", "TEXT"); ("leads", "notes", "TEXT");
   ("jobs", "scheduled_date", "TEXT"); ("jobs", "technician", "TEXT");
   ("jobs", "notes", "TEXT"); ("invoices", "due_date", "TEXT");
   ("invoices", "public_token", "TEXT");
   ("invoices", "customer_email", "TEXT");
   ("leads", "company_id", "INTEGER"); ("jobs", "company_id", "INTEGER");
   ("invoices", "company_id", "INTEGER")].

Definition create_all (cs : list (string * list string)) : DDL () :=
  foldr (λ c k, execute_create c.1 c.2;; k) commit cs.

Definition ensure_all (us : list (string * string * string)) : DDL () :=
  foldr (λ u k, ensure_column u.1.1 u.1.2 u.2;; k) commit us.

(** A later schema keeps every table with its name and its columns, new
    columns coming after the old. *)
Definition extends (sch sch' : schema) : Prop :=
  ∀ x t, find_table x sch = Some t →
    ∃ t', find_table x sch' = Some t' ∧ name t' = name t
          ∧ columns t `prefix_of` columns t'.

(** No column differs from a column [init_db] adds to its table by the
    case of letters alone. *)
Definition no_case_clash (sch : schema) : Prop :=
  ∀ u c, u ∈ upgrades → c ∈ table_columns sch u.1.1 →
         same_name u.1.2 c = true → c = u.1.2.

(** A schema from before the upgrade columns, and one that has the leads'
    notes under another spelling. *)
Definition legacy : schema :=
  [{| name := "leads";
      columns := ["id"; "name"; "phone"; "status"; "created_at"] |};
   {| name := "Jobs";
      columns := ["id"; "lead_id"; "customer_name"; "status"; "created_at";
                  "notes"] |}].

Definition legacy_notes : schema :=
  [{| name := "leads";
      columns := ["id"; "name"; "phone"; "status"; "created_at"; "Notes"] |}].

End Schema.

(** * Properties *)

(** ** Tables *)

Section Tables.
Context {R : Type}.
Implicit Types (t : table R) (m : gmap Z R) (p : R → bool) (k : Z).

Lemma max_rowid_ge m k r : m !! k = Some r → k ≤ max_rowid m.
Proof.
  intros Hk. unfold max_rowid.
  apply elem_of_map_to_list in Hk.
  assert (Hin : k ∈ (map_to_list m).*1).
  { apply list_elem_of_fmap. by exists (k, r). }
  clear Hk. induction Hin as [? l | ? y l _ IH]; simpl; lia.
Qed.

Lemma next_rowid_fresh t : rows t !! next_rowid t = None.
Proof.
  destruct (rows t !! next_rowid t) as [r|] eqn:E; [|done].
  apply max_rowid_ge in E. unfold next_rowid in E. lia.
Qed.

Lemma next_rowid_above t k r : rows t !! k = Some r → k < next_rowid t.
Proof. intros E%max_rowid_ge. unfold next_rowid. lia. Qed.

Lemma insert_row_lookup r t k :
  rows (insert_row r t) !! k
  = if decide (k = next_rowid t) then Some r else rows t !! k.
Proof.
  unfold insert_row; simpl. case_decide as E.
  - subst. apply lookup_insert_eq.
  - by apply lookup_insert_ne.
Qed.

Lemma insert_row_new r t : rows (insert_row r t) !! next_rowid t = Some r.
Proof. by rewrite insert_row_lookup, decide_True. Qed.

Lemma insert_row_seqno r t : seqno (insert_row r t) = next_rowid t.
Proof. done. Qed.

Lemma insert_row_old r t k x :
  rows t !! k = Some x → rows (insert_row r t) !! k = Some x.
Proof.
  intros E. rewrite insert_row_lookup. case_decide; [|done].
  subst. by rewrite next_rowid_fresh in E.
Qed.

Lemma insert_row_size r t :
  size (rows (insert_row r t)) = S (size (rows t)).
Proof. apply map_size_insert_None, next_rowid_fresh. Qed.

Lemma update_row_lookup k p (f : R → R) t k' :
  rows (update_row k p f t) !! k'
  = if decide (k' = k)
    then (λ r, if p r then f r else r) <$> rows t !! k'
    else rows t !! k'.
Proof.
  unfold update_row; simpl. case_decide as E.
  - subst. apply lookup_alter_eq.
  - by apply lookup_alter_ne.
Qed.

Lemma update_where_lookup p (f : R → R) t k :
  rows (update_where p f t) !! k
  = (λ r, if p r then f r else r) <$> rows t !! k.
Proof. apply lookup_fmap. Qed.

Lemma select_row_Some k p t r :
  select_row k p t = Some r ↔ rows t !! k = Some r ∧ p r = true.
Proof.
  unfold select_row.
  destruct (rows t !! k) as [x|]; [|split; [done|by intros [? _]]].
  destruct (p x) eqn:E; split.
  - by intros [= ->].
  - by intros [[= ->] _].
  - done.
  - intros [[= ->] ?]. congruence.
Qed.


Lemma elem_of_scan t k r : (k, r) ∈ scan t ↔ rows t !! k = Some r.
Proof.
  unfold scan. rewrite merge_sort_Permutation. apply elem_of_map_to_list.
Qed.

Lemma NoDup_scan t : NoDup (scan t).*1.
Proof.
  unfold scan. rewrite merge_sort_Permutation. apply NoDup_fst_map_to_list.
Qed.

Lemma select_first_Some p t k r :
  select_first p t = Some (k, r) → rows t !! k = Some r ∧ p r = true.
Proof.
  unfold select_first. intros E%head_Some_elem_of.
  apply list_elem_of_filter in E as [Hp E]. simpl in Hp.
  apply elem_of_scan in E. split; [done|]. by apply Is_true_true.
Qed.

Lemma select_first_None p t :
  select_first p t = None ↔ ∀ k r, rows t !! k = Some r → p r = false.
Proof.
  unfold select_first. rewrite head_None. split.
  - intros E k r Hk. apply elem_of_scan in Hk.
    destruct (p r) eqn:Hp; [|done].
    assert ((k, r) ∈ filter (λ kr : Z * R, p kr.2) (scan t)) as Hin.
    { apply list_elem_of_filter. split; [by apply Is_true_true|done]. }
    rewrite E in Hin. by apply not_elem_of_nil in Hin.
  - intros H.
    destruct (filter (λ kr : Z * R, p kr.2) (scan t)) as [|[k r] l] eqn:E;
      [done|].
    assert ((k, r) ∈ filter (λ kr : Z * R, p kr.2) (scan t)) as Hin
      by (rewrite E; left).
    apply list_elem_of_filter in Hin as [Hp Hin%elem_of_scan].
    apply H in Hin. simpl in Hp. by rewrite Hin in Hp.
Qed.

Lemma select_first_is_Some p t k r :
  rows t !! k = Some r → p r = true → is_Some (select_first p t).
Proof.
  intros Hk Hp. destruct (select_first p t) eqn:E; [by eexists|].
  rewrite select_first_None in E. apply E in Hk. congruence.
Qed.

End Tables.

(** ** Running the handlers *)

Ltac db_simpl :=
  cbn [companies users leads jobs invoices tasks with_companies with_users
       with_leads with_jobs with_invoices with_tasks fst snd] in *.

Ltac se_simpl :=
  unfold with_db, query, gets, abort, raise, execute, execute_insert,
    commit, committing, rollback, get_db, mbind, se_bind, mret, se_ret;
  simpl.

Section Handlers.
Context {Ext : Externals}.
Implicit Types (s : session) (f : form) (d : DB) (cid k : Z).

Lemma login_required_logged_in s cid (h : SE DB response) :
  logged_in s cid → login_required s h = h.
Proof.
  intros (Hu & Hc & Hz). unfold login_required. rewrite Hu, Hc. simpl.
  by destruct (Z.eqb_spec cid 0).
Qed.

Lemma current_company_id_logged_in s cid d :
  logged_in s cid → current_company_id s d = (inr cid, d).
Proof.
  intros (Hu & Hc & Hz). unfold current_company_id. rewrite Hc. simpl.
  by destruct (Z.eqb_spec cid 0).
Qed.

Lemma session_cases s :
  (∃ cid, logged_in s cid)
  ∨ (∀ h : SE DB response, login_required s h = mret (Redirect "login")).
Proof.
  unfold logged_in, login_required.
  destruct (truthy (user_id s)); [|by right].
  destruct (company_id s) as [cid|]; [|by right]. simpl.
  destruct (Z.eqb_spec cid 0); [by right|]. left. by exists cid.
Qed.

Ltac enter Hs :=
  rewrite (login_required_logged_in _ _ _ Hs);
  unfold respond, mbind, se_bind;
  rewrite (current_company_id_logged_in _ _ _ Hs).

Lemma add_lead_run s cid f now d :
  logged_in s cid →
  respond (add_lead s f now) d =
    let name := strip (form_get_d "name" f) in
    let phone := strip (form_get_d "phone" f) in
    if negb (nonempty name) || negb (nonempty phone) then (Status 400, d)
    else (Redirect "dashboard",
          with_leads (insert_row
            {| l_company_id := Some cid; l_name := name; l_phone := phone;
               l_status := "New"; l_created_at := now;
               l_service_type := or_none (strip (form_get_d "service_type" f));
               l_source := or_none (strip (form_get_d "source" f));
               l_address := or_none (strip (form_get_d "address" f));
               l_notes := or_none (strip (form_get_d "notes" f)) |}) d).
Proof.
  intros Hs. unfold add_lead. enter Hs. simpl.
  by destruct (negb _ || negb _).
Qed.

Lemma update_lead_status_run s cid f k d :
  logged_in s cid →
  respond (update_lead_status s f k) d =
    let status := strip (or_default (form_get "status" f) "New") in
    if bool_decide (status ∈ lead_statuses) then
      if select_row k (lead_in cid) (leads d) is Some _
      then (Redirect "dashboard",
            with_leads
              (update_row k (lead_in cid) (set_lead_status status)) d)
      else (Status 404, d)
    else (Status 400, d).
Proof.
  intros Hs. unfold update_lead_status. enter Hs. simpl.
  destruct (bool_decide _); [|done]. se_simpl.
  by destruct (select_row _ _ _).
Qed.

Lemma convert_lead_run s cid f k now d :
  logged_in s cid →
  respond (convert_lead s f k now) d =
    match select_row k (lead_in cid) (leads d) with
    | Some l =>
        (Redirect "dashboard",
         with_leads (update_row k (lead_in cid) (set_lead_status "Scheduled"))
           (with_jobs (insert_row (new_job cid k l f now)) d))
    | None => (Status 404, d)
    end.
Proof.
  intros Hs. unfold convert_lead. enter Hs. se_simpl.
  by destruct (select_row _ _ _).
Qed.

Lemma update_job_status_run s cid f k d :
  logged_in s cid →
  respond (update_job_status s f k) d =
    let status := strip (or_default (form_get "status" f) "Scheduled") in
    if bool_decide (status ∈ job_statuses) then
      if select_row k (job_in cid) (jobs d) is Some _
      then (Redirect "dashboard",
            with_jobs (update_row k (job_in cid) (set_job_status status)) d)
      else (Status 404, d)
    else (Status 400, d).
Proof.
  intros Hs. unfold update_job_status. enter Hs. simpl.
  destruct (bool_decide _); [|done]. se_simpl.
  by destruct (select_row _ _ _).
Qed.

Lemma create_invoice_run s cid f k now src d :
  logged_in s cid →
  respond (create_invoice s f k now src) d =
    match py_float (strip (or_default (form_get "amount" f) "")) with
    | Some amount =>
        if select_row k (job_in cid) (jobs d) is Some _ then
          if isnan amount then (Status 500, d)
          else (Redirect "dashboard",
                with_invoices
                  (insert_row (new_invoice cid f k now src amount)) d)
        else (Status 404, d)
    | None => (Status 400, d)
    end.
Proof.
  intros Hs. unfold create_invoice. enter Hs. simpl.
  destruct (py_float _) as [amount|]; [|done]. se_simpl.
  destruct (select_row _ _ _); [|done]. unfold insert_invoice. simpl.
  by destruct (isnan amount).
Qed.

Lemma mark_paid_run s cid k now d :
  logged_in s cid →
  respond (mark_paid s k now) d =
    if select_row k (invoice_in cid) (invoices d) is Some _
    then (Redirect "dashboard",
          with_invoices (update_row k (invoice_in cid) (set_paid now)) d)
    else (Status 404, d).
Proof.
  intros Hs. unfold mark_paid. enter Hs. se_simpl.
  by destruct (select_row _ _ _).
Qed.

Lemma add_task_run s cid f k now d :
  logged_in s cid →
  respond (add_task s f k now) d =
    let title := strip (or_default (form_get "title" f) "") in
    if negb (nonempty title) then (Status 400, d)
    else if select_row k (job_in cid) (jobs d) is Some _ then
      (Redirect "dashboard",
       with_tasks (insert_row
         {| t_company_id := cid; t_job_id := k; t_title := title;
            t_status := "todo";
            t_due_date := parse_date_yyyy_mm_dd (form_get_d "due_date" f);
            t_assigned_to :=
              or_none (strip (or_default (form_get "assigned_to" f) ""));
            t_created_at := now |}) d)
    else (Status 404, d).
Proof.
  intros Hs. unfold add_task. enter Hs. simpl.
  destruct (negb _); [done|]. se_simpl.
  by destruct (select_row _ _ _).
Qed.

Lemma toggle_task_run s cid k d :
  logged_in s cid →
  respond (toggle_task s k) d =
    match select_row k (task_in cid) (tasks d) with
    | Some t =>
        (Redirect "dashboard",
         with_tasks
           (update_row k (task_in cid)
              (set_task_status (toggled (t_status t)))) d)
    | None => (Status 404, d)
    end.
Proof.
  intros Hs. unfold toggle_task. enter Hs. se_simpl.
  by destruct (select_row _ _ _).
Qed.

Lemma public_invoice_run token d :
  respond (public_invoice token) d =
    match select_public_invoice token d with
    | Some (i, company_name, customer_name) =>
        (RenderInvoice i company_name customer_name, d)
    | None => (Status 404, d)
    end.
Proof.
  unfold public_invoice, respond. se_simpl.
  by destruct (select_public_invoice token d) as [[[??]?]|].
Qed.

Lemma any_users_exist_run d :
  any_users_exist d = (inr (bool_decide (0 < count_rows (users d))%nat), d).
Proof. done. Qed.

Lemma setup_run method f now1 now2 d :
  respond (setup method f now1 now2) d =
    if bool_decide (0 < count_rows (users d))%nat then (Redirect "login", d)
    else match method with
         | GET => (Render "setup.html" None, d)
         | POST =>
             if fields_missing f
             then (Render "setup.html" (Some "All fields are required."), d)
             else if select_first (username_is (field "username" f)) (users d)
                       is Some _
             then (Status 500, d)
             else (Redirect "login", setup_writes f now1 now2 d)
         end.
Proof.
  unfold setup, respond, mbind, se_bind. rewrite any_users_exist_run.
  destruct (bool_decide _); [done|]. destruct method; [done|].
  fold (field "company_name" f) (field "username" f) (field "password" f).
  fold (fields_missing f). destruct (fields_missing f); [done|].
  unfold insert_company, insert_user. se_simpl.
  unfold username_is.
  by destruct (select_first _ (users d)).
Qed.

Lemma signup_run f now1 now2 o1 o2 d :
  fields_missing f = false →
  lower (field "username" f) ≠ "aptech_owner" →
  respond (signup POST f now1 now2 o1 o2) d =
    if select_first (username_is (field "username" f)) (users d) is Some _
    then (Render "signup.html"
            (Some "That username is already taken. Try another."), d)
    else
      let d3 := o2 (signup_company f now1 o1 d) in
      if select_first (username_is (field "username" f)) (users d3)
           is Some _
      then (Status 500, d3)
      else
        let d4 :=
          with_users (insert_row (signup_admin f now1 now2 o1 d)) d3 in
        match select_first (username_is (field "username" f)) (users d4)
        with
        | Some (id, u) =>
            (RedirectLoggedIn "dashboard"
               {| user_id := Some id; company_id := u_company_id u |}, d4)
        | None => (Status 500, d4)
        end.
Proof.
  intros Hf Hr. unfold signup.
  fold (field "company_name" f) (field "username" f) (field "password" f).
  fold (fields_missing f). rewrite Hf.
  rewrite bool_decide_eq_false_2 by done.
  unfold respond, insert_company, insert_user, others. se_simpl.
  unfold username_is.
  destruct (select_first _ (users d)); [done|]. simpl.
  destruct (select_first _ (users (o2 _))); [done|]. simpl.
  by destruct (select_first _ _) as [[??]|].
Qed.

Lemma signup_rejects method f now1 now2 o1 o2 d :
  method = GET ∨ fields_missing f = true
  ∨ lower (field "username" f) = "aptech_owner" →
  (respond (signup method f now1 now2 o1 o2) d).2 = d.
Proof.
  unfold signup.
  fold (field "company_name" f) (field "username" f) (field "password" f).
  fold (fields_missing f).
  intros H. destruct method; [done|].
  destruct (fields_missing f); [done|].
  destruct H as [?|[?|H]]; [done..|].
  by rewrite bool_decide_eq_true_2.
Qed.

Lemma init_db_run d : init_db d = (inr (), d).
Proof. done. Qed.

Lemma ensure_super_admin_run password now1 now2 d :
  ensure_super_admin password now1 now2 d =
    let d1 := with_owner_company now1 d in
    if select_first is_super_admin (users d) is Some _ then (inr (), d1)
    else if negb (nonempty (default "" password))
    then (inl (RuntimeError "SUPER_ADMIN_PASSWORD is not set"), d1)
    else if select_first (username_is "aptech_owner") (users d) is Some _
    then (inl IntegrityError, d1)
    else (inr (),
          with_users (insert_row (super_admin_row password now1 now2 d)) d1).
Proof.
  unfold ensure_super_admin, with_owner_company, super_admin_row,
    owner_company_id, with_owner_company, insert_company, insert_user,
    is_owner_company, is_super_admin, username_is, owner_company.
  se_simpl.
  destruct (select_first _ (companies d)) as [[id c]|]; simpl;
    (destruct (select_first _ (users d)); [done|]);
    (destruct (negb _); [done|]); simpl;
    by destruct (select_first _ (users d)).
Qed.

Lemma startup_run password now1 now2 d :
  startup password now1 now2 d = ensure_super_admin password now1 now2 d.
Proof.
  unfold startup, mbind, se_bind. rewrite init_db_run.
  by destruct (ensure_super_admin _ _ _ _) as [[?|[]] ?].
Qed.

Lemma logged_out_run s (h : SE DB response) d :
  (∀ h : SE DB response, login_required s h = mret (Redirect "login")) →
  respond (login_required s h) d = (Redirect "login", d).
Proof. intros ->. done. Qed.

End Handlers.

(** ** Every event is a sequence of the application's writes *)

Section Writes.
Context {Ext : Externals}.
Implicit Types (s : session) (f : form) (d : DB) (cid k : Z).

Lemma toggled_cases st : toggled st = "todo" ∨ toggled st = "done".
Proof. unfold toggled. destruct (bool_decide _); simpl; auto. Qed.

Lemma signup_writes method f now1 now2 (o1 o2 : DB → DB) d :
  (∀ x, rtc write x (o1 x)) → (∀ x, rtc write x (o2 x)) →
  rtc write d (respond (signup method f now1 now2 o1 o2) d).2.
Proof.
  intros Ho1 Ho2.
  destruct method; [apply rtc_refl|].
  destruct (fields_missing f) eqn:Hf.
  { rewrite signup_rejects by auto. apply rtc_refl. }
  destruct (decide (lower (field "username" f) = "aptech_owner")).
  { rewrite signup_rejects by auto. apply rtc_refl. }
  rewrite signup_run by done. cbv zeta.
  destruct (select_first _ (users d)); [apply rtc_refl|].
  assert (rtc write d (o2 (signup_company f now1 o1 d))) as H3.
  { etrans; [apply Ho1|]. etrans; [|apply Ho2].
    apply rtc_once, write_company. }
  destruct (select_first _ (users (o2 (signup_company f now1 o1 d))));
    [done|].
  assert (rtc write d
            (with_users (insert_row (signup_admin f now1 now2 o1 d))
               (o2 (signup_company f now1 o1 d)))).
  { eapply rtc_r; [done|]. by apply write_admin. }
  by repeat case_match.
Qed.

Lemma handle_writes r d : rtc write d (handle r d).2.
Proof.
  destruct r; unfold handle.
  - rewrite setup_run. repeat case_match; simpl; try apply rtc_refl.
    unfold setup_writes. cbv zeta.
    eapply rtc_r; [|apply write_invoice_company].
    eapply rtc_r; [|apply write_job_company].
    eapply rtc_r; [|apply write_lead_company].
    eapply rtc_r; [|by apply write_admin].
    apply rtc_once, write_company.
  - apply signup_writes; intros x; apply rtc_refl.
  - destruct (session_cases s) as [[cid Hs]|Hs].
    + rewrite (add_lead_run _ _ _ _ _ Hs). simpl.
      case_match; [apply rtc_refl|apply rtc_once, write_lead].
    + unfold add_lead. rewrite logged_out_run by done. apply rtc_refl.
  - destruct (session_cases s) as [[cid Hs]|Hs].
    + rewrite (update_lead_status_run _ _ _ _ _ Hs). simpl.
      repeat case_match; try apply rtc_refl.
      apply rtc_once, write_lead_status.
    + unfold update_lead_status. rewrite logged_out_run by done.
      apply rtc_refl.
  - destruct (session_cases s) as [[cid Hs]|Hs].
    + rewrite (convert_lead_run _ _ _ _ _ _ Hs).
      case_match; [|apply rtc_refl].
      eapply rtc_r; [|apply write_lead_status]. apply rtc_once, write_job.
    + unfold convert_lead. rewrite logged_out_run by done. apply rtc_refl.
  - destruct (session_cases s) as [[cid Hs]|Hs].
    + rewrite (update_job_status_run _ _ _ _ _ Hs). simpl.
      repeat case_match; try apply rtc_refl.
      apply rtc_once, write_job_status.
    + unfold update_job_status. rewrite logged_out_run by done.
      apply rtc_refl.
  - destruct (session_cases s) as [[cid Hs]|Hs].
    + rewrite (create_invoice_run _ _ _ _ _ _ _ Hs).
      repeat case_match; try apply rtc_refl.
      apply rtc_once, write_invoice.
    + unfold create_invoice. rewrite logged_out_run by done. apply rtc_refl.
  - rewrite public_invoice_run. repeat case_match; apply rtc_refl.
  - destruct (session_cases s) as [[cid Hs]|Hs].
    + rewrite (mark_paid_run _ _ _ _ _ Hs).
      case_match; [|apply rtc_refl]. apply rtc_once, write_paid.
    + unfold mark_paid. rewrite logged_out_run by done. apply rtc_refl.
  - destruct (session_cases s) as [[cid Hs]|Hs].
    + rewrite (add_task_run _ _ _ _ _ _ Hs). simpl.
      repeat case_match; try apply rtc_refl.
      by apply rtc_once, write_task.
    + unfold add_task. rewrite logged_out_run by done. apply rtc_refl.
  - destruct (session_cases s) as [[cid Hs]|Hs].
    + rewrite (toggle_task_run _ _ _ _ Hs).
      case_match; [|apply rtc_refl].
      apply rtc_once, write_task_status, toggled_cases.
    + unfold toggle_task. rewrite logged_out_run by done. apply rtc_refl.
Qed.

Lemma has_super_admin_select d :
  has_super_admin d ↔ is_Some (select_first is_super_admin (users d)).
Proof.
  split.
  - intros (k & u & Hk & Hu).
    apply (select_first_is_Some _ _ k u); [done|].
    by apply bool_decide_eq_true_2.
  - intros [[k u] [Hk Hu]%select_first_Some]. exists k, u.
    split; [done|]. by apply bool_decide_eq_true_1 in Hu.
Qed.

Lemma startup_writes password now1 now2 d :
  rtc write d (startup password now1 now2 d).2.
Proof.
  rewrite startup_run, ensure_super_admin_run. simpl.
  assert (rtc write d (with_owner_company now1 d)) as Hc.
  { unfold with_owner_company.
    case_match; [apply rtc_refl|apply rtc_once, write_company]. }
  destruct (select_first is_super_admin (users d)) eqn:Hsa; [done|].
  destruct (negb _); [done|].
  destruct (select_first (username_is _) _); [done|]. simpl.
  eapply rtc_r; [done|]. apply write_super_admin; [done|].
  rewrite has_super_admin_select.
  assert (users (with_owner_company now1 d) = users d) as ->
    by (unfold with_owner_company; by case_match).
  rewrite Hsa. by intros [??].
Qed.

Lemma serve_all_writes rs d : rtc write d (serve_all rs d).
Proof.
  unfold serve_all. revert d.
  induction rs as [|r rs IH]; intros d; [apply rtc_refl|]. simpl.
  etrans; [apply handle_writes|apply IH].
Qed.

Lemma exec_writes e σ : rtc write σ.2 (exec e σ).2.
Proof.
  destruct e as [password now1 now2|r|method f now1 now2 before after|];
    simpl.
  - pose proof (startup_writes password now1 now2 σ.2) as H.
    by destruct (startup _ _ _ _) as [[?|?] ?].
  - destruct σ.1; [apply rtc_refl|apply handle_writes].
  - destruct σ.1; [apply rtc_refl|].
    apply signup_writes; apply serve_all_writes.
  - apply rtc_refl.
Qed.

Lemma reachable_trans σ0 σ1 σ2 :
  reachable σ0 σ1 → reachable σ1 σ2 → reachable σ0 σ2.
Proof. intros H1. induction 1; [done|]. by constructor. Qed.

Lemma reachable_run σ es : reachable σ (run es σ).
Proof.
  unfold run. induction es as [|e es IH] using rev_ind; [constructor|].
  rewrite foldl_app. simpl. by constructor.
Qed.

(** *** What the writes keep *)

Lemma write_keeps_users d d' k u :
  write d d' → rows (users d) !! k = Some u → rows (users d') !! k = Some u.
Proof.
  intros Hw Hk. destruct Hw; db_simpl; try done; by apply insert_row_old.
Qed.

Lemma write_keeps_token d d' k i :
  write d d' → rows (invoices d) !! k = Some i →
  ∃ i', rows (invoices d') !! k = Some i'
        ∧ i_public_token i' = i_public_token i.
Proof.
  intros Hw Hk. destruct Hw; db_simpl; try by eauto.
  - exists i. split; [by apply insert_row_old|done].
  - rewrite update_row_lookup. case_decide; [subst|by eauto].
    rewrite Hk. simpl. case_match; eauto.
  - rewrite update_where_lookup, Hk. simpl. case_match; eauto.
Qed.

Lemma write_keeps_tasks_ok d d' : write d d' → tasks_ok d → tasks_ok d'.
Proof.
  destruct 1; db_simpl; auto; intros Hok k' t' Hk'; db_simpl.
  - rewrite insert_row_lookup in Hk'. case_decide; [|by eauto].
    injection Hk' as <-. auto.
  - rewrite update_row_lookup in Hk'. case_decide; [subst|by eauto].
    destruct (rows (tasks d) !! k) as [t0|] eqn:E; [|done].
    simpl in Hk'. injection Hk' as <-. case_match; [done|by eauto].
Qed.

Lemma writes_keep_users d d' k u :
  rtc write d d' → rows (users d) !! k = Some u →
  rows (users d') !! k = Some u.
Proof. induction 1; eauto using write_keeps_users. Qed.

Lemma writes_keep_token d d' k i :
  rtc write d d' → rows (invoices d) !! k = Some i →
  ∃ i', rows (invoices d') !! k = Some i'
        ∧ i_public_token i' = i_public_token i.
Proof.
  induction 1 as [|d1 d2 d3 Hw _ IH] in i |- *; [by eauto|].
  intros Hk. destruct (write_keeps_token _ _ _ _ Hw Hk) as (i' & Hk' & <-).
  by apply IH.
Qed.

Lemma writes_keep_tasks_ok d d' : rtc write d d' → tasks_ok d → tasks_ok d'.
Proof. induction 1; eauto using write_keeps_tasks_ok. Qed.

Lemma reachable_tasks_ok σ0 σ :
  tasks_ok σ0.2 → reachable σ0 σ → tasks_ok σ.2.
Proof.
  intros H0. induction 1; [done|].
  eapply writes_keep_tasks_ok; [apply exec_writes|done].
Qed.

Lemma has_super_admin_kept d d' :
  rtc write d d' → has_super_admin d → has_super_admin d'.
Proof.
  intros Hw (k & u & Hk & Hu). exists k, u.
  split; [|done]. by eapply writes_keep_users.
Qed.

End Writes.

(** ** Updating one row *)

Section Rows.
Context {R : Type}.
Implicit Types (t : table R) (p : R → bool) (k : Z).

Lemma update_row_rows k p (g : R → R) t r :
  rows t !! k = Some r → p r = true →
  rows (update_row k p g t) = <[k := g r]> (rows t).
Proof.
  intros Hk Hp. apply map_eq. intros k'.
  rewrite update_row_lookup, lookup_insert.
  destruct (decide (k' = k)) as [->|]; case_decide; try congruence.
  by rewrite Hk; simpl; rewrite Hp.
Qed.

Lemma select_row_in k p t r :
  rows t !! k = Some r → p r = true → select_row k p t = Some r.
Proof. intros. by apply select_row_Some. Qed.


Lemma table_eq t t' : rows t = rows t' → seqno t = seqno t' → t = t'.
Proof. destruct t, t'. simpl. by intros -> ->. Qed.

End Rows.

(** * Tenant isolation *)


Lemma acme_logged_in : logged_in acme 2.
Proof. by repeat split. Qed.

Lemma bolt_logged_in : logged_in bolt 3.
Proof. by repeat split. Qed.




(** * Lead status updates *)

(** C2, as amended.  [update_lead_status] reads the submitted status, takes
    [New] for it when it is missing or empty, and strips whitespace from
    both ends.  If the result is not one of the five lead statuses the
    answer is 400 and the store is untouched; a request that succeeds has
    one of the five, and that one is what the lead now holds. *)
Theorem update_lead_status_allow_list `{Ext : Externals} s cid f k d :
  logged_in s cid →
  let status := strip (or_default (form_get "status" f) "New") in
  let out := respond (update_lead_status s f k) d in
  (status ∉ lead_statuses → out = (Status 400, d))
  ∧ (out.1 = Redirect "dashboard" → status ∈ lead_statuses)
  ∧ (status ∈ lead_statuses →
     ∀ l, rows (leads d) !! k = Some l → l_company_id l = Some cid →
          out.1 = Redirect "dashboard"
          ∧ rows (leads out.2) = <[k := set_lead_status status l]>
                                   (rows (leads d))).
Proof.
  intros Hs status out. subst out.
  rewrite (update_lead_status_run _ _ _ _ _ Hs). fold status. cbv zeta.
  split; [|split].
  - intros Hn. by case_bool_decide.
  - by case_bool_decide.
  - intros Hin l Hk Hc. case_bool_decide; [|done].
    assert (lead_in cid l = true) as Hp by by apply bool_decide_eq_true_2.
    rewrite (select_row_in _ _ _ l) by done. db_simpl.
    split; [done|]. by apply update_row_rows.
Qed.

Lemma update_lead_status_allow_list_witness :
  logged_in acme 2
  ∧ @respond sample_externals
      (update_lead_status acme [("status", "won")] 1) sample_db
    = (Status 400, sample_db)
  ∧ l_status <$>
      rows (leads (@respond sample_externals
                     (update_lead_status acme [("status", " Won ")] 1)
                     sample_db).2) !! 1
    = Some "Won".
Proof.
  split; [exact acme_logged_in|]. split.
  - apply (@update_lead_status_allow_list sample_externals acme 2
             [("status", "won")] 1 sample_db acme_logged_in).
    compute_done.
  - edestruct (@update_lead_status_allow_list sample_externals acme 2
                 [("status", " Won ")] 1 sample_db acme_logged_in)
      as (_ & _ & H).
    edestruct H as [_ ->];
      [compute_done|vm_compute; reflexivity|reflexivity|].
    by rewrite lookup_insert_eq.
Defined.

(** C2 as stated fails: a request with no status field, or with an empty
    one, is not rejected.  Acme's lead 1 is [Scheduled]; either request
    succeeds and leaves it [New]. *)
Lemma update_lead_status_missing_is_new :
  logged_in acme 2
  ∧ l_status <$> rows (leads sample_db) !! 1 = Some "Scheduled"
  ∧ form_get "status" [] = None
  ∧ (@handle sample_externals (UpdateLeadStatus acme [] 1) sample_db).1
    = Redirect "dashboard"
  ∧ l_status <$>
      rows (leads (@handle sample_externals (UpdateLeadStatus acme [] 1)
                     sample_db).2) !! 1
    = Some "New"
  ∧ (@handle sample_externals
       (UpdateLeadStatus acme [("status", "")] 1) sample_db).1
    = Redirect "dashboard"
  ∧ l_status <$>
      rows (leads (@handle sample_externals
                     (UpdateLeadStatus acme [("status", "")] 1)
                     sample_db).2) !! 1
    = Some "New".
Proof.
  split; [exact acme_logged_in|]. by repeat (split; [reflexivity|]).
Qed.

(** * Converting a lead *)

(** C4.  [convert_lead] on a lead of the caller's company inserts one job
    under a fresh rowid, with the lead's name as customer name and status
    [Scheduled], and sets the lead's status to [Scheduled] whatever it was.
    A second conversion of the same lead inserts a second job and leaves the
    lead [Scheduled]. *)
Theorem convert_lead_inserts_job `{Ext : Externals} s cid f f' k now now' d l :
  logged_in s cid →
  rows (leads d) !! k = Some l →
  l_company_id l = Some cid →
  let o1 := respond (convert_lead s f k now) d in
  let o2 := respond (convert_lead s f' k now') o1.2 in
  let j1 := next_rowid (jobs d) in
  let j2 := next_rowid (jobs o1.2) in
  o1.1 = Redirect "dashboard"
  ∧ rows (jobs d) !! j1 = None
  ∧ rows (jobs o1.2) = <[j1 := new_job cid k l f now]> (rows (jobs d))
  ∧ rows (leads o1.2)
    = <[k := set_lead_status "Scheduled" l]> (rows (leads d))
  ∧ o2.1 = Redirect "dashboard"
  ∧ j2 ≠ j1
  ∧ rows (jobs o1.2) !! j2 = None
  ∧ rows (jobs o2.2)
    = <[j2 := new_job cid k l f' now']>
        (<[j1 := new_job cid k l f now]> (rows (jobs d)))
  ∧ rows (leads o2.2)
    = <[k := set_lead_status "Scheduled" l]> (rows (leads d))
  ∧ j_customer_name (new_job cid k l f now) = l_name l
  ∧ j_status (new_job cid k l f now) = "Scheduled"
  ∧ j_customer_name (new_job cid k l f' now') = l_name l
  ∧ j_status (new_job cid k l f' now') = "Scheduled".
Proof.
  intros Hs Hk Hc o1 o2 j1 j2.
  assert (lead_in cid l = true) as Hp by by apply bool_decide_eq_true_2.
  assert (o1 = (Redirect "dashboard",
                with_leads
                  (update_row k (lead_in cid) (set_lead_status "Scheduled"))
                  (with_jobs (insert_row (new_job cid k l f now)) d)))
    as Ho1.
  { subst o1. rewrite (convert_lead_run _ _ _ _ _ _ Hs).
    by rewrite (select_row_in _ _ _ l). }
  assert (rows (leads o1.2)
          = <[k := set_lead_status "Scheduled" l]> (rows (leads d))) as Hl1.
  { rewrite Ho1. db_simpl. by apply update_row_rows. }
  assert (rows (jobs o1.2) = <[j1 := new_job cid k l f now]> (rows (jobs d)))
    as Hj1 by by rewrite Ho1.
  assert (j1 < j2) as Hlt.
  { apply (next_rowid_above _ _ (new_job cid k l f now)).
    rewrite Hj1. apply lookup_insert_eq. }
  assert (o2 = (Redirect "dashboard",
                with_leads
                  (update_row k (lead_in cid) (set_lead_status "Scheduled"))
                  (with_jobs
                     (insert_row
                        (new_job cid k (set_lead_status "Scheduled" l)
                           f' now')) o1.2))) as Ho2.
  { subst o2. rewrite (convert_lead_run _ _ _ _ _ _ Hs).
    rewrite (select_row_in _ _ _ (set_lead_status "Scheduled" l)); [done| |].
    - rewrite Hl1. apply lookup_insert_eq.
    - by apply bool_decide_eq_true_2. }
  split; [by rewrite Ho1|]. split; [apply next_rowid_fresh|].
  split; [done|]. split; [done|]. split; [by rewrite Ho2|].
  split; [lia|]. split; [apply next_rowid_fresh|].
  split; [rewrite Ho2; db_simpl; unfold insert_row at 1; simpl;
          by rewrite Hj1|].
  split; [|done].
  rewrite Ho2. db_simpl.
  rewrite (update_row_rows _ _ _ _ (set_lead_status "Scheduled" l)).
  - rewrite Hl1. by rewrite insert_insert_eq.
  - rewrite Hl1. apply lookup_insert_eq.
  - by apply bool_decide_eq_true_2.
Qed.

Lemma convert_lead_inserts_job_witness :
  logged_in bolt 3
  ∧ rows (leads sample_db) !! 2 = Some omar
  ∧ rows (jobs (@respond sample_externals
                  (convert_lead bolt [] 2 "t12")
                  (@respond sample_externals
                     (convert_lead bolt [] 2 "t11") sample_db).2).2)
    = <[4 := @new_job sample_externals 3 2 omar [] "t12"]>
        (<[3 := @new_job sample_externals 3 2 omar [] "t11"]>
           (rows (jobs sample_db))).
Proof.
  split; [exact bolt_logged_in|].
  assert (rows (leads sample_db) !! 2 = Some omar) as Hk
    by (vm_compute; reflexivity).
  split; [exact Hk|].
  exact (proj1 (proj2 (proj2 (proj2 (proj2 (proj2 (proj2 (proj2
    (@convert_lead_inserts_job sample_externals bolt 3 [] [] 2
       "t11" "t12" sample_db omar bolt_logged_in Hk eq_refl))))))))).
Defined.

(** * Marking an invoice paid *)

(** C5.  [mark_paid] on an invoice of the caller's company sets its status
    to [Paid] and its [paid_at] to the time of the call, and changes nothing
    else in the row.  A second call on the now-paid invoice succeeds as well
    and replaces [paid_at] by the time of the second call. *)
Theorem mark_paid_restamps `{Ext : Externals} s cid k now now' d i :
  logged_in s cid →
  rows (invoices d) !! k = Some i →
  i_company_id i = Some cid →
  let o1 := respond (mark_paid s k now) d in
  let o2 := respond (mark_paid s k now') o1.2 in
  o1.1 = Redirect "dashboard"
  ∧ rows (invoices o1.2) = <[k := set_paid now i]> (rows (invoices d))
  ∧ o2.1 = Redirect "dashboard"
  ∧ rows (invoices o2.2) = <[k := set_paid now' i]> (rows (invoices d))
  ∧ i_status (set_paid now i) = "Paid"
  ∧ i_paid_at (set_paid now i) = Some now
  ∧ i_status (set_paid now' i) = "Paid"
  ∧ i_paid_at (set_paid now' i) = Some now'.
Proof.
  intros Hs Hk Hc o1 o2.
  assert (invoice_in cid i = true) as Hp by by apply bool_decide_eq_true_2.
  assert (o1 = (Redirect "dashboard",
                with_invoices
                  (update_row k (invoice_in cid) (set_paid now)) d)) as Ho1.
  { subst o1. rewrite (mark_paid_run _ _ _ _ _ Hs).
    by rewrite (select_row_in _ _ _ i). }
  assert (rows (invoices o1.2) = <[k := set_paid now i]> (rows (invoices d)))
    as Hi1.
  { rewrite Ho1. db_simpl. by apply update_row_rows. }
  assert (rows (invoices o1.2) !! k = Some (set_paid now i)) as Hk1
    by (rewrite Hi1; apply lookup_insert_eq).
  assert (o2 = (Redirect "dashboard",
                with_invoices
                  (update_row k (invoice_in cid) (set_paid now')) o1.2))
    as Ho2.
  { subst o2. rewrite (mark_paid_run _ _ _ _ _ Hs).
    by rewrite (select_row_in _ _ _ (set_paid now i)). }
  split; [by rewrite Ho1|]. split; [done|]. split; [by rewrite Ho2|].
  split; [|done].
  rewrite Ho2. db_simpl.
  rewrite (update_row_rows _ _ _ _ (set_paid now i)) by done.
  by rewrite Hi1, insert_insert_eq.
Qed.

Lemma mark_paid_restamps_witness :
  logged_in acme 2
  ∧ (∃ i, rows (invoices sample_db) !! 1 = Some i
          ∧ i_company_id i = Some 2 ∧ i_paid_at i = None)
  ∧ i_paid_at <$>
      rows (invoices (@respond sample_externals (mark_paid acme 1 "t12")
                        (@respond sample_externals (mark_paid acme 1 "t11")
                           sample_db).2).2) !! 1
    = Some (Some "t12").
Proof.
  assert (∃ i, rows (invoices sample_db) !! 1 = Some i
               ∧ i_company_id i = Some 2 ∧ i_paid_at i = None) as Hi.
  { eexists. split; [vm_compute; reflexivity|by split]. }
  split; [exact acme_logged_in|]. split; [exact Hi|].
  destruct Hi as (i & Hk & Hc & _).
  destruct (@mark_paid_restamps sample_externals acme 2 1 "t11" "t12"
              sample_db i acme_logged_in Hk Hc) as (_ & _ & _ & -> & _).
  by rewrite lookup_insert_eq.
Defined.

(** * Toggling a task *)

Lemma toggled_twice st :
  st = "todo" ∨ st = "done" → toggled (toggled st) = st.
Proof. by intros [-> | ->]. Qed.

(** C9.  One [toggle_task] on a task of the caller's company writes [todo]
    over [done] and [done] over every other status.  In every store the
    application can produce from a fresh deployment, two toggles in a row
    put the task, and with it the whole store, back as it was. *)
Theorem toggle_task_twice `{Ext : Externals} s cid k :
  logged_in s cid →
  (∀ d t,
     rows (tasks d) !! k = Some t → t_company_id t = cid →
     let o1 := respond (toggle_task s k) d in
     o1.1 = Redirect "dashboard"
     ∧ rows (tasks o1.2)
       = <[k := set_task_status
                  (if bool_decide (t_status t = "done")
                   then "todo" else "done") t]> (rows (tasks d)))
  ∧ (∀ p d t,
       reachable fresh (p, d) →
       rows (tasks d) !! k = Some t → t_company_id t = cid →
       let o1 := respond (toggle_task s k) d in
       let o2 := respond (toggle_task s k) o1.2 in
       o2.1 = Redirect "dashboard"
       ∧ rows (tasks o2.2) !! k = Some t
       ∧ o2.2 = d).
Proof.
  intros Hs.
  assert (∀ d t,
    rows (tasks d) !! k = Some t → t_company_id t = cid →
    respond (toggle_task s k) d
    = (Redirect "dashboard",
       with_tasks
         (update_row k (task_in cid) (set_task_status (toggled (t_status t))))
         d)
    ∧ rows (tasks (respond (toggle_task s k) d).2)
      = <[k := set_task_status (toggled (t_status t)) t]> (rows (tasks d)))
    as Hone.
  { intros d t Hk Hc.
    assert (task_in cid t = true) as Hp by by apply bool_decide_eq_true_2.
    rewrite (toggle_task_run _ _ _ _ Hs), (select_row_in _ _ _ t) by done.
    split; [done|]. db_simpl. by apply update_row_rows. }
  split.
  - intros d t Hk Hc o1. subst o1.
    destruct (Hone d t Hk Hc) as [-> ->]. split; [done|].
    unfold toggled. by destruct (bool_decide (t_status t = "done")).
  - intros p d t Hr Hk Hc o1 o2.
    assert (t_status t = "todo" ∨ t_status t = "done") as Hst.
    { eapply (reachable_tasks_ok fresh (p, d)); [|done..]. by intros ??. }
    destruct (Hone d t Hk Hc) as [Ho1 Hr1]. fold o1 in Ho1, Hr1.
    set (t1 := set_task_status (toggled (t_status t)) t) in *.
    assert (rows (tasks o1.2) !! k = Some t1) as Hk1
      by (rewrite Hr1; apply lookup_insert_eq).
    destruct (Hone o1.2 t1 Hk1 Hc) as [Ho2 Hr2]. fold o2 in Ho2, Hr2.
    assert (set_task_status (toggled (t_status t1)) t1 = t) as Hback.
    { subst t1. simpl. rewrite toggled_twice by done. by destruct t. }
    assert (rows (tasks o2.2) = rows (tasks d)) as Hrows.
    { rewrite Hr2, Hback, Hr1, insert_insert_eq. by apply insert_id. }
    split; [by rewrite Ho2|]. split; [by rewrite Hrows|].
    assert (tasks o2.2 = tasks d) as Ht.
    { apply table_eq; [done|]. by rewrite Ho2, Ho1. }
    rewrite Ho2, Ho1 in Ht |- *. db_simpl.
    clear -Ht. destruct d. simpl in *.
    unfold with_tasks. simpl. by rewrite Ht.
Qed.

Lemma sample_started_ok :
  @startup sample_externals (Some "s3cret") "t0" "t0" empty_db
  = (inr (), sample_started).
Proof.
  rewrite (surjective_pairing (startup _ _ _ _)). by f_equal.
Defined.

Lemma sample_db_after_start :
  reachable (Running, sample_started) (Running, sample_db).
Proof.
  assert ((Running, sample_db) = run sample_events (Running, sample_started))
    as ->.
  { rewrite (surjective_pairing (run sample_events _)). by f_equal. }
  apply reachable_run.
Defined.

Lemma sample_db_reachable :
  reachable (@fresh sample_externals) (Running, sample_db).
Proof.
  eapply reachable_trans; [|exact sample_db_after_start].
  assert ((Running, sample_started)
          = exec (Start (Some "s3cret") "t0" "t0") fresh) as ->.
  { unfold exec. simpl. by rewrite sample_started_ok. }
  apply reachable_step, reachable_refl.
Defined.

Lemma toggle_task_twice_witness :
  logged_in acme 2
  ∧ t_status <$> rows (tasks sample_db) !! 1 = Some "todo"
  ∧ t_status <$>
      rows (tasks (@respond sample_externals (toggle_task acme 1)
                     sample_db).2) !! 1
    = Some "done"
  ∧ (@respond sample_externals (toggle_task acme 1)
       (@respond sample_externals (toggle_task acme 1) sample_db).2).2
    = sample_db.
Proof.
  split; [exact acme_logged_in|]. split; [vm_compute; reflexivity|].
  destruct (@toggle_task_twice sample_externals acme 2 1 acme_logged_in)
    as [H1 H2].
  split.
  - edestruct (H1 sample_db) as [_ ->]; [vm_compute; reflexivity|done|].
    by rewrite lookup_insert_eq.
  - edestruct (H2 Running sample_db) as (_ & _ & H);
      [exact sample_db_reachable|vm_compute; reflexivity|done|].
    exact H.
Defined.

(** * The startup bootstrap *)

Section Bootstrap.
Context {Ext : Externals}.
Implicit Types (d : DB) (σ : process * DB).

Lemma users_with_owner_company now1 d :
  users (with_owner_company now1 d) = users d.
Proof. unfold with_owner_company. by case_match. Qed.

Lemma no_super_admin_select d :
  ¬ has_super_admin d ↔ select_first is_super_admin (users d) = None.
Proof.
  rewrite has_super_admin_select.
  destruct (select_first _ _); split; try done.
  intros H. destruct H. by eexists.
Qed.

Lemma select_first_empty {R} (p : R → bool) (t : table R) :
  rows t = ∅ → select_first p t = None.
Proof. intros E. apply select_first_None. intros k r. by rewrite E. Qed.

Lemma owner_company_found now1 d :
  ∃ c, rows (companies (with_owner_company now1 d))
         !! owner_company_id now1 d = Some c
       ∧ c_name c = owner_company.
Proof.
  unfold owner_company_id, with_owner_company.
  destruct (select_first is_owner_company (companies d)) as [[k c]|] eqn:E.
  - apply select_first_Some in E as [Hk Hc]. exists c.
    split; [done|]. by apply bool_decide_eq_true_1 in Hc.
  - db_simpl. eexists.
    split; [rewrite insert_row_seqno; apply insert_row_new|done].
Qed.

Lemma one_owner_company_kept now1 d :
  one_owner_company d → one_owner_company (with_owner_company now1 d).
Proof.
  unfold with_owner_company.
  destruct (select_first is_owner_company (companies d)) eqn:E; [done|].
  rewrite select_first_None in E.
  intros _ k k' c c'. db_simpl. rewrite !insert_row_lookup.
  destruct (decide (k = next_rowid (companies d))) as [->|];
    destruct (decide (k' = next_rowid (companies d))) as [->|];
    intros Hk Hk' Hc Hc'; [done|..].
  - apply E in Hk'. by apply bool_decide_eq_false_1 in Hk'.
  - apply E in Hk. by apply bool_decide_eq_false_1 in Hk.
  - apply E in Hk. by apply bool_decide_eq_false_1 in Hk.
Qed.

Lemma startup_ok_has_super_admin password now1 now2 d d1 :
  startup password now1 now2 d = (inr (), d1) → has_super_admin d1.
Proof.
  rewrite startup_run, ensure_super_admin_run. cbv zeta.
  destruct (select_first is_super_admin (users d)) as [[k u]|] eqn:E.
  - intros [= <-]. apply has_super_admin_select.
    rewrite users_with_owner_company, E. by eexists.
  - destruct (negb _); [done|].
    destruct (select_first (username_is _) _); [done|].
    intros [= <-]. eexists _, _. db_simpl.
    split; [apply insert_row_new|done].
Qed.

Lemma reachable_has_super_admin σ0 σ :
  has_super_admin σ0.2 → reachable σ0 σ → has_super_admin σ.2.
Proof.
  intros H0. induction 1; [done|].
  eapply has_super_admin_kept; [apply exec_writes|done].
Qed.

Lemma reachable_bootstrap_inv σ : reachable fresh σ → bootstrap_inv σ.
Proof.
  induction 1 as [|σ e _ [IH1 IH2]].
  { split; [done|]. intros _. split; [done|]. intros k k' c c' Hk.
    change (rows (companies fresh.2)) with (∅ : gmap Z company) in Hk.
    by rewrite lookup_empty in Hk. }
  destruct e as [password now1 now2|r|method f now1 now2 before after|];
    simpl.
  - rewrite startup_run, ensure_super_admin_run. cbv zeta.
    destruct (select_first is_super_admin (users σ.2)) as [ku|] eqn:E.
    { assert (has_super_admin (with_owner_company now1 σ.2)) as Hsa.
      { apply has_super_admin_select.
        rewrite users_with_owner_company, E. by eexists. }
      by split. }
    apply no_super_admin_select in E. destruct (IH2 E) as [Hu Ho].
    destruct (negb _).
    { split; [done|]. simpl. intros _.
      split; [by rewrite users_with_owner_company|].
      by apply one_owner_company_kept. }
    rewrite (select_first_empty _ _ Hu). simpl.
    assert (has_super_admin
              (with_users
                 (insert_row (super_admin_row password now1 now2 σ.2))
                 (with_owner_company now1 σ.2))) as Hsa.
    { eexists _, _. db_simpl. split; [apply insert_row_new|done]. }
    by split.
  - destruct σ as [[] d]; simpl in *; [by split|].
    assert (has_super_admin (handle r d).2) as Hsa.
    { eapply has_super_admin_kept; [apply handle_writes|by apply IH1]. }
    by split.
  - destruct σ as [[] d]; simpl in *; [by split|].
    assert (has_super_admin
              (respond
                 (signup method f now1 now2 (serve_all before)
                    (serve_all after)) d).2) as Hsa.
    { eapply has_super_admin_kept; [|by apply IH1].
      apply signup_writes; apply serve_all_writes. }
    by split.
  - by split.
Qed.

End Bootstrap.

(** C8.  [ensure_super_admin] run on a store that has a super-admin returns
    and leaves the users table as it is.  On a store without one it raises
    when the configured password is missing or empty.  Otherwise, on a
    deployment that started fresh, it returns with exactly one super-admin
    and exactly one owner company in the store, the super-admin belonging to
    that company.  Once it has returned, running it again changes nothing. *)
Theorem ensure_super_admin_bootstrap `{Ext : Externals}
    password now1 now2 d :
  let out := ensure_super_admin password now1 now2 d in
  (has_super_admin d → out.1 = inr () ∧ users out.2 = users d)
  ∧ (¬ has_super_admin d → nonempty (default "" password) = false →
     out.1 = inl (RuntimeError "SUPER_ADMIN_PASSWORD is not set"))
  ∧ (¬ has_super_admin d → nonempty (default "" password) = true →
     ∀ p, reachable fresh (p, d) →
     out.1 = inr ()
     ∧ ∃ ku kc su oc,
         rows (users out.2) !! ku = Some su
         ∧ u_role su = "super_admin"
         ∧ u_company_id su = Some kc
         ∧ (∀ k u, rows (users out.2) !! k = Some u →
                   u_role u = "super_admin" → k = ku)
         ∧ rows (companies out.2) !! kc = Some oc
         ∧ c_name oc = owner_company
         ∧ (∀ k c, rows (companies out.2) !! k = Some c →
                   c_name c = owner_company → k = kc))
  ∧ (out.1 = inr () →
     ∀ password' now1' now2',
       ensure_super_admin password' now1' now2' out.2 = (inr (), out.2)).
Proof.
  intros out. subst out. rewrite ensure_super_admin_run. cbv zeta.
  split; [|split; [|split]].
  - intros [x Hx]%has_super_admin_select. rewrite Hx.
    split; [done|]. apply users_with_owner_company.
  - intros Hno%no_super_admin_select Hpw. by rewrite Hno, Hpw.
  - intros Hno Hpw p Hr.
    destruct (reachable_bootstrap_inv _ Hr) as [_ Hinv].
    destruct (Hinv Hno) as [Hu Ho]. simpl in Hu, Ho.
    apply no_super_admin_select in Hno.
    rewrite Hno, Hpw, (select_first_empty _ _ Hu). cbn [negb fst snd].
    split; [done|].
    destruct (owner_company_found now1 d) as (oc & Hoc & Hname).
    exists (next_rowid (users (with_owner_company now1 d))),
      (owner_company_id now1 d),
      (super_admin_row password now1 now2 d), oc.
    db_simpl. split; [apply insert_row_new|].
    split; [done|]. split; [done|]. split; [|split; [done|split; [done|]]].
    + intros k u. rewrite insert_row_lookup. case_decide; [done|].
      by rewrite users_with_owner_company, Hu, lookup_empty.
    + intros k c Hk Hc.
      by apply (one_owner_company_kept now1 d Ho k _ c oc).
  - assert (∀ d1 password' now1' now2',
      has_super_admin d1 →
      is_Some (select_first is_owner_company (companies d1)) →
      ensure_super_admin password' now1' now2' d1 = (inr (), d1)) as Hagain.
    { intros d1 ??? [x Hx]%has_super_admin_select [y Hy].
      rewrite ensure_super_admin_run. cbv zeta. rewrite Hx.
      unfold with_owner_company. by rewrite Hy. }
    assert (is_Some (select_first is_owner_company
                       (companies (with_owner_company now1 d)))) as Hco.
    { destruct (owner_company_found now1 d) as (oc & Hoc & Hname).
      eapply select_first_is_Some; [done|].
      by apply bool_decide_eq_true_2. }
    destruct (select_first is_super_admin (users d)) as [x|] eqn:Hx.
    { intros _ ???. cbn [snd]. apply Hagain; [|done].
      apply has_super_admin_select.
      rewrite users_with_owner_company, Hx. by eexists. }
    destruct (negb _); [done|].
    destruct (select_first (username_is _) _); [done|].
    intros _ ???. cbn [snd]. apply Hagain; [|done].
    eexists _, _. db_simpl. split; [apply insert_row_new|done].
Qed.

Lemma ensure_super_admin_bootstrap_witness :
  ¬ @has_super_admin sample_externals empty_db
  ∧ (@ensure_super_admin sample_externals None "t0" "t0" empty_db).1
    = inl (RuntimeError "SUPER_ADMIN_PASSWORD is not set")
  ∧ (@ensure_super_admin sample_externals (Some "s3cret") "t0" "t0"
       empty_db).1
    = inr ().
Proof.
  assert (¬ @has_super_admin sample_externals empty_db) as Hno.
  { intros (k & u & Hk & _).
    change (rows (users empty_db)) with (∅ : gmap Z user) in Hk.
    by rewrite lookup_empty in Hk. }
  split; [exact Hno|].
  destruct (@ensure_super_admin_bootstrap sample_externals None "t0" "t0"
              empty_db) as (_ & H1 & _).
  destruct (@ensure_super_admin_bootstrap sample_externals (Some "s3cret")
              "t0" "t0" empty_db) as (_ & _ & H2 & _).
  split; [exact (H1 Hno eq_refl)|].
  exact (proj1 (H2 Hno eq_refl Stopped (reachable_refl _))).
Defined.

(** * The setup route after startup *)

Lemma has_super_admin_users `{Ext : Externals} (d : DB) :
  has_super_admin d → bool_decide (0 < count_rows (users d))%nat = true.
Proof.
  intros (k & u & Hk & _). apply bool_decide_eq_true_2.
  unfold count_rows. destruct (size (rows (users d))) eqn:E; [|lia].
  apply map_size_empty_inv in E. by rewrite E, lookup_empty in Hk.
Qed.

(** C10.  Once [startup] has returned, the store holds a user, and so it
    does after any further requests, races, stops and restarts.  In every
    such store [any_users_exist] is true and [/setup], by GET or by POST and
    whatever the form, redirects to [/login] and writes nothing. *)
Theorem setup_closed_after_startup `{Ext : Externals}
    password now1 now2 d0 d1 p d method f t1 t2 :
  startup password now1 now2 d0 = (inr (), d1) →
  reachable (Running, d1) (p, d) →
  (0 < count_rows (users d))%nat
  ∧ any_users_exist d = (inr true, d)
  ∧ respond (setup method f t1 t2) d = (Redirect "login", d).
Proof.
  intros Hstart Hr.
  assert (has_super_admin d) as Hsa.
  { apply (reachable_has_super_admin (Running, d1) (p, d)); [|done].
    by eapply startup_ok_has_super_admin. }
  apply has_super_admin_users in Hsa.
  split; [by apply bool_decide_eq_true_1 in Hsa|].
  rewrite any_users_exist_run, setup_run, Hsa. done.
Qed.

Lemma setup_closed_after_startup_witness :
  @startup sample_externals (Some "s3cret") "t0" "t0" empty_db
  = (inr (), sample_started)
  ∧ reachable (Running, sample_started) (Running, sample_db)
  ∧ @respond sample_externals (setup POST cool_form "t11" "t11") sample_db
    = (Redirect "login", sample_db)
  ∧ @respond sample_externals (setup GET [] "t11" "t11") sample_db
    = (Redirect "login", sample_db).
Proof.
  split; [exact sample_started_ok|]. split; [exact sample_db_after_start|].
  split.
  - exact (proj2 (proj2
      (@setup_closed_after_startup sample_externals (Some "s3cret") "t0"
         "t0" empty_db sample_started Running sample_db POST cool_form
         "t11" "t11" sample_started_ok sample_db_after_start))).
  - exact (proj2 (proj2
      (@setup_closed_after_startup sample_externals (Some "s3cret") "t0"
         "t0" empty_db sample_started Running sample_db GET [] "t11" "t11"
         sample_started_ok sample_db_after_start))).
Defined.

(** * Public tokens *)

Section Tokens.

Lemma below_64 (P : N → Prop) :
  (∀ m : nat, (m < 64)%nat → P (N.of_nat m)) → ∀ n, (n < 64)%N → P n.
Proof. intros H n Hn. rewrite <- (N2Nat.id n). apply H. lia. Qed.

Lemma sextet_spec n :
  (n < 64)%N → unsextet (sextet n) = Some n ∧ is_urlsafe (sextet n) = true.
Proof.
  revert n. apply below_64. intros m Hm.
  do 64 (destruct m as [|m]; [by vm_compute|]). lia.
Qed.

Lemma sextet_inj n m :
  (n < 64)%N → (m < 64)%N → sextet n = sextet m → n = m.
Proof.
  intros [Hn _]%sextet_spec [Hm _]%sextet_spec E.
  rewrite E in Hn. congruence.
Qed.

Lemma recompose n :
  (n = n / 262144 * 262144 + (n / 4096) mod 64 * 4096
       + (n / 64) mod 64 * 64 + n mod 64)%N.
Proof.
  pose proof (N.div_mod n 64) as H1.
  pose proof (N.div_mod (n / 64) 64) as H2.
  pose proof (N.div_mod (n / 64 / 64) 64) as H3.
  rewrite !N.Div0.div_div in *.
  change (64 * 64)%N with 4096%N in *.
  change (4096 * 64)%N with 262144%N in *.
  lia.
Qed.

Lemma byte_bound b : (Byte.to_N b < 256)%N.
Proof. pose proof (Byte.to_N_bounded b). lia. Qed.

Lemma byte_inj a b : Byte.to_N a = Byte.to_N b → a = b.
Proof.
  intros E. apply (f_equal Byte.of_N) in E.
  rewrite !Byte.of_to_N in E. congruence.
Qed.

Lemma group_bound a b c : (group a b c / 262144 < 64)%N.
Proof.
  pose proof (byte_bound a). pose proof (byte_bound b).
  pose proof (byte_bound c). unfold group.
  apply N.Div0.div_lt_upper_bound. lia.
Qed.

Lemma group_inj a b c a' b' c' :
  group a b c = group a' b' c' → a = a' ∧ b = b' ∧ c = c'.
Proof.
  pose proof (byte_bound a). pose proof (byte_bound b).
  pose proof (byte_bound c). pose proof (byte_bound a').
  pose proof (byte_bound b'). pose proof (byte_bound c').
  unfold group. intros E.
  repeat split; apply byte_inj; lia.
Qed.

Lemma mod_64_bound n : (n mod 64 < 64)%N.
Proof. by apply N.mod_lt. Qed.

Lemma encode_cons a b c rest :
  urlsafe_b64encode_nopad (a :: b :: c :: rest)
  = String (sextet (group a b c / 262144))
      (String (sextet ((group a b c / 4096) mod 64))
         (String (sextet ((group a b c / 64) mod 64))
            (String (sextet (group a b c mod 64))
               (urlsafe_b64encode_nopad rest)))).
Proof. done. Qed.

Lemma encode_inj n (l l' : list Byte.byte) :
  List.length l = (3 * n)%nat → List.length l' = (3 * n)%nat →
  urlsafe_b64encode_nopad l = urlsafe_b64encode_nopad l' → l = l'.
Proof.
  revert l l'. induction n as [|n IH]; intros l l' Hl Hl'.
  { destruct l, l'; try done. }
  destruct l as [|a [|b [|c l]]]; try (simpl in Hl; lia).
  destruct l' as [|a' [|b' [|c' l']]]; try (simpl in Hl'; lia).
  rewrite !encode_cons. intros [= E1 E2 E3 E4 E].
  apply sextet_inj in E1, E2, E3, E4;
    try apply group_bound; try apply mod_64_bound.
  assert (group a b c = group a' b' c') as Hg.
  { rewrite (recompose (group a b c)), (recompose (group a' b' c')).
    congruence. }
  apply group_inj in Hg as (-> & -> & ->).
  f_equal. f_equal. f_equal. apply IH; [simpl in *; lia..|done].
Qed.

Lemma encode_urlsafe n (l : list Byte.byte) :
  List.length l = (3 * n)%nat →
  String.length (urlsafe_b64encode_nopad l) = (4 * n)%nat
  ∧ Forall (λ c, is_urlsafe c = true)
      (list_ascii_of_string (urlsafe_b64encode_nopad l)).
Proof.
  revert l. induction n as [|n IH]; intros l Hl.
  { destruct l; [by split|done]. }
  destruct l as [|a [|b [|c l]]]; try (simpl in Hl; lia).
  rewrite encode_cons. destruct (IH l) as [IH1 IH2]; [simpl in *; lia|].
  split; [simpl; rewrite IH1; lia|].
  simpl. repeat constructor; try done;
    apply sextet_spec; try apply group_bound; apply mod_64_bound.
Qed.

Lemma token_bytes_length n src : List.length (token_bytes n src) = n.
Proof. unfold token_bytes. by rewrite length_fmap, length_seq. Qed.

Lemma token_bytes_eq n src src' :
  token_bytes n src = token_bytes n src'
  ↔ ∀ k, (k < n)%nat → src k = src' k.
Proof.
  unfold token_bytes. split.
  - intros E k Hk. apply (f_equal (λ l, l !! k)) in E.
    rewrite !list_lookup_fmap, !lookup_seq_lt in E by done.
    simpl in E. by injection E.
  - intros H. apply list_fmap_ext. intros i k Hk.
    apply lookup_seq in Hk as [-> ?]. by apply H.
Qed.

Lemma token_urlsafe_inj src src' :
  token_urlsafe 24 src = token_urlsafe 24 src'
  ↔ ∀ k, (k < 24)%nat → src k = src' k.
Proof.
  rewrite <- token_bytes_eq. unfold token_urlsafe. split; [|by intros ->].
  apply (encode_inj 8); apply token_bytes_length.
Qed.

End Tokens.

(** * The public invoice page *)

Lemma omap_unique {A B} (g : A → option B) (l : list A) a b :
  NoDup l → a ∈ l → g a = Some b →
  (∀ a', a' ∈ l → is_Some (g a') → a' = a) →
  omap g l = [b].
Proof.
  induction l as [|x l IH]; intros Hnd Hin Ha Huniq; [by inversion Hin|].
  apply NoDup_cons in Hnd as [Hx Hnd]. simpl.
  assert (∀ y, y ∈ x :: l → y ≠ a → g y = None) as Hnone.
  { intros y Hy Hne. destruct (g y) eqn:E; [|done].
    destruct Hne. apply Huniq; [done|by rewrite E]. }
  apply elem_of_cons in Hin as [<-|Hin].
  - rewrite Ha. f_equal.
    assert (∀ y, y ∈ l → g y = None) as Hl.
    { intros y Hy. apply Hnone; [by right|by intros ->]. }
    clear -Hl. induction l as [|y l IH]; [done|]. simpl.
    rewrite Hl by left. apply IH. intros z Hz. apply Hl. by right.
  - rewrite Hnone; [|by left|by intros ->].
    apply IH; [done..|]. intros a' Ha'. apply Huniq. by right.
Qed.

Section PublicInvoice.
Context {Ext : Externals}.
Implicit Types (d : DB) (i : invoice Amount) (token : string).

Lemma select_public_invoice_None token d :
  (∀ k i, rows (invoices d) !! k = Some i →
          i_public_token i ≠ Some token) →
  select_public_invoice token d = None.
Proof.
  intros H. unfold select_public_invoice.
  destruct (omap _ _) as [|x l] eqn:E; [done|].
  assert (x ∈ omap
            (λ ki : Z * invoice Amount,
               if bool_decide (i_public_token ki.2 = Some token)
               then join_invoice d ki.2 else None)
            (scan (invoices d))) as Hin by (rewrite E; left).
  apply list_elem_of_omap in Hin as ([k i] & Hki%elem_of_scan & Hg).
  simpl in Hg. case_bool_decide; [|done]. by apply H in Hki.
Qed.

Lemma join_invoice_fst d i x : join_invoice d i = Some x → x.1.1 = i.
Proof.
  unfold join_invoice. intros H.
  destruct (i_company_id i) as [cid|]; [|done]. simpl in H.
  destruct (rows (companies d) !! cid); [|done]. simpl in H.
  destruct (rows (jobs d) !! i_job_id i); [|done]. simpl in H.
  by injection H as <-.
Qed.

Lemma select_public_invoice_Some token d i cn jn :
  select_public_invoice token d = Some (i, cn, jn) →
  i_public_token i = Some token
  ∧ ∃ k, rows (invoices d) !! k = Some i.
Proof.
  unfold select_public_invoice. intros E%head_Some_elem_of.
  apply list_elem_of_omap in E as ([k i'] & Hki%elem_of_scan & Hg).
  simpl in Hg. case_bool_decide as Htok; [|done].
  apply join_invoice_fst in Hg. simpl in Hg. subst i'.
  split; [done|]. by exists k.
Qed.

Lemma select_public_invoice_unique token d k i x :
  rows (invoices d) !! k = Some i →
  i_public_token i = Some token →
  join_invoice d i = Some x →
  (∀ k' i', rows (invoices d) !! k' = Some i' →
            i_public_token i' = Some token → k' = k) →
  select_public_invoice token d = Some x.
Proof.
  intros Hk Htok Hjoin Huniq. unfold select_public_invoice.
  rewrite (omap_unique _ _ (k, i) x); [done| | | |].
  - eapply NoDup_fmap_1, NoDup_scan.
  - by apply elem_of_scan.
  - simpl. by rewrite bool_decide_eq_true_2.
  - intros [k' i'] Hin%elem_of_scan [y Hy]. simpl in Hy.
    case_bool_decide as Ht; [|done].
    assert (k' = k) as -> by by eapply Huniq. congruence.
Qed.

End PublicInvoice.

(** C6, as amended.  A [create_invoice] call that succeeds stores one new
    invoice carrying the token drawn for it.  If no stored invoice already
    carries that token, which the code leaves to chance, then afterwards no
    other invoice carries it, and the public page for it shows exactly the
    new invoice with the name of the caller's company and the customer name
    of the invoiced job.  In any store, a token that no invoice carries
    gives 404, and an invoice that the page shows for a token carries that
    token. *)
Theorem create_invoice_public_lookup `{Ext : Externals}
    s cid f k now src d c j amount :
  logged_in s cid →
  rows (companies d) !! cid = Some c →
  rows (jobs d) !! k = Some j →
  j_company_id j = Some cid →
  py_float (strip (or_default (form_get "amount" f) "")) = Some amount →
  isnan amount = false →
  (∀ k' i', rows (invoices d) !! k' = Some i' →
            i_public_token i' ≠ Some (token_urlsafe 24 src)) →
  let out := respond (create_invoice s f k now src) d in
  let inv := new_invoice cid f k now src amount in
  let id := next_rowid (invoices d) in
  out.1 = Redirect "dashboard"
  ∧ rows (invoices d) !! id = None
  ∧ rows (invoices out.2) = <[id := inv]> (rows (invoices d))
  ∧ i_public_token inv = Some (token_urlsafe 24 src)
  ∧ (∀ k' i', rows (invoices out.2) !! k' = Some i' →
              i_public_token i' = Some (token_urlsafe 24 src) → k' = id)
  ∧ respond (public_invoice (token_urlsafe 24 src)) out.2
    = (RenderInvoice inv (c_name c) (j_customer_name j), out.2)
  ∧ (∀ d' token,
       (∀ k' i', rows (invoices d') !! k' = Some i' →
                 i_public_token i' ≠ Some token) →
       respond (public_invoice token) d' = (Status 404, d'))
  ∧ (∀ d' token i' cn jn,
       (respond (public_invoice token) d').1 = RenderInvoice i' cn jn →
       i_public_token i' = Some token
       ∧ ∃ k', rows (invoices d') !! k' = Some i').
Proof.
  intros Hs Hc Hj Hjc Hamt Hnan Hfresh out inv id.
  assert (job_in cid j = true) as Hp by by apply bool_decide_eq_true_2.
  assert (out = (Redirect "dashboard", with_invoices (insert_row inv) d))
    as Ho.
  { subst out. rewrite (create_invoice_run _ _ _ _ _ _ _ Hs), Hamt.
    by rewrite (select_row_in _ _ _ j), Hnan. }
  assert (∀ k' i', rows (invoices out.2) !! k' = Some i' →
            i_public_token i' = Some (token_urlsafe 24 src) → k' = id)
    as Huniq.
  { rewrite Ho. db_simpl. intros k' i'. rewrite insert_row_lookup.
    case_decide; [done|]. intros Hk' Ht. by apply Hfresh in Hk'. }
  split; [by rewrite Ho|]. split; [apply next_rowid_fresh|].
  split; [by rewrite Ho|]. split; [done|]. split; [done|].
  split; [|split].
  - rewrite public_invoice_run.
    rewrite (select_public_invoice_unique _ _ id inv
               (inv, c_name c, j_customer_name j)); [done| |done| |done].
    + rewrite Ho. db_simpl. apply insert_row_new.
    + rewrite Ho. unfold join_invoice. db_simpl. simpl.
      by rewrite Hc, Hj.
  - intros d' token Hnone. rewrite public_invoice_run.
    by rewrite select_public_invoice_None.
  - intros d' token i' cn jn. rewrite public_invoice_run.
    destruct (select_public_invoice token d') as [[[i0 cn0] jn0]|] eqn:E;
      [|done].
    simpl. intros Hr. apply select_public_invoice_Some in E.
    assert (i_public_token i' = i_public_token i0
            ∧ ((∃ k', rows (invoices d') !! k' = Some i0) →
               ∃ k', rows (invoices d') !! k' = Some i')) as [Ht Hex].
    { by inversion Hr. }
    rewrite Ht. destruct E as [? ?]. auto.
Qed.

Lemma no_row_by_select {R} (p : R → bool) (t : table R) :
  select_first p t = None →
  ∀ k r, rows t !! k = Some r → p r = false.
Proof. intros H. by apply select_first_None. Qed.

Lemma create_invoice_public_lookup_witness :
  logged_in acme 2
  ∧ rows (companies sample_db) !! 2 = Some acme_company
  ∧ rows (jobs sample_db) !! 1 = Some jane_job
  ∧ j_company_id jane_job = Some 2
  ∧ @py_float sample_externals
      (strip (or_default (form_get "amount" good_form) "")) = Some 75
  ∧ (∀ k' i', rows (invoices sample_db) !! k' = Some i' →
              i_public_token i' ≠ Some (token_urlsafe 24 sample_src''))
  ∧ @respond sample_externals
      (public_invoice (token_urlsafe 24 sample_src''))
      (@respond sample_externals
         (create_invoice acme good_form 1 "t11" sample_src'') sample_db).2
    = (RenderInvoice
         (@new_invoice sample_externals 2 good_form 1 "t11" sample_src'' 75)
         "Acme Air" "Jane",
       (@respond sample_externals
          (create_invoice acme good_form 1 "t11" sample_src'') sample_db).2).
Proof.
  assert (rows (companies sample_db) !! 2 = Some acme_company) as Hc
    by (vm_compute; reflexivity).
  assert (rows (jobs sample_db) !! 1 = Some jane_job) as Hj
    by (vm_compute; reflexivity).
  assert (∀ k' i', rows (invoices sample_db) !! k' = Some i' →
            i_public_token i' ≠ Some (token_urlsafe 24 sample_src''))
    as Hfresh.
  { intros k' i' Hk'.
    apply (no_row_by_select
             (λ i : invoice (@Amount sample_externals),
                bool_decide
                  (i_public_token i = Some (token_urlsafe 24 sample_src'')))
             (invoices sample_db)) in Hk'; [|vm_compute; reflexivity].
    by apply bool_decide_eq_false_1 in Hk'. }
  split; [exact acme_logged_in|]. split; [exact Hc|]. split; [exact Hj|].
  split; [reflexivity|]. split; [reflexivity|]. split; [exact Hfresh|].
  exact (proj1 (proj2 (proj2 (proj2 (proj2 (proj2
    (@create_invoice_public_lookup sample_externals acme 2 good_form 1
       "t11" sample_src'' sample_db acme_company jane_job 75
       acme_logged_in Hc Hj eq_refl eq_refl eq_refl Hfresh))))))).
Defined.

(** C6 as stated fails: nothing makes the token unique.  When the random
    source yields for a new invoice the bytes it yielded for invoice 1, the
    call succeeds, invoices 1 and 3 carry the same token, and the public
    page for that token shows invoice 1, created at [t6], not the new one. *)
Lemma create_invoice_token_collision :
  let req := CreateInvoice acme good_form 1 "t11" sample_src in
  let d := (@handle sample_externals req sample_db).2 in
  status_code (@handle sample_externals req sample_db).1 = 302
  ∧ i_public_token <$> rows (invoices sample_db) !! 1
    = Some (Some (token_urlsafe 24 sample_src))
  ∧ rows (invoices sample_db) !! 3 = None
  ∧ i_public_token <$> rows (invoices d) !! 3
    = Some (Some (token_urlsafe 24 sample_src))
  ∧ i_created_at <$> rows (invoices d) !! 3 = Some "t11"
  ∧ match (handle (PublicInvoice (token_urlsafe 24 sample_src)) d).1 with
    | RenderInvoice i _ _ => i_created_at i = "t6"
    | _ => False
    end.
Proof.
  cbv zeta. do 5 (split; [vm_compute; reflexivity|]).
  vm_compute; reflexivity.
Qed.

(** X28.  A token is [token_urlsafe(24)]: 32 characters, each a letter, a
    digit, [-] or [_], and two draws give the same token only if they agree
    on all 24 bytes, that is on 192 bits.  The invoice [create_invoice]
    stores carries the token drawn in that call, and no request, race, stop
    or restart changes the token of a stored invoice. *)
Theorem public_token_drawn_once `{Ext : Externals} :
  (∀ src,
     String.length (token_urlsafe 24 src) = 32%nat
     ∧ Forall (λ c, is_urlsafe c = true)
         (list_ascii_of_string (token_urlsafe 24 src)))
  ∧ (∀ src src',
       token_urlsafe 24 src = token_urlsafe 24 src'
       ↔ ∀ n, (n < 24)%nat → src n = src' n)
  ∧ (∀ s f k now src d k' i',
       let out := respond (create_invoice s f k now src) d in
       rows (invoices d) !! k' = None →
       rows (invoices out.2) !! k' = Some i' →
       i_public_token i' = Some (token_urlsafe 24 src))
  ∧ (∀ σ σ' k i,
       reachable σ σ' →
       rows (invoices σ.2) !! k = Some i →
       ∃ i', rows (invoices σ'.2) !! k = Some i'
             ∧ i_public_token i' = i_public_token i).
Proof.
  split; [|split; [|split]].
  - intros src. apply (encode_urlsafe 8), token_bytes_length.
  - apply token_urlsafe_inj.
  - intros s f k now src d k' i' out Hold. subst out.
    destruct (session_cases s) as [[cid Hs]|Hs].
    + rewrite (create_invoice_run _ _ _ _ _ _ _ Hs).
      repeat case_match; db_simpl; try congruence.
      rewrite insert_row_lookup. case_decide; [|congruence].
      by intros [= <-].
    + unfold create_invoice. rewrite logged_out_run by done.
      db_simpl. congruence.
  - intros σ σ' k i Hr. revert i.
    induction Hr as [|σ' e _ IH]; intros i Hk; [by eauto|].
    destruct (IH i Hk) as (i1 & Hk1 & <-).
    eapply writes_keep_token; [apply exec_writes|done].
Qed.

Lemma public_token_drawn_once_witness :
  i_public_token <$> rows (invoices sample_db) !! 1
  = Some (Some (token_urlsafe 24 sample_src))
  ∧ ∃ i', rows (invoices
                  (exec (Serve (MarkPaid acme 1 "t11"))
                     (Running, sample_db)).2) !! 1 = Some i'
          ∧ i_public_token i' = Some (token_urlsafe 24 sample_src).
Proof.
  assert (∃ i, rows (invoices sample_db) !! 1 = Some i
               ∧ i_public_token i = Some (token_urlsafe 24 sample_src))
    as (i & Hk & Ht).
  { eexists. split; [vm_compute; reflexivity|reflexivity]. }
  split; [by rewrite Hk, <- Ht|].
  destruct (proj2 (proj2 (proj2 (@public_token_drawn_once sample_externals)))
              (Running, sample_db)
              (exec (Serve (MarkPaid acme 1 "t11")) (Running, sample_db))
              1 i) as (i' & Hk' & Ht');
    [apply reachable_step, reachable_refl|exact Hk|].
  exists i'. split; [exact Hk'|]. by rewrite Ht'.
Defined.

(** * Signup *)

Section Signup.
Context {Ext : Externals}.
Implicit Types (f : form) (d : DB).

(** [setup] writes its company and its user in one transaction: both rows
    or neither. *)
Lemma setup_all_or_nothing method f now1 now2 d :
  (respond (setup method f now1 now2) d).2 = d
  ∨ (respond (setup method f now1 now2) d).2 = setup_writes f now1 now2 d.
Proof. rewrite setup_run. repeat case_match; auto. Qed.

(** So does [signup] when nothing else writes while it runs. *)
Lemma signup_alone_all_or_nothing method f now1 now2 d :
  let out := respond (signup method f now1 now2 id id) d in
  out.2 = d
  ∨ (out.2 = with_users (insert_row (signup_admin f now1 now2 id d))
               (signup_company f now1 id d)
     ∧ ∃ s, out.1 = RedirectLoggedIn "dashboard" s).
Proof.
  intros out. subst out.
  destruct method; [by left|].
  destruct (fields_missing f) eqn:Hf.
  { left. apply signup_rejects. auto. }
  destruct (decide (lower (field "username" f) = "aptech_owner")).
  { left. apply signup_rejects. auto. }
  rewrite signup_run by done. cbv zeta.
  change (id (signup_company f now1 id d)) with (signup_company f now1 id d).
  destruct (select_first _ (users d)) eqn:E; [by left|].
  change (users (signup_company f now1 id d)) with (users d). rewrite E.
  right.
  destruct (select_first_is_Some
              (username_is (field "username" f))
              (users (with_users
                        (insert_row (signup_admin f now1 now2 id d))
                        (signup_company f now1 id d)))
              _ _ (insert_row_new _ _)) as [[k u] ->].
  { by apply bool_decide_eq_true_2. }
  split; [done|]. by eexists.
Qed.

(** When another connection commits the same username after [signup] has
    committed its company, the user insert fails on the UNIQUE constraint,
    the request ends in a 500, and the company row stays. *)
Lemma signup_interrupted f now1 now2 o1 o2 d :
  fields_missing f = false →
  lower (field "username" f) ≠ "aptech_owner" →
  select_first (username_is (field "username" f)) (users d) = None →
  is_Some (select_first (username_is (field "username" f))
             (users (o2 (signup_company f now1 o1 d)))) →
  respond (signup POST f now1 now2 o1 o2) d
  = (Status 500, o2 (signup_company f now1 o1 d)).
Proof.
  intros Hf Hr Hfree [x Hx]. rewrite signup_run by done. cbv zeta.
  by rewrite Hfree, Hx.
Qed.

End Signup.

(** C3, where the code falls short of it.  Two signups ask for the username
    [cy]; the second commits between the first one's two commits, as in
    [Race POST cool_form "t11" "t12" [] [Signup POST rival_form "t11" "t11"]].
    The first request ends in a 500 and its company, [Cool Co] under rowid
    4, stays in the store with no user belonging to it; [cy] is the second
    company's admin. *)
Theorem signup_orphans_company :
  let out :=
    @respond sample_externals
      (signup POST cool_form "t11" "t12" id rival_signup) sample_db in
  status_code out.1 = 500
  ∧ rows (companies sample_db) !! 4 = None
  ∧ c_name <$> rows (companies out.2) !! 4 = Some "Cool Co"
  ∧ c_name <$> rows (companies out.2) !! 5 = Some "Dupe Ltd"
  ∧ (λ x, u_company_id x.2) <$> select_first (username_is "cy") (users out.2)
    = Some (Some 5)
  ∧ (∀ k u, rows (users out.2) !! k = Some u → u_company_id u ≠ Some 4).
Proof.
  cbv zeta. do 5 (split; [vm_compute; reflexivity|]).
  intros k u Hk.
  apply (no_row_by_select (λ u, bool_decide (u_company_id u = Some 4))) in Hk;
    [|vm_compute; reflexivity].
  by apply bool_decide_eq_false_1 in Hk.
Qed.

(** * Further properties of the handlers *)

(** ** What a lookup finds after an insert or an update *)

Section RowChanges.
Context {R : Type}.
Implicit Types (t : table R) (p : R → bool) (f : R → R) (k : Z).

Lemma insert_row_inv r t k x :
  rows (insert_row r t) !! k = Some x →
  (k = next_rowid t ∧ x = r) ∨ rows t !! k = Some x.
Proof.
  rewrite insert_row_lookup. case_decide; [|by right].
  intros [= <-]. by left.
Qed.

Lemma update_row_inv k0 p f t k x :
  rows (update_row k0 p f t) !! k = Some x →
  ∃ r, rows t !! k = Some r ∧ (x = r ∨ (x = f r ∧ p r = true ∧ k = k0)).
Proof.
  rewrite update_row_lookup. case_decide; [|by eauto].
  destruct (rows t !! k) as [r|]; [|done]. simpl.
  destruct (p r) eqn:E; intros [= <-]; eauto 6.
Qed.

Lemma update_row_fwd k0 p f t k r :
  rows t !! k = Some r →
  ∃ x, rows (update_row k0 p f t) !! k = Some x ∧ (x = r ∨ x = f r).
Proof.
  intros Hk. rewrite update_row_lookup, Hk. case_decide; [|by eauto].
  simpl. case_match; eauto.
Qed.

Lemma update_where_inv p f t k x :
  rows (update_where p f t) !! k = Some x →
  ∃ r, rows t !! k = Some r ∧ (x = r ∨ (x = f r ∧ p r = true)).
Proof.
  rewrite update_where_lookup.
  destruct (rows t !! k) as [r|]; [|done]. simpl.
  destruct (p r) eqn:E; intros [= <-]; eauto.
Qed.

Lemma update_where_fwd p f t k r :
  rows t !! k = Some r →
  ∃ x, rows (update_where p f t) !! k = Some x ∧ (x = r ∨ x = f r).
Proof.
  intros Hk. rewrite update_where_lookup, Hk. simpl. case_match; eauto.
Qed.

Lemma update_where_none p f t :
  (∀ k r, rows t !! k = Some r → p r = false) →
  rows (update_where p f t) = rows t.
Proof.
  intros H. apply map_eq. intros k. rewrite update_where_lookup.
  destruct (rows t !! k) as [r|] eqn:E; [|done]. simpl.
  by rewrite (H k r E).
Qed.

End RowChanges.

(** ** Stripping *)

Section Strings.
Implicit Types (s t w : string) (c : ascii).

Lemma string_app_cons c s t : String c s ++ t = String c (s ++ t).
Proof. done. Qed.

Lemma string_app_assoc s t w : (s ++ t) ++ w = s ++ (t ++ w).
Proof.
  induction s as [|c s IH]; [done|]. by rewrite !string_app_cons, IH.
Qed.

Lemma rev_app_spec s w : String.rev_app s w = String.rev s ++ w.
Proof.
  unfold String.rev. revert w.
  induction s as [|c s IH]; intros w; [done|]. simpl.
  rewrite (IH (String c w)), (IH (String c "")), string_app_assoc. done.
Qed.

Lemma rev_cons c s : String.rev (String c s) = String.rev s ++ String c "".
Proof. unfold String.rev at 1. simpl. apply rev_app_spec. Qed.

Lemma rev_snoc s c : String.rev (s ++ String c "") = String c (String.rev s).
Proof.
  induction s as [|a s IH]; [done|].
  by rewrite string_app_cons, !rev_cons, IH.
Qed.

Lemma rev_involutive s : String.rev (String.rev s) = s.
Proof.
  induction s as [|c s IH]; [done|]. by rewrite rev_cons, rev_snoc, IH.
Qed.

Lemma lstrip_head s :
  lstrip s = "" ∨ ∃ c t, lstrip s = String c t ∧ isspace c = false.
Proof.
  induction s as [|c s IH]; [by left|]. simpl.
  destruct (isspace c) eqn:E; [done|]. right. by exists c, s.
Qed.

Lemma lstrip_idem s : lstrip (lstrip s) = lstrip s.
Proof.
  destruct (lstrip_head s) as [->|(c & t & -> & E)]; [done|].
  simpl. by rewrite E.
Qed.

Lemma lstrip_snoc s c :
  isspace c = false → lstrip (s ++ String c "") = lstrip s ++ String c "".
Proof.
  intros E. induction s as [|a s IH]; [by simpl; rewrite E|].
  rewrite string_app_cons. simpl. by destruct (isspace a).
Qed.

Lemma rstrip_cons c s :
  isspace c = false → rstrip (String c s) = String c (rstrip s).
Proof.
  intros E. unfold rstrip. by rewrite rev_cons, lstrip_snoc, rev_snoc.
Qed.

Lemma rstrip_idem s : rstrip (rstrip s) = rstrip s.
Proof. unfold rstrip. by rewrite rev_involutive, lstrip_idem. Qed.

Lemma strip_idem s : strip (strip s) = strip s.
Proof.
  unfold strip.
  destruct (lstrip_head s) as [->|(c & t & -> & E)]; [done|].
  rewrite (rstrip_cons _ _ E). simpl. rewrite E.
  by rewrite <- (rstrip_cons _ _ E), rstrip_idem.
Qed.

End Strings.

(** ** Every event is a sequence of guarded statements *)

Section Statements.
Context {Ext : Externals}.
Implicit Types (s : session) (f : form) (d : DB) (cid k : Z).

Lemma strip_text_ok x : nonempty (strip x) = true → text_ok (strip x).
Proof. intros H. split; [done|apply strip_idem]. Qed.

Lemma or_none_strip_ok x : opt_text_ok (or_none (strip x)).
Proof.
  intros y. unfold or_none. destruct (nonempty (strip x)) eqn:E; [|done].
  intros [= <-]. by apply strip_text_ok.
Qed.

Lemma or_default_empty x : or_default (Some x) "" = x.
Proof. by destruct x. Qed.

Lemma parse_date_ok x : date_ok (parse_date_yyyy_mm_dd x).
Proof.
  intros y. unfold parse_date_yyyy_mm_dd. rewrite or_default_empty.
  destruct (nonempty (strip x)) eqn:E; [|done]. simpl.
  destruct (strptime_ok (strip x)) eqn:E'; [|done].
  intros [= <-]. split; [by apply strip_text_ok|done].
Qed.

Lemma company_name_present f now :
  fields_missing f = false → text_ok (c_name (new_company f now)).
Proof.
  unfold fields_missing. intros H.
  apply orb_false_elim in H as [H _].
  apply orb_false_elim in H as [H _].
  apply negb_false_iff in H. by apply strip_text_ok.
Qed.

Lemma username_present f cid now :
  fields_missing f = false → text_ok (u_username (new_admin cid f now)).
Proof.
  unfold fields_missing. intros H.
  apply orb_false_elim in H as [H _].
  apply orb_false_elim in H as [_ H].
  apply negb_false_iff in H. by apply strip_text_ok.
Qed.

Lemma statement_keeps_company d d' k c :
  statement d d' →
  rows (companies d) !! k = Some c → rows (companies d') !! k = Some c.
Proof.
  intros Hst Hk. destruct Hst; db_simpl; try done. by apply insert_row_old.
Qed.

Lemma statements_keep_company d d' k c :
  rtc statement d d' →
  rows (companies d) !! k = Some c → rows (companies d') !! k = Some c.
Proof. induction 1; eauto using statement_keeps_company. Qed.

Lemma signup_statements method f now1 now2 (o1 o2 : DB → DB) d :
  (∀ x, rtc statement x (o1 x)) → (∀ x, rtc statement x (o2 x)) →
  rtc statement d (respond (signup method f now1 now2 o1 o2) d).2.
Proof.
  intros Ho1 Ho2.
  destruct method; [apply rtc_refl|].
  destruct (fields_missing f) eqn:Hf.
  { rewrite signup_rejects by auto. apply rtc_refl. }
  destruct (decide (lower (field "username" f) = "aptech_owner")).
  { rewrite signup_rejects by auto. apply rtc_refl. }
  rewrite signup_run by done. cbv zeta.
  destruct (select_first _ (users d)); [apply rtc_refl|].
  assert (rtc statement d (o2 (signup_company f now1 o1 d))) as H3.
  { etrans; [apply Ho1|]. etrans; [|apply Ho2].
    apply rtc_once, stmt_company. by apply company_name_present. }
  destruct (select_first _ (users (o2 (signup_company f now1 o1 d))))
    eqn:Hfree; [done|].
  assert (rtc statement d
            (with_users (insert_row (signup_admin f now1 now2 o1 d))
               (o2 (signup_company f now1 o1 d)))).
  { eapply rtc_r; [done|].
    eapply (stmt_user _ (seqno (companies (signup_company f now1 o1 d))));
      [done|done| |by left|by apply username_present].
    exists (new_company f now1).
    eapply statements_keep_company; [apply Ho2|].
    unfold signup_company. db_simpl.
    rewrite insert_row_seqno. apply insert_row_new. }
  by repeat case_match.
Qed.

Lemma handle_statements r d : rtc statement d (handle r d).2.
Proof.
  destruct r; unfold handle.
  - rewrite setup_run.
    destruct (bool_decide _); [apply rtc_refl|].
    destruct method; [apply rtc_refl|].
    destruct (fields_missing f) eqn:Hf; [apply rtc_refl|].
    destruct (select_first _ (users d)) eqn:Hfree; [apply rtc_refl|].
    unfold setup_writes. cbv zeta. cbn [snd].
    eapply rtc_r; [|apply stmt_invoice_company].
    eapply rtc_r; [|apply stmt_job_company].
    eapply rtc_r; [|apply stmt_lead_company].
    eapply rtc_r;
      [apply rtc_once, stmt_company; by apply company_name_present|].
    eapply (stmt_user _
              (seqno (companies
                        (with_companies (insert_row (new_company f now1))
                           d))));
      [done|done| |by left|by apply username_present].
    exists (new_company f now1). db_simpl.
    rewrite insert_row_seqno. apply insert_row_new.
  - apply signup_statements; intros x; apply rtc_refl.
  - destruct (session_cases s) as [[cid Hs]|Hs].
    + rewrite (add_lead_run _ _ _ _ _ Hs). cbv zeta.
      destruct (negb _ || negb _) eqn:Hv; [apply rtc_refl|].
      apply orb_false_elim in Hv as [H1 H2].
      apply negb_false_iff in H1, H2.
      eapply rtc_once, stmt_lead; [done|done|].
      split; [by apply strip_text_ok|]. split; [by apply strip_text_ok|].
      do 3 (split; [apply or_none_strip_ok|]). apply or_none_strip_ok.
    + unfold add_lead. rewrite logged_out_run by done. apply rtc_refl.
  - destruct (session_cases s) as [[cid Hs]|Hs].
    + rewrite (update_lead_status_run _ _ _ _ _ Hs). cbv zeta.
      case_bool_decide; [|apply rtc_refl].
      case_match; [|apply rtc_refl]. by apply rtc_once, stmt_lead_status.
    + unfold update_lead_status. rewrite logged_out_run by done.
      apply rtc_refl.
  - destruct (session_cases s) as [[cid Hs]|Hs].
    + rewrite (convert_lead_run _ _ _ _ _ _ Hs).
      destruct (select_row _ _ _) as [l|] eqn:Hsel; [|apply rtc_refl].
      apply select_row_Some in Hsel as [Hk Hp].
      apply bool_decide_eq_true_1 in Hp.
      eapply rtc_r; [|apply stmt_lead_status; compute_done].
      eapply rtc_once, (stmt_job _ cid lead_id l); try done; simpl.
      * apply parse_date_ok.
      * apply or_none_strip_ok.
    + unfold convert_lead. rewrite logged_out_run by done. apply rtc_refl.
  - destruct (session_cases s) as [[cid Hs]|Hs].
    + rewrite (update_job_status_run _ _ _ _ _ Hs). cbv zeta.
      case_bool_decide; [|apply rtc_refl].
      case_match; [|apply rtc_refl]. by apply rtc_once, stmt_job_status.
    + unfold update_job_status. rewrite logged_out_run by done.
      apply rtc_refl.
  - destruct (session_cases s) as [[cid Hs]|Hs].
    + rewrite (create_invoice_run _ _ _ _ _ _ _ Hs).
      destruct (py_float _) as [amount|]; [|apply rtc_refl].
      destruct (select_row _ _ _) as [j|] eqn:Hsel; [|apply rtc_refl].
      destruct (isnan amount); [apply rtc_refl|].
      apply select_row_Some in Hsel as [Hk Hp].
      apply bool_decide_eq_true_1 in Hp.
      eapply rtc_once, (stmt_invoice _ cid j); try done.
      split; [apply parse_date_ok|done].
    + unfold create_invoice. rewrite logged_out_run by done. apply rtc_refl.
  - rewrite public_invoice_run. repeat case_match; apply rtc_refl.
  - destruct (session_cases s) as [[cid Hs]|Hs].
    + rewrite (mark_paid_run _ _ _ _ _ Hs).
      case_match; [|apply rtc_refl]. apply rtc_once, stmt_paid.
    + unfold mark_paid. rewrite logged_out_run by done. apply rtc_refl.
  - destruct (session_cases s) as [[cid Hs]|Hs].
    + rewrite (add_task_run _ _ _ _ _ _ Hs). cbv zeta.
      destruct (negb _) eqn:Hv; [apply rtc_refl|].
      apply negb_false_iff in Hv.
      destruct (select_row _ _ _) as [j|] eqn:Hsel; [|apply rtc_refl].
      apply select_row_Some in Hsel as [Hk Hp].
      apply bool_decide_eq_true_1 in Hp.
      eapply rtc_once, (stmt_task _ j); try done.
      split; [by apply strip_text_ok|]. simpl.
      split; [apply parse_date_ok|apply or_none_strip_ok].
    + unfold add_task. rewrite logged_out_run by done. apply rtc_refl.
  - destruct (session_cases s) as [[cid Hs]|Hs].
    + rewrite (toggle_task_run _ _ _ _ Hs).
      case_match; [|apply rtc_refl].
      apply rtc_once, stmt_task_status, toggled_cases.
    + unfold toggle_task. rewrite logged_out_run by done. apply rtc_refl.
Qed.

Lemma serve_all_statements rs d : rtc statement d (serve_all rs d).
Proof.
  unfold serve_all. revert d.
  induction rs as [|r rs IH]; intros d; [apply rtc_refl|]. simpl.
  etrans; [apply handle_statements|apply IH].
Qed.

Lemma startup_statements password now1 now2 d :
  rtc statement d (startup password now1 now2 d).2.
Proof.
  rewrite startup_run, ensure_super_admin_run. cbv zeta.
  assert (rtc statement d (with_owner_company now1 d)) as Hc.
  { unfold with_owner_company.
    case_match; [apply rtc_refl|by apply rtc_once, stmt_company]. }
  destruct (select_first is_super_admin (users d)) eqn:Hsa; [done|].
  destruct (negb _); [done|].
  destruct (select_first (username_is _) (users d)) eqn:Hfree; [done|].
  cbn [snd]. eapply rtc_r; [done|].
  destruct (owner_company_found now1 d) as (oc & Hoc & _).
  eapply (stmt_user _ (owner_company_id now1 d));
    [|done|by eexists| |done].
  - by rewrite users_with_owner_company.
  - right. split; [done|].
    rewrite has_super_admin_select, users_with_owner_company, Hsa.
    by intros [??].
Qed.

Lemma exec_statements e σ : rtc statement σ.2 (exec e σ).2.
Proof.
  destruct e as [password now1 now2|r|method f now1 now2 before after|];
    simpl.
  - pose proof (startup_statements password now1 now2 σ.2) as H.
    by destruct (startup _ _ _ _) as [[?|?] ?].
  - destruct σ.1; [apply rtc_refl|apply handle_statements].
  - destruct σ.1; [apply rtc_refl|].
    apply signup_statements; apply serve_all_statements.
  - apply rtc_refl.
Qed.

Lemma reachable_statements σ0 σ :
  reachable σ0 σ → rtc statement σ0.2 σ.2.
Proof.
  induction 1; [apply rtc_refl|]. etrans; [done|apply exec_statements].
Qed.

End Statements.

(** ** The data model's promises are kept *)

Section Consistency.
Context {Ext : Externals}.
Implicit Types (d : DB).

Lemma users_consistent_kept d d' :
  statement d d' → users_consistent d → users_consistent d'.
Proof.
  intros Hst (Hname & Hsuper & Hcomp).
  destruct Hst as [c d|u cid d Hfree Hcid Hex Hrole| | | | | | | | | | | ];
    db_simpl; try done.
  - split; [done|]. split; [done|]. intros k u Hk.
    destruct (Hcomp k u Hk) as (cid & Hc & [x Hx]).
    exists cid. split; [done|]. exists x. by apply insert_row_old.
  - assert (∀ k x, rows (users d) !! k = Some x →
                   u_username x ≠ u_username u) as Hother.
    { intros k x Hk E.
      apply (no_row_by_select _ _ Hfree) in Hk.
      by apply bool_decide_eq_false_1 in Hk. }
    split; [|split].
    + intros k k' x x' [[-> ->]|Hk]%insert_row_inv
        [[-> ->]|Hk']%insert_row_inv E; try done.
      * by destruct (Hother _ _ Hk').
      * by destruct (Hother _ _ Hk).
      * by eapply Hname.
    + intros k k' x x' [[-> ->]|Hk]%insert_row_inv
        [[-> ->]|Hk']%insert_row_inv E E'; try done.
      * destruct Hrole as [Hr|[_ Hno]]; [congruence|].
        destruct Hno. by exists k', x'.
      * destruct Hrole as [Hr|[_ Hno]]; [congruence|].
        destruct Hno. by exists k, x.
      * by eapply Hsuper.
    + intros k x [[-> ->]|Hk]%insert_row_inv; [by exists cid|].
      by eapply Hcomp.
Qed.

Lemma statuses_consistent_kept d d' :
  statement d d' → statuses_consistent d → statuses_consistent d'.
Proof.
  intros Hst (Hl & Hj & Hi & Ht).
  destruct Hst; db_simpl; try done; (split; [|split; [|split]]); try done.
  - intros k x [[-> ->]|Hk]%insert_row_inv; [|by eauto].
    rewrite H0. compute_done.
  - intros k' x (r & Hk & [->|(-> & _)])%update_row_inv; by eauto.
  - intros k' x (r & Hk & [->|(-> & _)])%update_where_inv;
      [by eauto|exact (Hl _ _ Hk)].
  - intros k' x [[-> ->]|Hk]%insert_row_inv; [|by eauto].
    rewrite H4. compute_done.
  - intros k' x (r & Hk & [->|(-> & _)])%update_row_inv; by eauto.
  - intros k' x (r & Hk & [->|(-> & _)])%update_where_inv;
      [by eauto|exact (Hj _ _ Hk)].
  - intros k' x [[-> ->]|Hk]%insert_row_inv; [|by eauto].
    rewrite H2. compute_done.
  - intros k' x (r & Hk & [->|(-> & _)])%update_row_inv; [by eauto|].
    compute_done.
  - intros k' x (r & Hk & [->|(-> & _)])%update_where_inv;
      [by eauto|exact (Hi _ _ Hk)].
  - intros k' x [[-> ->]|Hk]%insert_row_inv; [|by eauto].
    rewrite H1. compute_done.
  - intros k' x (r & Hk & [->|(-> & _)])%update_row_inv; [by eauto|].
    destruct H as [-> | ->]; compute_done.
Qed.

Lemma invoices_consistent_kept d d' :
  statement d d' → invoices_consistent d → invoices_consistent d'.
Proof.
  intros Hst Hi. destruct Hst; db_simpl; try done.
  - intros k x [[-> ->]|Hk]%insert_row_inv; [|by eauto].
    split; [|done]. rewrite H2, H3. split; [done|by intros [??]].
  - intros k' x (r & Hk & [->|(-> & _)])%update_row_inv; [by eauto|].
    destruct (Hi _ _ Hk) as [_ Htok]. split; [|done]. simpl.
    split; [by eexists|done].
  - intros k' x (r & Hk & [->|(-> & _)])%update_where_inv;
      [by eauto|exact (Hi _ _ Hk)].
Qed.

Lemma is_null_false {A} (x : option A) : is_Some x → is_null x = false.
Proof. by intros [? ->]. Qed.

Lemma references_consistent_kept d d' :
  statement d d' → references_consistent d → references_consistent d'.
Proof.
  intros Hst (Hl & Hj & Hi & Ht). unfold references_consistent.
  destruct Hst as
    [c d|u cid d _ _ _ _
    |l cid d Hc _|k cid st d _|cid d
    |j cid k l d Hk Hlc Hjc Hjl _ _|k cid st d _|cid d
    |i cid j d Hk Hjc Hic _ _ _|k cid now d|cid d
    |t j d Hk Hjc _|k cid st d _];
    db_simpl; try done.
  - (* a lead is inserted *)
    split; [|split; [|done]].
    + intros k x [[-> ->]|Hk]%insert_row_inv; [by rewrite Hc|by eauto].
    + intros k j Hk. destruct (Hj k j Hk) as [Hjc Hjl].
      split; [done|]. intros kl Hkl.
      destruct (Hjl kl Hkl) as (l' & Hl' & Hc').
      exists l'. split; [by apply insert_row_old|done].
  - (* a lead's status is set *)
    split; [|split; [|done]].
    + intros k' x (r & Hk & [->|(-> & _)])%update_row_inv;
        [by eauto|exact (Hl _ _ Hk)].
    + intros k' j Hk. destruct (Hj k' j Hk) as [Hjc Hjl].
      split; [done|]. intros kl Hkl.
      destruct (Hjl kl Hkl) as (l' & Hl' & Hc').
      destruct (update_row_fwd k (lead_in cid) (set_lead_status st)
                  _ _ _ Hl') as (x & Hx & [Ex|Ex]);
        exists x; by subst.
  - (* leads without a company are given one: there are none *)
    rewrite update_where_none; [done|].
    intros k l Hk. by apply is_null_false, (Hl k).
  - (* a job is inserted *)
    split; [done|]. split; [|split].
    + intros k' x [[-> ->]|Hk']%insert_row_inv; [|by eauto].
      split; [by rewrite Hjc|]. intros kl. rewrite Hjl. intros [= <-].
      exists l. by rewrite Hjc.
    + intros k' i Hk'. destruct (Hi k' i Hk') as (Hic & j' & Hj' & Hc').
      split; [done|]. exists j'. split; [by apply insert_row_old|done].
    + intros k' t Hk'. destruct (Ht k' t Hk') as (j' & Hj' & Hc').
      exists j'. split; [by apply insert_row_old|done].
  - (* a job's status is set *)
    split; [done|]. split; [|split].
    + intros k' x (r & Hk & [->|(-> & _)])%update_row_inv;
        [by eauto|exact (Hj _ _ Hk)].
    + intros k' i Hk'. destruct (Hi k' i Hk') as (Hic & j' & Hj' & Hc').
      split; [done|].
      destruct (update_row_fwd k (job_in cid) (set_job_status st)
                  _ _ _ Hj') as (x & Hx & [Ex|Ex]);
        exists x; by subst.
    + intros k' t Hk'. destruct (Ht k' t Hk') as (j' & Hj' & Hc').
      destruct (update_row_fwd k (job_in cid) (set_job_status st)
                  _ _ _ Hj') as (x & Hx & [Ex|Ex]);
        exists x; by subst.
  - (* jobs without a company: none *)
    rewrite update_where_none; [done|].
    intros k j Hk. by apply is_null_false, (Hj k).
  - (* an invoice is inserted *)
    split; [done|]. split; [done|]. split; [|done].
    intros k' x [[-> ->]|Hk']%insert_row_inv; [|by eauto].
    split; [by rewrite Hic|]. exists j. by rewrite Hic.
  - (* an invoice is paid *)
    split; [done|]. split; [done|]. split; [|done].
    intros k' x (r & Hk & [->|(-> & _)])%update_row_inv;
      [by eauto|exact (Hi _ _ Hk)].
  - (* invoices without a company: none *)
    rewrite update_where_none; [done|].
    intros k i Hk. by apply is_null_false, (Hi k).
  - (* a task is inserted *)
    split; [done|]. split; [done|]. split; [done|].
    intros k' x [[-> ->]|Hk']%insert_row_inv; [|by eauto].
    by exists j.
  - (* a task's status is set *)
    split; [done|]. split; [done|]. split; [done|].
    intros k' x (r & Hk & [->|(-> & _)])%update_row_inv;
      [by eauto|exact (Ht _ _ Hk)].
Qed.

Lemma consistent_kept d d' : statement d d' → consistent d → consistent d'.
Proof.
  intros Hst (Hu & Hs & Hr & Hi). split; [|split; [|split]].
  - by eapply users_consistent_kept.
  - by eapply statuses_consistent_kept.
  - by eapply references_consistent_kept.
  - by eapply invoices_consistent_kept.
Qed.

Lemma consistent_empty : consistent empty_db.
Proof.
  repeat split; intros; by simplify_map_eq.
Qed.

Lemma reachable_consistent σ : reachable fresh σ → consistent σ.2.
Proof.
  intros Hr%reachable_statements. simpl in Hr.
  assert (∀ d d', rtc statement d d' → consistent d → consistent d') as H.
  { induction 1; eauto using consistent_kept. }
  eapply H; [done|apply consistent_empty].
Qed.

End Consistency.

(** X1.  In every store a fresh deployment can reach, usernames are unique
    across all companies, at most one user is the super-admin, and every
    user's company exists. *)
Theorem reachable_users_consistent `{Ext : Externals} p d :
  reachable fresh (p, d) →
  (∀ k k' u u',
     rows (users d) !! k = Some u → rows (users d) !! k' = Some u' →
     u_username u = u_username u' → k = k')
  ∧ (∀ k k' u u',
       rows (users d) !! k = Some u → rows (users d) !! k' = Some u' →
       u_role u = "super_admin" → u_role u' = "super_admin" → k = k')
  ∧ (∀ k u, rows (users d) !! k = Some u →
            ∃ cid, u_company_id u = Some cid
                   ∧ is_Some (rows (companies d) !! cid)).
Proof. intros Hr. by destruct (reachable_consistent _ Hr) as (H & _). Qed.

Lemma reachable_users_consistent_witness :
  reachable (@fresh sample_externals) (Running, sample_db)
  ∧ ∀ k k' u u',
      rows (users sample_db) !! k = Some u →
      rows (users sample_db) !! k' = Some u' →
      u_username u = u_username u' → k = k'.
Proof.
  split; [exact sample_db_reachable|].
  exact (proj1 (@reachable_users_consistent sample_externals Running
                  sample_db sample_db_reachable)).
Defined.

(** X2.  In every store a fresh deployment can reach, each status column
    holds a value of its enumeration: leads New, Contacted, Scheduled, Won
    or Lost; jobs Scheduled, In Progress, Completed or Canceled; invoices
    Unpaid or Paid; tasks todo or done. *)
Theorem reachable_statuses_consistent `{Ext : Externals} p d :
  reachable fresh (p, d) →
  (∀ k l, rows (leads d) !! k = Some l → l_status l ∈ lead_statuses)
  ∧ (∀ k j, rows (jobs d) !! k = Some j → j_status j ∈ job_statuses)
  ∧ (∀ k i, rows (invoices d) !! k = Some i →
            i_status i ∈ invoice_statuses)
  ∧ (∀ k t, rows (tasks d) !! k = Some t → t_status t ∈ task_statuses).
Proof.
  intros Hr. by destruct (reachable_consistent _ Hr) as (_ & H & _).
Qed.

Lemma reachable_statuses_consistent_witness :
  reachable (@fresh sample_externals) (Running, sample_db)
  ∧ ∀ k l, rows (leads sample_db) !! k = Some l →
           l_status l ∈ lead_statuses.
Proof.
  split; [exact sample_db_reachable|].
  exact (proj1 (@reachable_statuses_consistent sample_externals Running
                  sample_db sample_db_reachable)).
Defined.

(** X3.  In every store a fresh deployment can reach, every lead, job and
    invoice has a company, and the rows they refer to exist in the same
    company: a job's lead, an invoice's job, a task's job.  SQLite does not
    enforce the foreign keys; the handlers' guards do. *)
Theorem reachable_references_consistent `{Ext : Externals} p d :
  reachable fresh (p, d) →
  (∀ k l, rows (leads d) !! k = Some l → is_Some (l_company_id l))
  ∧ (∀ k j, rows (jobs d) !! k = Some j →
       is_Some (j_company_id j)
       ∧ ∀ kl, j_lead_id j = Some kl →
               ∃ l, rows (leads d) !! kl = Some l
                    ∧ l_company_id l = j_company_id j)
  ∧ (∀ k i, rows (invoices d) !! k = Some i →
       is_Some (i_company_id i)
       ∧ ∃ j, rows (jobs d) !! i_job_id i = Some j
              ∧ j_company_id j = i_company_id i)
  ∧ (∀ k t, rows (tasks d) !! k = Some t →
       ∃ j, rows (jobs d) !! t_job_id t = Some j
            ∧ j_company_id j = Some (t_company_id t)).
Proof.
  intros Hr. by destruct (reachable_consistent _ Hr) as (_ & _ & H & _).
Qed.

Lemma reachable_references_consistent_witness :
  reachable (@fresh sample_externals) (Running, sample_db)
  ∧ ∀ k t, rows (tasks sample_db) !! k = Some t →
      ∃ j, rows (jobs sample_db) !! t_job_id t = Some j
           ∧ j_company_id j = Some (t_company_id t).
Proof.
  split; [exact sample_db_reachable|].
  exact (proj2 (proj2 (proj2
    (@reachable_references_consistent sample_externals Running sample_db
       sample_db_reachable)))).
Defined.

(** X4.  In every store a fresh deployment can reach, an invoice is Paid
    exactly when it has a [paid_at], and every invoice has a public
    token. *)
Theorem reachable_invoices_consistent `{Ext : Externals} p d :
  reachable fresh (p, d) →
  ∀ k i, rows (invoices d) !! k = Some i →
    (i_status i = "Paid" ↔ is_Some (i_paid_at i))
    ∧ is_Some (i_public_token i).
Proof.
  intros Hr. by destruct (reachable_consistent _ Hr) as (_ & _ & _ & H).
Qed.

Lemma reachable_invoices_consistent_witness :
  reachable (@fresh sample_externals) (Running, sample_db)
  ∧ ∀ k i, rows (invoices sample_db) !! k = Some i →
      (i_status i = "Paid" ↔ is_Some (i_paid_at i))
      ∧ is_Some (i_public_token i).
Proof.
  split; [exact sample_db_reachable|].
  exact (@reachable_invoices_consistent sample_externals Running sample_db
           sample_db_reachable).
Defined.

(** ** Rows are kept *)

Section Kept.
Context {Ext : Externals}.
Implicit Types (d : DB).

Lemma lead_kept_refl l : lead_kept l l.
Proof. by repeat split. Qed.

Lemma job_kept_refl j : job_kept j j.
Proof. by repeat split. Qed.

Lemma invoice_kept_refl (i : invoice Amount) : invoice_kept i i.
Proof. by repeat split. Qed.

Lemma task_kept_refl t : task_kept t t.
Proof. by repeat split. Qed.

Lemma lead_kept_trans l1 l2 l3 :
  lead_kept l1 l2 → lead_kept l2 l3 → lead_kept l1 l3.
Proof.
  intros (?&?&?&?&?&?&?&K1) (?&?&?&?&?&?&?&K2).
  repeat split; try congruence.
  intros Hc. rewrite <- (K1 Hc). apply K2. by rewrite (K1 Hc).
Qed.

Lemma job_kept_trans j1 j2 j3 :
  job_kept j1 j2 → job_kept j2 j3 → job_kept j1 j3.
Proof.
  intros (?&?&?&?&?&?&K1) (?&?&?&?&?&?&K2).
  repeat split; try congruence.
  intros Hc. rewrite <- (K1 Hc). apply K2. by rewrite (K1 Hc).
Qed.

Lemma invoice_kept_trans (i1 i2 i3 : invoice Amount) :
  invoice_kept i1 i2 → invoice_kept i2 i3 → invoice_kept i1 i3.
Proof.
  intros (?&?&?&?&?&?&K1&P1&A1) (?&?&?&?&?&?&K2&P2&A2).
  repeat split; try congruence; auto.
  intros Hc. rewrite <- (K1 Hc). apply K2. by rewrite (K1 Hc).
Qed.

Lemma task_kept_trans t1 t2 t3 :
  task_kept t1 t2 → task_kept t2 t3 → task_kept t1 t3.
Proof.
  intros (?&?&?&?&?&?) (?&?&?&?&?&?). repeat split; congruence.
Qed.

Lemma rows_kept_refl d : rows_kept d d.
Proof.
  repeat split; eauto using lead_kept_refl, job_kept_refl,
    invoice_kept_refl, task_kept_refl.
Qed.

Lemma rows_kept_trans d1 d2 d3 :
  rows_kept d1 d2 → rows_kept d2 d3 → rows_kept d1 d3.
Proof.
  intros (Hc & Hu & Hl & Hj & Hi & Ht) (Hc' & Hu' & Hl' & Hj' & Hi' & Ht').
  split; [by eauto|]. split; [by eauto|].
  split; [|split; [|split]].
  - intros k l Hk. destruct (Hl k l Hk) as (l2 & Hk2 & H2).
    destruct (Hl' k l2 Hk2) as (l3 & Hk3 & H3).
    exists l3. eauto using lead_kept_trans.
  - intros k j Hk. destruct (Hj k j Hk) as (j2 & Hk2 & H2).
    destruct (Hj' k j2 Hk2) as (j3 & Hk3 & H3).
    exists j3. eauto using job_kept_trans.
  - intros k i Hk. destruct (Hi k i Hk) as (i2 & Hk2 & H2).
    destruct (Hi' k i2 Hk2) as (i3 & Hk3 & H3).
    exists i3. eauto using invoice_kept_trans.
  - intros k t Hk. destruct (Ht k t Hk) as (t2 & Hk2 & H2).
    destruct (Ht' k t2 Hk2) as (t3 & Hk3 & H3).
    exists t3. eauto using task_kept_trans.
Qed.

Lemma statement_rows_kept d d' : statement d d' → rows_kept d d'.
Proof.
  pose proof (rows_kept_refl d) as (Hc & Hu & Hl & Hj & Hi & Ht).
  destruct 1; unfold rows_kept; db_simpl;
    (split; [|split; [|split; [|split; [|split]]]]);
    try done; try (by intros ???; apply insert_row_old).
  - intros k0 x Hk. exists x.
    split; [by apply insert_row_old|apply lead_kept_refl].
  - intros k0 x Hk.
    destruct (update_row_fwd k (lead_in cid) (set_lead_status st) _ _ _ Hk)
      as (y & Hy & [->| ->]); exists y || eexists; (split; [done|]);
      by repeat split.
  - intros k0 x Hk. rewrite update_where_lookup, Hk. simpl.
    destruct (is_null (l_company_id x)) eqn:E; eexists; (split; [done|]);
      repeat split; try done.
    intros [? Hs]. by rewrite Hs in E.
  - intros k0 x Hk. exists x.
    split; [by apply insert_row_old|apply job_kept_refl].
  - intros k0 x Hk.
    destruct (update_row_fwd k (job_in cid) (set_job_status st) _ _ _ Hk)
      as (y & Hy & [->| ->]); eexists; (split; [done|]); by repeat split.
  - intros k0 x Hk. rewrite update_where_lookup, Hk. simpl.
    destruct (is_null (j_company_id x)) eqn:E; eexists; (split; [done|]);
      repeat split; try done.
    intros [? Hs]. by rewrite Hs in E.
  - intros k0 x Hk. exists x.
    split; [by apply insert_row_old|apply invoice_kept_refl].
  - intros k0 x Hk.
    destruct (update_row_fwd k (invoice_in cid) (set_paid now) _ _ _ Hk)
      as (y & Hy & [->| ->]); eexists; (split; [done|]);
      by repeat split.
  - intros k0 x Hk. rewrite update_where_lookup, Hk. simpl.
    destruct (is_null (i_company_id x)) eqn:E; eexists; (split; [done|]);
      repeat split; try done.
    intros [? Hs]. by rewrite Hs in E.
  - intros k0 x Hk. exists x.
    split; [by apply insert_row_old|apply task_kept_refl].
  - intros k0 x Hk.
    destruct (update_row_fwd k (task_in cid) (set_task_status st) _ _ _ Hk)
      as (y & Hy & [->| ->]); eexists; (split; [done|]); by repeat split.
Qed.

Lemma statements_rows_kept d d' : rtc statement d d' → rows_kept d d'.
Proof.
  induction 1; [apply rows_kept_refl|].
  eauto using rows_kept_trans, statement_rows_kept.
Qed.

End Kept.

(** X5.  Whatever happens between two moments of a deployment -- requests,
    races between signups, stops, restarts -- no row is deleted and no rowid
    is reused: company and user rows are never rewritten, and a lead, job,
    invoice or task keeps every column except its status (for an invoice,
    [paid_at] as well); a company once set stays, and an invoice that is
    Paid stays Paid. *)
Theorem reachable_rows_kept `{Ext : Externals} p d p' d' :
  reachable (p, d) (p', d') → rows_kept d d'.
Proof.
  intros Hr%reachable_statements. by apply statements_rows_kept.
Qed.

Lemma reachable_rows_kept_witness :
  reachable (Running, sample_started) (Running, sample_db)
  ∧ ∀ k u, rows (users sample_started) !! k = Some u →
           rows (users sample_db) !! k = Some u.
Proof.
  split; [exact sample_db_after_start|].
  exact (proj1 (proj2
    (@reachable_rows_kept sample_externals Running sample_started
       Running sample_db sample_db_after_start))).
Defined.

(** ** A request leaves the other companies' rows alone *)

Section Frame.
Context {R : Type}.
Implicit Types (t : table R) (p : R → bool) (f : R → R) (k : Z).

(** The rows [q] picks out are the same in [t] and [t']. *)
Lemma insert_row_frame (q : R → Prop) r t k x :
  ¬ q r → q x →
  rows (insert_row r t) !! k = Some x ↔ rows t !! k = Some x.
Proof.
  intros Hr Hx. split.
  - intros [[_ ->]|Hk]%insert_row_inv; [done|done].
  - apply insert_row_old.
Qed.

Lemma update_row_frame (q : R → Prop) k0 p f t k x :
  (∀ r, p r = true → ¬ q r ∧ ¬ q (f r)) → q x →
  rows (update_row k0 p f t) !! k = Some x ↔ rows t !! k = Some x.
Proof.
  intros Hp Hx. split.
  - intros (r & Hk & [->|(-> & Hr & _)])%update_row_inv; [done|].
    by destruct (Hp r Hr) as [_ []].
  - intros Hk. rewrite update_row_lookup, Hk. case_decide; [|done].
    simpl. destruct (p x) eqn:E; [|done]. by destruct (Hp x E) as [[] _].
Qed.

End Frame.

Section Isolation.
Context {Ext : Externals}.
Implicit Types (s : session) (f : form) (d : DB) (cid k : Z).

Lemma logged_out_handle r s d :
  request_session r = Some s →
  (∀ h : SE DB response, login_required s h = mret (Redirect "login")) →
  handle r d = (Redirect "login", d).
Proof.
  intros Hr Hs.
  destruct r; simplify_eq/=; unfold handle;
    [unfold add_lead|unfold update_lead_status|unfold convert_lead
    |unfold update_job_status|unfold create_invoice|unfold mark_paid
    |unfold add_task|unfold toggle_task];
    by rewrite logged_out_run.
Qed.

Lemma session_frame r s cid d :
  request_session r = Some s →
  company_id s ≠ Some cid →
  let d' := (handle r d).2 in
  companies d' = companies d
  ∧ users d' = users d
  ∧ (∀ k l, l_company_id l = Some cid →
       rows (leads d') !! k = Some l ↔ rows (leads d) !! k = Some l)
  ∧ (∀ k j, j_company_id j = Some cid →
       rows (jobs d') !! k = Some j ↔ rows (jobs d) !! k = Some j)
  ∧ (∀ k i, i_company_id i = Some cid →
       rows (invoices d') !! k = Some i ↔ rows (invoices d) !! k = Some i)
  ∧ (∀ k t, t_company_id t = cid →
       rows (tasks d') !! k = Some t ↔ rows (tasks d) !! k = Some t).
Proof.
  intros Hr Hc. cbv zeta.
  destruct (session_cases s) as [[cid0 Hs]|Hs];
    [|by rewrite (logged_out_handle _ _ _ Hr Hs)].
  assert (cid0 ≠ cid) as Hne.
  { destruct Hs as (_ & E & _). congruence. }
  assert (∀ l, lead_in cid0 l = true → l_company_id l ≠ Some cid) as Hl.
  { intros l E%bool_decide_eq_true_1. congruence. }
  assert (∀ j, job_in cid0 j = true → j_company_id j ≠ Some cid) as Hj.
  { intros j E%bool_decide_eq_true_1. congruence. }
  assert (∀ i, invoice_in cid0 i = true → i_company_id i ≠ Some cid) as Hi.
  { intros i E%bool_decide_eq_true_1. congruence. }
  assert (∀ t, task_in cid0 t = true → t_company_id t ≠ cid) as Ht.
  { intros t E%bool_decide_eq_true_1. congruence. }
  destruct r; simplify_eq/=; unfold handle.
  - rewrite (add_lead_run _ _ _ _ _ Hs). cbv zeta.
    case_match; [done|]. db_simpl. repeat (split; [done|]).
    split; [|done]. intros k0 x Ex.
    apply (insert_row_frame (λ l, l_company_id l = Some cid)); [|done].
    simpl. congruence.
  - rewrite (update_lead_status_run _ _ _ _ _ Hs). cbv zeta.
    repeat case_match; try done. db_simpl. repeat (split; [done|]).
    split; [|done]. intros k0 x Ex.
    apply (update_row_frame (λ l, l_company_id l = Some cid)); [|done].
    intros r Hr. split; by apply Hl.
  - rewrite (convert_lead_run _ _ _ _ _ _ Hs).
    case_match; [|done]. db_simpl. repeat (split; [done|]).
    split; [|split; [|done]].
    + intros k0 x Ex.
      apply (update_row_frame (λ l, l_company_id l = Some cid)); [|done].
      intros r Hr. split; by apply Hl.
    + intros k0 x Ex.
      apply (insert_row_frame (λ j, j_company_id j = Some cid)); [|done].
      simpl. congruence.
  - rewrite (update_job_status_run _ _ _ _ _ Hs). cbv zeta.
    repeat case_match; try done. db_simpl. repeat (split; [done|]).
    split; [|done]. intros k0 x Ex.
    apply (update_row_frame (λ j, j_company_id j = Some cid)); [|done].
    intros r Hr. split; by apply Hj.
  - rewrite (create_invoice_run _ _ _ _ _ _ _ Hs).
    repeat case_match; try done. db_simpl. repeat (split; [done|]).
    split; [|done]. intros k0 x Ex.
    apply (insert_row_frame (λ i, i_company_id i = Some cid)); [|done].
    simpl. congruence.
  - rewrite (mark_paid_run _ _ _ _ _ Hs).
    case_match; [|done]. db_simpl. repeat (split; [done|]).
    split; [|done]. intros k0 x Ex.
    apply (update_row_frame (λ i, i_company_id i = Some cid)); [|done].
    intros r Hr. split; by apply Hi.
  - rewrite (add_task_run _ _ _ _ _ _ Hs). cbv zeta.
    repeat case_match; try done. db_simpl. repeat (split; [done|]).
    intros k0 x Ex.
    apply (insert_row_frame (λ t, t_company_id t = cid)); [|done].
    simpl. congruence.
  - rewrite (toggle_task_run _ _ _ _ Hs).
    case_match; [|done]. db_simpl. repeat (split; [done|]).
    intros k0 x Ex.
    apply (update_row_frame (λ t, t_company_id t = cid)); [|done].
    intros r Hr. split; by apply Ht.
Qed.

End Isolation.

(** X6.  A request that carries another company's session changes no row
    of company [cid] and adds none to it: the companies and users tables
    are left as they are, and the leads, jobs, invoices and tasks of [cid]
    are the same rows under the same rowids before and after. *)
Theorem tenant_write_isolation `{Ext : Externals} r s cid d :
  request_session r = Some s →
  company_id s ≠ Some cid →
  let d' := (handle r d).2 in
  companies d' = companies d
  ∧ users d' = users d
  ∧ (∀ k l, l_company_id l = Some cid →
       rows (leads d') !! k = Some l ↔ rows (leads d) !! k = Some l)
  ∧ (∀ k j, j_company_id j = Some cid →
       rows (jobs d') !! k = Some j ↔ rows (jobs d) !! k = Some j)
  ∧ (∀ k i, i_company_id i = Some cid →
       rows (invoices d') !! k = Some i ↔ rows (invoices d) !! k = Some i)
  ∧ (∀ k t, t_company_id t = cid →
       rows (tasks d') !! k = Some t ↔ rows (tasks d) !! k = Some t).
Proof. apply session_frame. Qed.

Lemma tenant_write_isolation_witness :
  request_session (ToggleTask bolt 2) = Some bolt
  ∧ company_id bolt ≠ Some 2
  ∧ ∀ k t, t_company_id t = 2 →
      rows (tasks (@handle sample_externals (ToggleTask bolt 2)
                     sample_db).2) !! k = Some t
      ↔ rows (tasks sample_db) !! k = Some t.
Proof.
  split; [reflexivity|]. split; [discriminate|].
  assert (company_id bolt ≠ Some 2) as H by discriminate.
  exact (proj2 (proj2 (proj2 (proj2 (proj2
    (@tenant_write_isolation sample_externals (ToggleTask bolt 2) bolt 2
       sample_db eq_refl H)))))).
Defined.

(** X7.  Every route behind [login_required] -- the eight that write --
    answers a request whose session lacks a user id or a company id, or
    holds 0 for one of them, with a redirect to the login page, and leaves
    the store untouched, whatever the form and the rowid. *)
Theorem guarded_routes_need_login `{Ext : Externals} r s d :
  request_session r = Some s →
  truthy (user_id s) = false ∨ truthy (company_id s) = false →
  handle r d = (Redirect "login", d).
Proof.
  intros Hr Hs. apply (logged_out_handle _ s); [done|].
  intros h. unfold login_required.
  by destruct Hs as [-> | ->]; [|rewrite orb_true_r].
Qed.

Lemma guarded_routes_need_login_witness :
  request_session (MarkPaid {| user_id := Some 2; company_id := None |}
                     1 "t11")
  = Some {| user_id := Some 2; company_id := None |}
  ∧ @handle sample_externals
      (MarkPaid {| user_id := Some 2; company_id := None |} 1 "t11")
      sample_db
    = (Redirect "login", sample_db).
Proof.
  split; [reflexivity|].
  apply (@guarded_routes_need_login sample_externals _
           {| user_id := Some 2; company_id := None |}); [reflexivity|].
  right. reflexivity.
Defined.

(** ** Stored rows have passed validation *)

Section Fields.
Context {Ext : Externals}.
Implicit Types (d : DB).

Lemma fields_consistent_kept d d' :
  statement d d' → fields_consistent d → fields_consistent d'.
Proof.
  intros Hst (Hc & Hu & Hl & Hj & Hi & Ht). unfold fields_consistent.
  destruct Hst as
    [c d Hok|u cid d _ _ _ _ Hok
    |l cid d _ _ Hok|k cid st d _|cid d
    |j cid k l d Hk _ _ _ Hname _ Hdate Htech Hnotes|k cid st d _|cid d
    |i cid j d _ _ _ _ _ _ Hok|k cid now d|cid d
    |t j d _ _ _ Hok|k cid st d _];
    db_simpl;
    (split; [|split; [|split; [|split; [|split]]]]); try done.
  - intros k x [[-> ->]|Hk]%insert_row_inv; by eauto.
  - intros k x [[-> ->]|Hk]%insert_row_inv; by eauto.
  - intros k x [[-> ->]|Hk]%insert_row_inv; by eauto.
  - intros k' x (r & Hk & [->|(-> & _)])%update_row_inv;
      [by eauto|exact (Hl _ _ Hk)].
  - intros k' x (r & Hk & [->|(-> & _)])%update_where_inv;
      [by eauto|exact (Hl _ _ Hk)].
  - intros k' x [[-> ->]|Hk']%insert_row_inv; [|by eauto].
    split; [|done]. rewrite Hname. by destruct (Hl _ _ Hk).
  - intros k' x (r & Hk & [->|(-> & _)])%update_row_inv;
      [by eauto|exact (Hj _ _ Hk)].
  - intros k' x (r & Hk & [->|(-> & _)])%update_where_inv;
      [by eauto|exact (Hj _ _ Hk)].
  - intros k' x [[-> ->]|Hk']%insert_row_inv; by eauto.
  - intros k' x (r & Hk & [->|(-> & _)])%update_row_inv;
      [by eauto|exact (Hi _ _ Hk)].
  - intros k' x (r & Hk & [->|(-> & _)])%update_where_inv;
      [by eauto|exact (Hi _ _ Hk)].
  - intros k' x [[-> ->]|Hk']%insert_row_inv; by eauto.
  - intros k' x (r & Hk & [->|(-> & _)])%update_row_inv;
      [by eauto|exact (Ht _ _ Hk)].
Qed.

Lemma fields_consistent_empty : fields_consistent empty_db.
Proof.
  unfold fields_consistent.
  (split; [|split; [|split; [|split; [|split]]]]); intros ???;
    by simplify_map_eq.
Qed.

Lemma reachable_fields_consistent p d :
  reachable fresh (p, d) → fields_consistent d.
Proof.
  intros Hr%reachable_statements. simpl in Hr.
  assert (∀ d d', rtc statement d d' →
                  fields_consistent d → fields_consistent d') as H.
  { induction 1; eauto using fields_consistent_kept. }
  eapply H; [done|apply fields_consistent_empty].
Qed.

End Fields.

(** X8.  In every store a fresh deployment can reach, each row has passed
    its handler's validation: company names, usernames, lead names and
    phones, job customer names and task titles are not empty and carry no
    whitespace at either end; the optional texts of a lead, a job's
    technician and a task's assignee are NULL or such a text, never the
    empty string; a job's scheduled date and an invoice's or task's due date
    are NULL or a text that [strptime] accepts; job notes and invoice
    customer emails are NULL, as nothing ever writes them. *)
Theorem reachable_fields_validated `{Ext : Externals} p d :
  reachable fresh (p, d) →
  (∀ k c, rows (companies d) !! k = Some c → text_ok (c_name c))
  ∧ (∀ k u, rows (users d) !! k = Some u → text_ok (u_username u))
  ∧ (∀ k l, rows (leads d) !! k = Some l →
       text_ok (l_name l) ∧ text_ok (l_phone l)
       ∧ opt_text_ok (l_service_type l) ∧ opt_text_ok (l_source l)
       ∧ opt_text_ok (l_address l) ∧ opt_text_ok (l_notes l))
  ∧ (∀ k j, rows (jobs d) !! k = Some j →
       text_ok (j_customer_name j) ∧ date_ok (j_scheduled_date j)
       ∧ opt_text_ok (j_technician j) ∧ j_notes j = None)
  ∧ (∀ k i, rows (invoices d) !! k = Some i →
       date_ok (i_due_date i) ∧ i_customer_email i = None)
  ∧ (∀ k t, rows (tasks d) !! k = Some t →
       text_ok (t_title t) ∧ date_ok (t_due_date t)
       ∧ opt_text_ok (t_assigned_to t)).
Proof. apply reachable_fields_consistent. Qed.

Lemma reachable_fields_validated_witness :
  reachable (@fresh sample_externals) (Running, sample_db)
  ∧ ∀ k t, rows (tasks sample_db) !! k = Some t →
      text_ok (t_title t) ∧ @date_ok sample_externals (t_due_date t)
      ∧ opt_text_ok (t_assigned_to t).
Proof.
  split; [exact sample_db_reachable|].
  exact (proj2 (proj2 (proj2 (proj2 (proj2
    (@reachable_fields_validated sample_externals Running sample_db
       sample_db_reachable)))))).
Defined.

(** * The routes that only read *)

Section ReadRoutes.
Context {Ext : Externals} {Wz : Werkzeug} {Sq : Sqlite}.
Implicit Types (s : session) (f : form) (d : DB) (cid k : Z).

Lemma login_run method f d :
  respond (login method f) d =
    if bool_decide (0 < count_rows (users d))%nat then
      match method with
      | GET => (Render "login.html" None, d)
      | POST =>
          match select_first (username_is (field "username" f)) (users d)
          with
          | Some (id, u) =>
              if check_password_hash (u_password_hash u)
                   (field "password" f)
              then (RedirectLoggedIn "dashboard"
                      {| user_id := Some id;
                         company_id := u_company_id u |}, d)
              else (Render "login.html"
                      (Some "Wrong username or password."), d)
          | None =>
              (Render "login.html" (Some "Wrong username or password."), d)
          end
      end
    else (Redirect "setup", d).
Proof.
  unfold login, respond, mbind, se_bind. rewrite any_users_exist_run.
  destruct (bool_decide _); [|done]. destruct method; [done|].
  fold (field "username" f) (field "password" f). se_simpl.
  unfold username_is.
  destruct (select_first _ (users d)) as [[id u]|]; [|done].
  by destruct (check_password_hash _ _).
Qed.

Lemma login_required_page_logged_in s cid (h : SE DB page) :
  logged_in s cid → login_required_page s h = h.
Proof.
  intros (Hu & Hc & Hz). unfold login_required_page. rewrite Hu, Hc. simpl.
  by destruct (Z.eqb_spec cid 0).
Qed.

Lemma dashboard_run s cid today d :
  logged_in s cid →
  respond_page (dashboard s today) d
  = (RenderDashboard (dashboard_context_of cid today d), d).
Proof.
  intros Hs. unfold dashboard.
  rewrite (login_required_page_logged_in _ _ _ Hs).
  unfold respond_page, mbind, se_bind.
  by rewrite (current_company_id_logged_in _ _ _ Hs).
Qed.

Lemma dashboard_logged_out s today d :
  truthy (user_id s) = false ∨ truthy (company_id s) = false →
  respond_page (dashboard s today) d = (Plain (Redirect "login"), d).
Proof.
  intros Hs. unfold dashboard, login_required_page.
  by destruct Hs as [-> | ->]; [|rewrite orb_true_r].
Qed.

Lemma owner_companies_run s d :
  respond_page (owner_companies s) d =
    match user_id s with
    | Some uid =>
        if negb (truthy (Some uid)) then (Plain (Redirect "login"), d)
        else
          match rows (users d) !! uid with
          | Some u =>
              if bool_decide (u_role u = "super_admin")
              then (RenderCompanies
                      (order_by true cc_created_at (company_counts d)), d)
              else (Plain (Status 403), d)
          | None => (Plain (Status 403), d)
          end
    | None => (Plain (Redirect "login"), d)
    end.
Proof.
  unfold owner_companies, super_admin_required, respond_page.
  destruct (user_id s) as [uid|]; [|done].
  destruct (negb (truthy (Some uid))); [done|]. se_simpl.
  destruct (rows (users d) !! uid) as [u|]; [|done].
  by destruct (bool_decide _).
Qed.

End ReadRoutes.

(** ** The order of a scan *)

Section ScanOrder.
Context {R : Type}.
Implicit Types (t : table R) (p : R → bool) (k : Z).

Lemma rowid_lt_antisymm : AntiSymm (=) (@rowid_lt R).
Proof. intros a b. unfold rowid_lt. lia. Qed.

Lemma rowid_le_trans : Transitive (@rowid_le R).
Proof. intros a b c. unfold rowid_le. lia. Qed.

Lemma rowid_le_total : Total (@rowid_le R).
Proof. intros a b. unfold rowid_le. lia. Qed.

Lemma scan_sorted t : StronglySorted rowid_lt (scan t).
Proof.
  assert (StronglySorted rowid_le (scan t)) as Hs
    by apply (@StronglySorted_merge_sort _ _ _ rowid_le_trans rowid_le_total).
  pose proof (NoDup_scan t) as Hn.
  induction Hs as [|x l _ IH Hx]; [constructor|].
  rewrite fmap_cons in Hn. apply NoDup_cons in Hn as [Hx' Hn].
  constructor; [by apply IH|].
  apply Forall_forall. intros y Hy.
  rewrite Forall_forall in Hx. specialize (Hx y Hy).
  assert (y.1 ∈ l.*1) by (apply list_elem_of_fmap; eauto).
  unfold rowid_lt, rowid_le in *.
  destruct (decide (x.1 = y.1)) as [E|]; [|lia]. by rewrite E in Hx'.
Qed.

Lemma NoDup_scan_rows t : NoDup (scan t).
Proof. eapply NoDup_fmap_1, NoDup_scan. Qed.

Lemma filter_sorted (P : Z * R → Prop) `{!∀ x, Decision (P x)}
    (l : list (Z * R)) :
  StronglySorted rowid_lt l → StronglySorted rowid_lt (filter P l).
Proof.
  induction 1 as [|x l _ IH Hx]; [constructor|].
  rewrite filter_cons. case_decide; [|done].
  constructor; [done|].
  apply Forall_forall. intros y [_ Hy]%list_elem_of_filter.
  rewrite Forall_forall in Hx. by apply Hx.
Qed.

(** Two lists in strict rowid order with the same members are equal. *)
Lemma sorted_members_eq (l1 l2 : list (Z * R)) :
  StronglySorted rowid_lt l1 → StronglySorted rowid_lt l2 →
  NoDup l1 → NoDup l2 → (∀ x, x ∈ l1 ↔ x ∈ l2) → l1 = l2.
Proof.
  intros H1 H2 N1 N2 Hm.
  apply (@StronglySorted_unique _ rowid_lt rowid_lt_antisymm); [done|done|].
  by apply NoDup_Permutation.
Qed.

Lemma elem_of_filter_scan p t k r :
  (k, r) ∈ filter (λ kr : Z * R, p kr.2) (scan t)
  ↔ rows t !! k = Some r ∧ p r = true.
Proof.
  rewrite list_elem_of_filter, elem_of_scan. simpl.
  rewrite Is_true_true. tauto.
Qed.

(** A filtered scan depends only on the rows the filter lets through. *)
Lemma filter_scan_ext p t t' :
  (∀ k r, p r = true → rows t' !! k = Some r ↔ rows t !! k = Some r) →
  filter (λ kr : Z * R, p kr.2) (scan t')
  = filter (λ kr : Z * R, p kr.2) (scan t).
Proof.
  intros H. apply sorted_members_eq.
  - apply filter_sorted, scan_sorted.
  - apply filter_sorted, scan_sorted.
  - apply NoDup_filter, NoDup_scan_rows.
  - apply NoDup_filter, NoDup_scan_rows.
  - intros [k r]. rewrite !elem_of_filter_scan.
    split; intros [Hk Hp]; (split; [|done]); by apply (H k r Hp).
Qed.

(** An insert is visited last. *)
Lemma scan_insert_row r t :
  scan (insert_row r t) = (scan t ++ [(next_rowid t, r)])%list.
Proof.
  apply sorted_members_eq.
  - apply scan_sorted.
  - apply StronglySorted_app_2.
    + intros [k x] y Hk%elem_of_scan ->%list_elem_of_singleton.
      unfold rowid_lt. simpl. by eapply next_rowid_above.
    + apply scan_sorted.
    + repeat constructor.
  - apply NoDup_scan_rows.
  - apply NoDup_app. split; [apply NoDup_scan_rows|]. split.
    + intros [k x] Hk%elem_of_scan [= -> ->]%list_elem_of_singleton.
      by rewrite next_rowid_fresh in Hk.
    + apply NoDup_singleton.
  - intros [k x]. rewrite elem_of_app, list_elem_of_singleton, !elem_of_scan.
    rewrite insert_row_lookup. case_decide as E.
    + subst k. rewrite next_rowid_fresh. split.
      * intros [= ->]. by right.
      * intros [?|[= ->]]; done.
    + split; [by left|]. intros [?|[= ? ?]]; done.
Qed.

Lemma select_desc_members p t k r :
  (k, r) ∈ select_desc p t ↔ rows t !! k = Some r ∧ p r = true.
Proof. unfold select_desc. by rewrite elem_of_reverse, elem_of_filter_scan. Qed.

Lemma select_first_unique p t k r :
  rows t !! k = Some r → p r = true →
  (∀ k' r', rows t !! k' = Some r' → p r' = true → k' = k) →
  select_first p t = Some (k, r).
Proof.
  intros Hk Hp Hu.
  destruct (select_first_is_Some p t k r Hk Hp) as [[k' r'] E].
  destruct (select_first_Some _ _ _ _ E) as [Hk' Hp'].
  rewrite E. pose proof (Hu _ _ Hk' Hp') as ->. congruence.
Qed.

End ScanOrder.

(** ** What the dashboard shows *)

Section Dashboard.
Context {Ext : Externals} {Wz : Werkzeug} {Sq : Sqlite}.
Implicit Types (s : session) (f : form) (d : DB) (cid k : Z).



Lemma overdue_members cid today d k i :
  (k, i) ∈ ctx_overdue_invoices (dashboard_context_of cid today d)
  ↔ rows (invoices d) !! k = Some i
    ∧ i_company_id i = Some cid ∧ i_status i = "Unpaid"
    ∧ ∃ due, i_due_date i = Some due ∧ String.ltb due today = true.
Proof.
  cbn [ctx_overdue_invoices dashboard_context_of].
  rewrite order_by_perm.
  rewrite (elem_of_filter_scan
             (λ i, invoice_in cid i && is_unpaid i && due_before today i)).
  rewrite !andb_true_iff. unfold invoice_in, is_unpaid, due_before.
  rewrite !bool_decide_eq_true.
  split.
  - intros (Hk & [[Hc Hu] Hdue]). repeat (split; [done|]).
    destruct (i_due_date i) as [due|]; [by exists due|done].
  - intros (Hk & Hc & Hu & due & Hd & Hlt). repeat (split; [done|]).
    by rewrite Hd.
Qed.

(** The dashboard of [cid] reads nothing but the company row of [cid] and
    the rows that carry [cid]. *)
Lemma dashboard_context_ext cid today d d' :
  rows (companies d') !! cid = rows (companies d) !! cid →
  (∀ k l, l_company_id l = Some cid →
     rows (leads d') !! k = Some l ↔ rows (leads d) !! k = Some l) →
  (∀ k j, j_company_id j = Some cid →
     rows (jobs d') !! k = Some j ↔ rows (jobs d) !! k = Some j) →
  (∀ k i, i_company_id i = Some cid →
     rows (invoices d') !! k = Some i ↔ rows (invoices d) !! k = Some i) →
  (∀ k t, t_company_id t = cid →
     rows (tasks d') !! k = Some t ↔ rows (tasks d) !! k = Some t) →
  dashboard_context_of cid today d' = dashboard_context_of cid today d.
Proof.
  intros Hc Hl Hj Hi Ht. unfold dashboard_context_of, select_desc,
    count_where. rewrite Hc.
  assert (∀ q : lead → bool,
            filter (λ kr : Z * lead, lead_in cid kr.2 && q kr.2)
              (scan (leads d'))
            = filter (λ kr : Z * lead, lead_in cid kr.2 && q kr.2)
                (scan (leads d))) as El.
  { intros q. apply (filter_scan_ext (λ l, lead_in cid l && q l)).
    intros k l [E%bool_decide_eq_true_1 _]%andb_true_iff. by apply Hl. }
  assert (∀ q : job → bool,
            filter (λ kr : Z * job, job_in cid kr.2 && q kr.2)
              (scan (jobs d'))
            = filter (λ kr : Z * job, job_in cid kr.2 && q kr.2)
                (scan (jobs d))) as Ej.
  { intros q. apply (filter_scan_ext (λ j, job_in cid j && q j)).
    intros k j [E%bool_decide_eq_true_1 _]%andb_true_iff. by apply Hj. }
  assert (∀ q : invoice Amount → bool,
            filter (λ kr : Z * invoice Amount, invoice_in cid kr.2 && q kr.2)
              (scan (invoices d'))
            = filter (λ kr : Z * invoice Amount,
                        invoice_in cid kr.2 && q kr.2)
                (scan (invoices d))) as Ei.
  { intros q. apply (filter_scan_ext (λ i, invoice_in cid i && q i)).
    intros k i [E%bool_decide_eq_true_1 _]%andb_true_iff. by apply Hi. }
  rewrite (filter_scan_ext (lead_in cid) (leads d) (leads d')),
    (filter_scan_ext (job_in cid) (jobs d) (jobs d')),
    (filter_scan_ext (task_in cid) (tasks d) (tasks d')),
    (filter_scan_ext (invoice_in cid) (invoices d) (invoices d')).
  - rewrite (El is_new), (El (created_on today)),
      (Ej (scheduled_on today)), (Ei is_unpaid).
    f_equal. f_equal.
    apply (filter_scan_ext
             (λ i, invoice_in cid i && is_unpaid i && due_before today i)).
    intros k i [[E%bool_decide_eq_true_1 _]%andb_true_iff _]%andb_true_iff.
    by apply Hi.
  - intros k i E%bool_decide_eq_true_1. by apply Hi.
  - intros k t E%bool_decide_eq_true_1. by apply Ht.
  - intros k j E%bool_decide_eq_true_1. by apply Hj.
  - intros k l E%bool_decide_eq_true_1. by apply Hl.
Qed.

End Dashboard.

(** ** Requests of others and the dashboard *)

Section Others.
Context {Ext : Externals}.
Implicit Types (s : session) (f : form) (d : DB) (cid k : Z).

Lemma update_where_frame {R} (q : R → Prop) (p : R → bool) (g : R → R)
    (t : table R) k x :
  (∀ r, p r = true → ¬ q r ∧ ¬ q (g r)) → q x →
  rows (update_where p g t) !! k = Some x ↔ rows t !! k = Some x.
Proof.
  intros Hp Hx. split.
  - intros (r & Hk & [->|(-> & Hr)])%update_where_inv; [done|].
    by destruct (Hp r Hr) as [_ []].
  - intros Hk. rewrite update_where_lookup, Hk. simpl.
    destruct (p x) eqn:E; [|done]. by destruct (Hp x E) as [[] _].
Qed.

(** A request that does not carry the session of company [cid] leaves the
    company row of [cid] and the rows that carry [cid] as they are. *)
Lemma handle_frame r cid d :
  (∀ s, request_session r = Some s → company_id s ≠ Some cid) →
  is_Some (rows (companies d) !! cid) →
  let d' := (handle r d).2 in
  rows (companies d') !! cid = rows (companies d) !! cid
  ∧ (∀ k l, l_company_id l = Some cid →
       rows (leads d') !! k = Some l ↔ rows (leads d) !! k = Some l)
  ∧ (∀ k j, j_company_id j = Some cid →
       rows (jobs d') !! k = Some j ↔ rows (jobs d) !! k = Some j)
  ∧ (∀ k i, i_company_id i = Some cid →
       rows (invoices d') !! k = Some i ↔ rows (invoices d) !! k = Some i)
  ∧ (∀ k t, t_company_id t = cid →
       rows (tasks d') !! k = Some t ↔ rows (tasks d) !! k = Some t).
Proof.
  intros Hr [c Hc]. cbv zeta.
  destruct (request_session r) as [s|] eqn:Es.
  { destruct (session_frame r s cid d Es (Hr s eq_refl))
      as (-> & _ & Hl & Hj & Hi & Ht). done. }
  assert (next_rowid (companies d) ≠ cid) as Hne.
  { intros <-. by rewrite next_rowid_fresh in Hc. }
  destruct r; simplify_eq/=; unfold handle.
  - (* setup *)
    rewrite setup_run.
    destruct (bool_decide _); [done|]. destruct method; [done|].
    destruct (fields_missing f); [done|].
    destruct (select_first _ (users d)); [done|].
    unfold setup_writes. cbv zeta. db_simpl. rewrite insert_row_seqno.
    split; [|split; [|split; [|split]]]; [| | | |done].
    + rewrite insert_row_lookup. by rewrite decide_False.
    + intros k l El.
      apply (update_where_frame (λ l, l_company_id l = Some cid)); [|done].
      intros x Hx. split; [by destruct (l_company_id x)|].
      simpl. congruence.
    + intros k j Ej.
      apply (update_where_frame (λ j, j_company_id j = Some cid)); [|done].
      intros x Hx. split; [by destruct (j_company_id x)|].
      simpl. congruence.
    + intros k i Ei.
      apply (update_where_frame (λ i, i_company_id i = Some cid)); [|done].
      intros x Hx. split; [by destruct (i_company_id x)|].
      simpl. congruence.
  - (* signup *)
    destruct (signup_alone_all_or_nothing method f now1 now2 d)
      as [->|[-> _]]; [done|].
    unfold signup_company. db_simpl.
    split; [|done]. rewrite insert_row_lookup. by rewrite decide_False.
  - (* the public invoice page *)
    rewrite public_invoice_run. by repeat case_match.
Qed.

End Others.

Section DashboardOthers.
Context {Ext : Externals} {Sq : Sqlite}.
Implicit Types (s : session) (f : form) (d : DB) (cid k : Z).

Lemma dashboard_context_others cid today rs d :
  is_Some (rows (companies d) !! cid) →
  Forall (λ r, ∀ s, request_session r = Some s → company_id s ≠ Some cid)
    rs →
  dashboard_context_of cid today (serve_all rs d)
  = dashboard_context_of cid today d.
Proof.
  intros Hc Hrs. revert d Hc.
  induction Hrs as [|r rs Hr _ IH]; intros d Hc; [done|].
  unfold serve_all. simpl. fold (serve_all rs (handle r d).2).
  destruct (handle_frame r cid d Hr Hc) as (Ec & Hl & Hj & Hi & Ht).
  rewrite IH by by rewrite Ec.
  by apply dashboard_context_ext.
Qed.

End DashboardOthers.



(** X10.  What the dashboard of company [cid] shows does not depend on
    what anyone else does: after any sequence of requests none of which
    carries a session of [cid] -- other companies' requests, signups,
    views of public invoice pages, calls of the setup route -- a member of
    [cid] is shown the same page as before. *)
Theorem dashboard_unaffected_by_others `{Ext : Externals} {Sq : Sqlite}
    s cid today rs d :
  logged_in s cid →
  is_Some (rows (companies d) !! cid) →
  Forall (λ r, ∀ s', request_session r = Some s' →
                     company_id s' ≠ Some cid) rs →
  (respond_page (dashboard s today) (serve_all rs d)).1
  = (respond_page (dashboard s today) d).1.
Proof.
  intros Hs Hc Hrs. rewrite !(dashboard_run _ _ _ _ Hs). cbn [fst].
  f_equal. by apply dashboard_context_others.
Qed.

Lemma dashboard_unaffected_by_others_witness :
  logged_in acme 2
  ∧ (@respond_page sample_externals
       (@dashboard sample_externals sample_sqlite acme "2024-06-01")
       (serve_all [ToggleTask bolt 2; MarkPaid bolt 2 "t11";
                   Signup POST cool_form "t12" "t12"] sample_db)).1
    = (@respond_page sample_externals
         (@dashboard sample_externals sample_sqlite acme "2024-06-01")
         sample_db).1.
Proof.
  split; [exact acme_logged_in|].
  apply (@dashboard_unaffected_by_others sample_externals sample_sqlite
           acme 2); [exact acme_logged_in|vm_compute; eauto|].
  repeat constructor; simpl; intros s' E; by simplify_eq.
Defined.

(** ** The dashboard after a write of one's own *)

Section DashboardOwn.
Context {Ext : Externals} {Sq : Sqlite}.
Implicit Types (s : session) (f : form) (d : DB) (cid k : Z).

Lemma select_desc_insert_row {R} (p : R → bool) (r : R) (t : table R) :
  select_desc p (insert_row r t)
  = if p r then (next_rowid t, r) :: select_desc p t else select_desc p t.
Proof.
  unfold select_desc. rewrite scan_insert_row, filter_app.
  rewrite filter_cons, filter_nil. simpl.
  destruct (p r); simpl.
  - by rewrite reverse_app.
  - by rewrite app_nil_r.
Qed.

End DashboardOwn.



(** X12.  Once [mark_paid] has accepted an invoice, the caller's dashboard
    shows it as Paid, with the time of the call, and no longer lists it as
    overdue, whatever the day; which other invoices are overdue is not
    affected. *)
Theorem mark_paid_on_dashboard `{Ext : Externals} {Sq : Sqlite}
    s cid k now today d :
  logged_in s cid →
  (respond (mark_paid s k now) d).1 = Redirect "dashboard" →
  let d' := (respond (mark_paid s k now) d).2 in
  ∃ ctx ctx',
    respond_page (dashboard s today) d = (RenderDashboard ctx, d)
    ∧ respond_page (dashboard s today) d' = (RenderDashboard ctx', d')
    ∧ (∃ i, (k, i) ∈ ctx_invoices ctx'
            ∧ i_status i = "Paid" ∧ i_paid_at i = Some now)
    ∧ (∀ i, (k, i) ∉ ctx_overdue_invoices ctx')
    ∧ (∀ k' i, k' ≠ k →
         (k', i) ∈ ctx_overdue_invoices ctx'
         ↔ (k', i) ∈ ctx_overdue_invoices ctx).
Proof.
  intros Hs. rewrite (mark_paid_run _ _ _ _ _ Hs).
  destruct (select_row _ _ _) as [i0|] eqn:Hsel; [|done].
  intros _. cbn [snd].
  apply select_row_Some in Hsel as [Hk Hp].
  eexists _, _.
  split; [by apply dashboard_run|]. split; [by apply dashboard_run|].
  split; [|split].
  - exists (set_paid now i0). split; [|done].
    cbn [dashboard_context_of ctx_invoices]. apply select_desc_members.
    db_simpl. split; [|done].
    rewrite update_row_lookup, decide_True, Hk by done. simpl.
    by rewrite Hp.
  - intros i. rewrite overdue_members. db_simpl.
    rewrite update_row_lookup, decide_True, Hk by done. simpl.
    rewrite Hp. by intros ([= <-] & _ & ? & _).
  - intros k' i Hne. rewrite !overdue_members. db_simpl.
    by rewrite update_row_lookup, decide_False.
Qed.

Lemma mark_paid_on_dashboard_witness :
  logged_in acme 2
  ∧ ∃ ctx',
      @respond_page sample_externals
        (@dashboard sample_externals sample_sqlite acme "2024-06-01")
        (@respond sample_externals (mark_paid acme 1 "t11") sample_db).2
      = (RenderDashboard ctx',
         (@respond sample_externals (mark_paid acme 1 "t11") sample_db).2)
      ∧ ∀ i, (1, i) ∉ ctx_overdue_invoices ctx'.
Proof.
  split; [exact acme_logged_in|].
  destruct (@mark_paid_on_dashboard sample_externals sample_sqlite acme 2
              1 "t11" "2024-06-01" sample_db acme_logged_in)
    as (ctx & ctx' & _ & H1 & _ & H2 & _).
  { reflexivity. }
  exists ctx'. split; [exact H1|exact H2].
Defined.

(** * Sessions *)

Section Sessions.
Context {Ext : Externals}.
Implicit Types (s : session) (f : form) (d : DB) (cid k : Z).

Lemma max_rowid_nonneg {R} (m : gmap Z R) : 0 ≤ max_rowid m.
Proof.
  unfold max_rowid. induction (map_to_list m).*1; simpl; lia.
Qed.

Lemma next_rowid_pos {R} (t : table R) : 0 < next_rowid t.
Proof. unfold next_rowid. pose proof (max_rowid_nonneg (rows t)). lia. Qed.

Lemma rowids_positive_kept d d' :
  statement d d' → rowids_positive d → rowids_positive d'.
Proof.
  intros Hst [Hc Hu]. destruct Hst; db_simpl; try done; split; try done.
  - intros k x [[-> _]|Hk]%insert_row_inv; [apply next_rowid_pos|by eauto].
  - intros k x [[-> _]|Hk]%insert_row_inv; [apply next_rowid_pos|by eauto].
Qed.

Lemma reachable_rowids_positive p d :
  reachable fresh (p, d) → rowids_positive d.
Proof.
  intros Hr%reachable_statements. simpl in Hr.
  assert (∀ d d', rtc statement d d' →
                  rowids_positive d → rowids_positive d') as H.
  { induction 1; eauto using rowids_positive_kept. }
  eapply H; [done|]. split; intros ???; by simplify_map_eq.
Qed.

Lemma truthy_pos k : 0 < k → truthy (Some k) = true.
Proof. intros H. simpl. by destruct (Z.eqb_spec k 0); [lia|]. Qed.

Lemma users_exist d k u :
  rows (users d) !! k = Some u →
  bool_decide (0 < count_rows (users d))%nat = true.
Proof.
  intros Hk. apply bool_decide_eq_true_2.
  unfold count_rows. destruct (size (rows (users d))) eqn:E; [|lia].
  apply map_size_empty_inv in E. by rewrite E, lookup_empty in Hk.
Qed.

(** What [signup] has done when it answers by logging the user in, no
    other connection writing meanwhile. *)
Lemma signup_alone_success method f now1 now2 d e s :
  (respond (signup method f now1 now2 id id) d).1 = RedirectLoggedIn e s →
  method = POST ∧ e = "dashboard"
  ∧ fields_missing f = false
  ∧ lower (field "username" f) ≠ "aptech_owner"
  ∧ select_first (username_is (field "username" f)) (users d) = None
  ∧ s = {| user_id := Some (next_rowid (users d));
           company_id := Some (next_rowid (companies d)) |}
  ∧ (respond (signup method f now1 now2 id id) d).2
    = with_users (insert_row (signup_admin f now1 now2 id d))
        (signup_company f now1 id d).
Proof.
  destruct method; [done|].
  destruct (fields_missing f) eqn:Hf.
  { unfold signup.
    fold (field "company_name" f) (field "username" f) (field "password" f).
    fold (fields_missing f). by rewrite Hf. }
  destruct (decide (lower (field "username" f) = "aptech_owner")) as [Hr|Hr].
  { unfold signup.
    fold (field "company_name" f) (field "username" f) (field "password" f).
    fold (fields_missing f). rewrite Hf.
    by rewrite bool_decide_eq_true_2. }
  rewrite signup_run by done. cbv zeta.
  change (id (signup_company f now1 id d)) with (signup_company f now1 id d).
  destruct (select_first _ (users d)) eqn:E; [done|].
  change (users (signup_company f now1 id d)) with (users d). rewrite E.
  rewrite (select_first_unique _ _ (next_rowid (users d))
             (signup_admin f now1 now2 id d)).
  - cbn [fst snd]. intros [= <- <-]. by repeat split.
  - db_simpl. apply insert_row_new.
  - by apply bool_decide_eq_true_2.
  - db_simpl. intros k' r' [[-> _]|Hk]%insert_row_inv Hp; [done|].
    apply (no_row_by_select _ _ E) in Hk. congruence.
Qed.

Lemma signup_alone_succeeds f now1 now2 d :
  fields_missing f = false →
  lower (field "username" f) ≠ "aptech_owner" →
  select_first (username_is (field "username" f)) (users d) = None →
  respond (signup POST f now1 now2 id id) d
  = (RedirectLoggedIn "dashboard"
       {| user_id := Some (next_rowid (users d));
          company_id := Some (next_rowid (companies d)) |},
     with_users (insert_row (signup_admin f now1 now2 id d))
       (signup_company f now1 id d)).
Proof.
  intros Hf Hr E. rewrite signup_run by done. cbv zeta.
  change (id (signup_company f now1 id d)) with (signup_company f now1 id d).
  rewrite E.
  change (users (signup_company f now1 id d)) with (users d). rewrite E.
  rewrite (select_first_unique _ _ (next_rowid (users d))
             (signup_admin f now1 now2 id d)); [done| | |].
  - db_simpl. apply insert_row_new.
  - by apply bool_decide_eq_true_2.
  - db_simpl. intros k' r' [[-> _]|Hk]%insert_row_inv Hp; [done|].
    apply (no_row_by_select _ _ E) in Hk. congruence.
Qed.

Lemma session_of_kept d d' s uid cid :
  rtc statement d d' → session_of d s uid cid → session_of d' s uid cid.
Proof.
  intros Hst (Hu & Hc & u & Hk & Hcid).
  repeat (split; [done|]). exists u. split; [|done].
  by apply (statements_rows_kept _ _ Hst).
Qed.

End Sessions.

Section Login.
Context {Ext : Externals} {Wz : Werkzeug}.
Implicit Types (s : session) (f : form) (d : DB) (cid k : Z).

Lemma login_logged_in method f d e s :
  (respond (login method f) d).1 = RedirectLoggedIn e s →
  method = POST ∧ e = "dashboard"
  ∧ ∃ uid u,
      rows (users d) !! uid = Some u
      ∧ u_username u = field "username" f
      ∧ check_password_hash (u_password_hash u) (field "password" f) = true
      ∧ s = {| user_id := Some uid; company_id := u_company_id u |}.
Proof.
  rewrite login_run. destruct (bool_decide _); [|done].
  destruct method; [done|].
  destruct (select_first _ (users d)) as [[uid u]|] eqn:E; [|done].
  destruct (check_password_hash _ _) eqn:Hchk; [|done].
  cbn [fst]. intros [= <- <-].
  apply select_first_Some in E as [Hk Hp%bool_decide_eq_true_1].
  repeat (split; [done|]). by exists uid, u.
Qed.

Lemma login_known_user f d uid u :
  (∀ k k' x x',
     rows (users d) !! k = Some x → rows (users d) !! k' = Some x' →
     u_username x = u_username x' → k = k') →
  rows (users d) !! uid = Some u →
  u_username u = field "username" f →
  respond (login POST f) d
  = (if check_password_hash (u_password_hash u) (field "password" f)
     then RedirectLoggedIn "dashboard"
            {| user_id := Some uid; company_id := u_company_id u |}
     else Render "login.html" (Some "Wrong username or password."), d).
Proof.
  intros Huniq Hk Hname. rewrite login_run, (users_exist _ _ _ Hk).
  rewrite (select_first_unique _ _ uid u); [by case_match|done| |].
  - by apply bool_decide_eq_true_2.
  - intros k' r' Hk' Hp%bool_decide_eq_true_1.
    apply (Huniq _ _ _ _ Hk' Hk). congruence.
Qed.

End Login.

(** X13.  [login] never writes.  It logs a user in only on a POST whose
    stripped username is that of a stored user and whose stripped password
    passes werkzeug's check against that user's hash, and the session it
    issues holds that user's rowid and company.  In a store a fresh
    deployment can reach, a POST with the username of a stored user is
    answered by the check alone: the dashboard for that user if it passes,
    the login page with an error otherwise.  Where there are no users yet,
    every request is sent to the setup page. *)
Theorem login_checks_credentials `{Ext : Externals} {Wz : Werkzeug}
    method f d :
  let out := respond (login method f) d in
  out.2 = d
  ∧ (∀ e s, out.1 = RedirectLoggedIn e s →
       method = POST ∧ e = "dashboard"
       ∧ ∃ uid u,
           rows (users d) !! uid = Some u
           ∧ u_username u = field "username" f
           ∧ check_password_hash (u_password_hash u) (field "password" f)
             = true
           ∧ s = {| user_id := Some uid; company_id := u_company_id u |})
  ∧ (∀ p uid u,
       reachable fresh (p, d) → method = POST →
       rows (users d) !! uid = Some u →
       u_username u = field "username" f →
       out.1
       = if check_password_hash (u_password_hash u) (field "password" f)
         then RedirectLoggedIn "dashboard"
                {| user_id := Some uid; company_id := u_company_id u |}
         else Render "login.html" (Some "Wrong username or password."))
  ∧ (count_rows (users d) = 0%nat → out.1 = Redirect "setup").
Proof.
  cbv zeta. split; [|split; [|split]].
  - rewrite login_run. by repeat case_match.
  - apply login_logged_in.
  - intros p uid u Hr -> Hk Hname.
    destruct (reachable_consistent _ Hr) as ((Huniq & _) & _).
    by rewrite (login_known_user f d uid u Huniq Hk Hname).
  - intros E. rewrite login_run, E. done.
Qed.

Lemma login_checks_credentials_witness :
  reachable (@fresh sample_externals) (Running, sample_db)
  ∧ (@respond sample_externals
       (@login sample_externals sample_werkzeug POST
          [("username", " ann "); ("password", "pw")]) sample_db).1
    = RedirectLoggedIn "dashboard" acme
  ∧ (@respond sample_externals
       (@login sample_externals sample_werkzeug POST
          [("username", "ann"); ("password", "pw2")]) sample_db).1
    = Render "login.html" (Some "Wrong username or password.").
Proof.
  split; [exact sample_db_reachable|].
  pose (ann := {| u_company_id := Some 2; u_username := "ann";
                  u_password_hash := "hash:pw"; u_role := "admin";
                  u_created_at := "t1" |}).
  split.
  - destruct (@login_checks_credentials sample_externals sample_werkzeug
                POST [("username", " ann "); ("password", "pw")] sample_db)
      as (_ & _ & H & _).
    rewrite (H Running 2 ann sample_db_reachable eq_refl);
      [reflexivity|vm_compute; reflexivity|reflexivity].
  - destruct (@login_checks_credentials sample_externals sample_werkzeug
                POST [("username", "ann"); ("password", "pw2")] sample_db)
      as (_ & _ & H & _).
    rewrite (H Running 2 ann sample_db_reachable eq_refl);
      [reflexivity|vm_compute; reflexivity|reflexivity].
Defined.

(** X14.  An account made by [signup] can log in from then on: if, in a
    store a fresh deployment can reach, a signup that runs alone logs its
    user in, then after any further requests, races, stops and restarts a
    login with the same form is answered with the same session, provided
    werkzeug's check accepts the password against the hash werkzeug made
    of it. *)
Theorem signup_then_login `{Ext : Externals} {Wz : Werkzeug}
    f now1 now2 d e s p' d' :
  reachable fresh (Running, d) →
  check_password_hash (generate_password_hash (field "password" f))
    (field "password" f) = true →
  (respond (signup POST f now1 now2 id id) d).1 = RedirectLoggedIn e s →
  reachable (Running, (respond (signup POST f now1 now2 id id) d).2)
    (p', d') →
  respond (login POST f) d' = (RedirectLoggedIn "dashboard" s, d').
Proof.
  intros Hr Hchk Hs Hr'.
  assert (reachable fresh (p', d')) as Hr''.
  { eapply reachable_trans; [|exact Hr'].
    apply (reachable_step _ _ (Serve (Signup POST f now1 now2))) in Hr.
    exact Hr. }
  destruct (signup_alone_success _ _ _ _ _ _ _ Hs)
    as (_ & _ & Hf & Hres & Hfree & -> & Hd1).
  rewrite Hd1 in Hr'.
  apply reachable_statements in Hr'. cbn [snd] in Hr'.
  destruct (statements_rows_kept _ _ Hr') as (_ & Hu & _).
  destruct (reachable_consistent _ Hr'') as ((Huniq & _) & _).
  rewrite (login_known_user f d' (next_rowid (users d))
             (signup_admin f now1 now2 id d) Huniq).
  - cbn [u_password_hash signup_admin new_admin]. by rewrite Hchk.
  - apply Hu. db_simpl. apply insert_row_new.
  - done.
Qed.

Lemma signup_then_login_witness :
  reachable (@fresh sample_externals) (Running, sample_db)
  ∧ @respond sample_externals
      (@login sample_externals sample_werkzeug POST cool_form)
      (@respond sample_externals
         (signup POST cool_form "t11" "t12" id id) sample_db).2
    = (RedirectLoggedIn "dashboard"
         {| user_id := Some 4; company_id := Some 4 |},
       (@respond sample_externals
          (signup POST cool_form "t11" "t12" id id) sample_db).2).
Proof.
  split; [exact sample_db_reachable|].
  apply (@signup_then_login sample_externals sample_werkzeug cool_form
           "t11" "t12" sample_db "dashboard" _ Running _
           sample_db_reachable).
  - reflexivity.
  - reflexivity.
  - apply reachable_refl.
Defined.

(** X15.  The sessions the application issues are sound.  A session that
    [login] issues in a store a fresh deployment can reach, or that a
    [signup] running alone issues in any store, names a stored user and
    that user's own company, which exists, and it passes [login_required]
    as a member of that company.  It goes on naming that user and company
    whatever happens later.  The session [logout] issues is empty, and
    every route behind [login_required] answers it with a redirect to the
    login page. *)
Theorem issued_sessions_sound `{Ext : Externals} {Wz : Werkzeug} d :
  (∀ p method f e s,
     reachable fresh (p, d) →
     (respond (login method f) d).1 = RedirectLoggedIn e s →
     ∃ uid cid,
       session_of d s uid cid ∧ logged_in s cid
       ∧ is_Some (rows (companies d) !! cid))
  ∧ (∀ method f now1 now2 e s,
       let out := respond (signup method f now1 now2 id id) d in
       out.1 = RedirectLoggedIn e s →
       ∃ uid cid,
         session_of out.2 s uid cid ∧ logged_in s cid
         ∧ is_Some (rows (companies out.2) !! cid))
  ∧ (∀ s uid cid p p' d',
       session_of d s uid cid → reachable (p, d) (p', d') →
       session_of d' s uid cid)
  ∧ (∃ s, respond logout d = (RedirectLoggedIn "login" s, d)
          ∧ ∀ r d', request_session r = Some s →
                    handle r d' = (Redirect "login", d')).
Proof.
  split; [|split; [|split]].
  - intros p method f e s Hr Hs.
    destruct (login_logged_in _ _ _ _ _ Hs)
      as (_ & _ & uid & u & Hk & _ & _ & ->).
    destruct (reachable_consistent _ Hr) as ((_ & _ & Hcomp) & _).
    destruct (reachable_rowids_positive _ _ Hr) as [Hpc Hpu].
    destruct (Hcomp _ _ Hk) as (cid & Hc & [c Hcx]).
    exists uid, cid. split; [|split].
    + repeat split; try done. by exists u.
    + split; [by apply truthy_pos, (Hpu uid u)|]. split; [done|].
      specialize (Hpc _ _ Hcx). lia.
    + by exists c.
  - intros method f now1 now2 e s out Hs. subst out.
    destruct (signup_alone_success _ _ _ _ _ _ _ Hs)
      as (_ & _ & _ & _ & _ & -> & ->).
    exists (next_rowid (users d)), (next_rowid (companies d)).
    split; [|split].
    + repeat split. exists (signup_admin f now1 now2 id d).
      split; [|done]. db_simpl. apply insert_row_new.
    + split; [apply truthy_pos, next_rowid_pos|]. split; [done|].
      pose proof (next_rowid_pos (companies d)). lia.
    + exists (new_company f now1). unfold signup_company. db_simpl.
      apply insert_row_new.
  - intros s uid cid p p' d' Hs Hr%reachable_statements.
    by eapply session_of_kept.
  - eexists. split; [reflexivity|].
    intros r d' Hr. by apply (logged_out_handle _ _ _ Hr).
Qed.

Lemma issued_sessions_sound_witness :
  reachable (@fresh sample_externals) (Running, sample_db)
  ∧ ∃ uid cid, session_of sample_db acme uid cid ∧ logged_in acme cid.
Proof.
  split; [exact sample_db_reachable|].
  destruct (@issued_sessions_sound sample_externals sample_werkzeug
              sample_db) as (H & _).
  destruct (H Running POST [("username", "ann"); ("password", "pw")]
              "dashboard" acme sample_db_reachable)
    as (uid & cid & H1 & H2 & _); [reflexivity|].
  by exists uid, cid.
Defined.

(** * The owner's list of companies *)

Section Counting.

Lemma sum_list_perm (l1 l2 : list nat) :
  l1 ≡ₚ l2 → sum_list l1 = sum_list l2.
Proof. induction 1; simpl; lia. Qed.

Lemma sum_list_fmap_plus {A} (g h : A → nat) (l : list A) :
  sum_list ((λ x, g x + h x)%nat <$> l)
  = (sum_list (g <$> l) + sum_list (h <$> l))%nat.
Proof. induction l as [|x l IH]; csimpl; lia. Qed.

Lemma sum_list_fmap_zero {A} (g : A → nat) (l : list A) :
  (∀ x, x ∈ l → g x = 0%nat) → sum_list (g <$> l) = 0%nat.
Proof.
  induction l as [|x l IH]; intros H; [done|]. csimpl.
  rewrite (H x) by left. rewrite IH; [done|]. intros y Hy. apply H. by right.
Qed.

(** In a list without duplicates, the indicator of one of its members sums
    to 1. *)
Lemma sum_list_indicator {A} (g : A → nat) (l : list A) a :
  NoDup l → a ∈ l → g a = 1%nat → (∀ x, x ∈ l → x ≠ a → g x = 0%nat) →
  sum_list (g <$> l) = 1%nat.
Proof.
  induction l as [|x l IH]; intros Hnd Hin Ha H0; [by inversion Hin|].
  apply NoDup_cons in Hnd as [Hx Hnd]. csimpl.
  apply elem_of_cons in Hin as [<-|Hin].
  - rewrite Ha, sum_list_fmap_zero; [done|].
    intros y Hy. apply H0; [by right|]. by intros ->.
  - rewrite (H0 x); [|by left|by intros ->]. simpl.
    apply IH; [done..|]. intros y Hy. apply H0. by right.
Qed.

Lemma sum_list_fmap_ext {A} (g h : A → nat) (l : list A) :
  (∀ x, g x = h x) → sum_list (g <$> l) = sum_list (h <$> l).
Proof.
  intros H. induction l as [|x l IH]; csimpl; [done|]. by rewrite H, IH.
Qed.

(** Sorting the members of a list into classes, each member into exactly
    one, and counting each class counts the list. *)
Lemma count_by_class {U C} (P : C → U → bool) (us : list U) (cs : list C) :
  NoDup cs →
  (∀ u, u ∈ us → ∃ c, c ∈ cs ∧ P c u = true) →
  (∀ u c c', P c u = true → P c' u = true → c = c') →
  sum_list ((λ c, List.length (filter (λ u, P c u) us)) <$> cs)
  = List.length us.
Proof.
  intros Hnd Hex Huniq. induction us as [|u us IH].
  { by apply sum_list_fmap_zero. }
  rewrite <- (sum_list_fmap_ext
    (λ c, (if P c u then 1 else 0) + List.length (filter (λ u, P c u) us))%nat).
  - rewrite sum_list_fmap_plus, IH; [|intros u' Hu'; apply Hex; by right].
    destruct (Hex u) as (c0 & Hc0 & Hp0); [left|].
    rewrite (sum_list_indicator _ cs c0); [done|done|done|by rewrite Hp0|].
    intros c Hc Hne. destruct (P c u) eqn:E; [|done].
    destruct Hne. by eapply Huniq.
  - intros c. rewrite filter_cons.
    destruct (P c u); simpl; repeat case_decide; simpl; done.
Qed.

End Counting.

Section Owner.
Context {Ext : Externals} {Sq : Sqlite}.
Implicit Types (s : session) (d : DB) (k : Z).

Lemma scan_length {R} (t : table R) : List.length (scan t) = count_rows t.
Proof.
  unfold scan, count_rows. rewrite merge_sort_Permutation.
  apply length_map_to_list.
Qed.

Lemma elem_of_company_counts d c :
  c ∈ company_counts d
  ↔ ∃ k x, rows (companies d) !! k = Some x
           ∧ c = {| cc_id := k; cc_name := c_name x;
                    cc_created_at := c_created_at x;
                    cc_user_count := user_count k d |}.
Proof.
  unfold company_counts. rewrite list_elem_of_fmap. split.
  - intros ([k x] & -> & Hin%elem_of_scan). by exists k, x.
  - intros (k & x & Hk & ->). exists (k, x).
    split; [done|]. by apply elem_of_scan.
Qed.

Lemma company_counts_ids d :
  cc_id <$> company_counts d = (scan (companies d)).*1.
Proof.
  unfold company_counts. rewrite <- list_fmap_compose.
  by apply list_fmap_ext.
Qed.

(** In a store where every user has a company that exists, the user counts
    of the companies add up to the number of users. *)
Lemma user_counts_sum d :
  users_consistent d →
  sum_list (cc_user_count <$> company_counts d) = count_rows (users d).
Proof.
  intros (_ & _ & Hcomp). rewrite <- scan_length.
  unfold company_counts. rewrite <- list_fmap_compose.
  transitivity
    (sum_list ((λ c, List.length
                       (filter (λ ku : Z * user,
                                  bool_decide (u_company_id ku.2 = Some c))
                          (scan (users d))))
               <$> (scan (companies d)).*1)).
  { rewrite <- list_fmap_compose. by apply sum_list_fmap_ext. }
  apply (count_by_class
           (λ c (ku : Z * user), bool_decide (u_company_id ku.2 = Some c))).
  - apply NoDup_scan.
  - intros [k u] Hk%elem_of_scan.
    destruct (Hcomp k u Hk) as (cid & Hc & [x Hx]).
    exists cid. split; [|by apply bool_decide_eq_true_2].
    apply list_elem_of_fmap. exists (cid, x).
    split; [done|]. by apply elem_of_scan.
  - intros u c c' E%bool_decide_eq_true_1 E'%bool_decide_eq_true_1.
    congruence.
Qed.

Lemma owner_companies_rendered s d l :
  (respond_page (owner_companies s) d).1 = RenderCompanies l →
  l = order_by true cc_created_at (company_counts d)
  ∧ ∃ uid u, user_id s = Some uid ∧ rows (users d) !! uid = Some u
             ∧ u_role u = "super_admin".
Proof.
  rewrite owner_companies_run.
  destruct (user_id s) as [uid|]; [|done].
  destruct (negb _); [done|].
  destruct (rows (users d) !! uid) as [u|] eqn:Hk; [|done].
  case_bool_decide as Hrole; [|done].
  cbn [fst]. intros [= <-]. split; [done|]. by exists uid, u.
Qed.

End Owner.



(** X17.  The list [owner_companies] renders holds every company once,
    each with its name, its creation time and the number of users whose
    company it is.  In a store a fresh deployment can reach, these numbers
    add up to the number of users: every user is counted, and under one
    company only. *)
Theorem owner_companies_lists_all `{Ext : Externals} {Sq : Sqlite} s d l :
  (respond_page (owner_companies s) d).1 = RenderCompanies l →
  (∀ c, c ∈ l
     ↔ ∃ k x, rows (companies d) !! k = Some x
              ∧ c = {| cc_id := k; cc_name := c_name x;
                       cc_created_at := c_created_at x;
                       cc_user_count := user_count k d |})
  ∧ NoDup (cc_id <$> l)
  ∧ List.length l = count_rows (companies d)
  ∧ (∀ p, reachable fresh (p, d) →
          sum_list (cc_user_count <$> l) = count_rows (users d)).
Proof.
  intros Hl. destruct (owner_companies_rendered _ _ _ Hl) as [-> _].
  split; [|split; [|split]].
  - intros c. rewrite order_by_perm. apply elem_of_company_counts.
  - rewrite order_by_perm, company_counts_ids. apply NoDup_scan.
  - rewrite order_by_perm. unfold company_counts.
    rewrite length_fmap. apply scan_length.
  - intros p Hr. rewrite order_by_perm.
    apply user_counts_sum. by destruct (reachable_consistent _ Hr).
Qed.

Lemma owner_companies_lists_all_witness :
  ∃ l, (@respond_page sample_externals
          (@owner_companies sample_externals sample_sqlite
             {| user_id := Some 1; company_id := Some 1 |})
          sample_db).1 = RenderCompanies l
       ∧ sum_list (cc_user_count <$> l) = count_rows (users sample_db).
Proof.
  pose (owner := {| u_company_id := Some 1; u_username := "aptech_owner";
                    u_password_hash := "hash:s3cret";
                    u_role := "super_admin"; u_created_at := "t0" |}).
  assert (rows (users sample_db) !! 1 = Some owner) as Hk
    by (vm_compute; reflexivity).
  assert ((@respond_page sample_externals
             (@owner_companies sample_externals sample_sqlite
                {| user_id := Some 1; company_id := Some 1 |})
             sample_db).1
          = RenderCompanies
              (@order_by _ sample_sqlite _ true cc_created_at
                 (company_counts sample_db))) as Hl.
  { rewrite owner_companies_run. cbn [user_id truthy Z.eqb negb].
    rewrite Hk. reflexivity. }
  eexists. split; [exact Hl|].
  destruct (@owner_companies_lists_all sample_externals sample_sqlite _ _ _
              Hl) as (_ & _ & _ & H).
  exact (H Running sample_db_reachable).
Defined.

(** * Job status updates *)

(** X18.  [update_job_status] reads the submitted status, takes
    [Scheduled] for it when it is missing or empty, and strips whitespace
    from both ends.  If the result is not one of Scheduled, In Progress,
    Completed and Canceled the answer is 400 and the store is untouched; a
    request that succeeds has one of the four, and on a job of the caller's
    company that one is what the job now holds, every other row and table
    being as before. *)
Theorem update_job_status_allow_list `{Ext : Externals} s cid f k d :
  logged_in s cid →
  let status := strip (or_default (form_get "status" f) "Scheduled") in
  let out := respond (update_job_status s f k) d in
  (status ∉ job_statuses → out = (Status 400, d))
  ∧ (out.1 = Redirect "dashboard" → status ∈ job_statuses)
  ∧ (form_get "status" f = None ∨ form_get "status" f = Some "" →
     status = "Scheduled")
  ∧ (status ∈ job_statuses →
     ∀ j, rows (jobs d) !! k = Some j → j_company_id j = Some cid →
          out.1 = Redirect "dashboard"
          ∧ rows (jobs out.2) = <[k := set_job_status status j]>
                                  (rows (jobs d))
          ∧ leads out.2 = leads d ∧ invoices out.2 = invoices d
          ∧ tasks out.2 = tasks d ∧ companies out.2 = companies d
          ∧ users out.2 = users d).
Proof.
  intros Hs status out. subst out.
  rewrite (update_job_status_run _ _ _ _ _ Hs). fold status. cbv zeta.
  split; [|split; [|split]].
  - intros Hn. by case_bool_decide.
  - by case_bool_decide.
  - subst status. by intros [-> | ->].
  - intros Hin j Hk Hc. case_bool_decide; [|done].
    assert (job_in cid j = true) as Hp by by apply bool_decide_eq_true_2.
    rewrite (select_row_in _ _ _ j) by done. db_simpl.
    split; [done|]. split; [|done]. by apply update_row_rows.
Qed.

Lemma update_job_status_allow_list_witness :
  logged_in acme 2
  ∧ @respond sample_externals
      (update_job_status acme [("status", "Done")] 1) sample_db
    = (Status 400, sample_db)
  ∧ j_status <$>
      rows (jobs (@respond sample_externals
                    (update_job_status acme [("status", " Completed ")] 1)
                    sample_db).2) !! 1
    = Some "Completed".
Proof.
  split; [exact acme_logged_in|]. split.
  - apply (@update_job_status_allow_list sample_externals acme 2
             [("status", "Done")] 1 sample_db acme_logged_in).
    compute_done.
  - edestruct (@update_job_status_allow_list sample_externals acme 2
                 [("status", " Completed ")] 1 sample_db acme_logged_in)
      as (_ & _ & _ & H).
    edestruct H as (_ & -> & _);
      [compute_done|vm_compute; reflexivity|reflexivity|].
    by rewrite lookup_insert_eq.
Defined.

(** * Requests that fail *)

(** X19.  A request that is served alone and is not answered with a
    redirect has written nothing: a 400, 404 or 500, an error page and the
    public invoice page all leave the store exactly as it was. *)
Theorem failed_request_writes_nothing `{Ext : Externals} r d :
  status_code (handle r d).1 ≠ 302 → (handle r d).2 = d.
Proof.
  destruct r; unfold handle.
  - rewrite setup_run. by repeat case_match.
  - destruct (signup_alone_all_or_nothing method f now1 now2 d)
      as [->|[_ [s ->]]]; done.
  - destruct (session_cases s) as [[cid Hs]|Hs].
    + rewrite (add_lead_run _ _ _ _ _ Hs). cbv zeta. by case_match.
    + unfold add_lead. by rewrite logged_out_run.
  - destruct (session_cases s) as [[cid Hs]|Hs].
    + rewrite (update_lead_status_run _ _ _ _ _ Hs). cbv zeta.
      by repeat case_match.
    + unfold update_lead_status. by rewrite logged_out_run.
  - destruct (session_cases s) as [[cid Hs]|Hs].
    + rewrite (convert_lead_run _ _ _ _ _ _ Hs). by case_match.
    + unfold convert_lead. by rewrite logged_out_run.
  - destruct (session_cases s) as [[cid Hs]|Hs].
    + rewrite (update_job_status_run _ _ _ _ _ Hs). cbv zeta.
      by repeat case_match.
    + unfold update_job_status. by rewrite logged_out_run.
  - destruct (session_cases s) as [[cid Hs]|Hs].
    + rewrite (create_invoice_run _ _ _ _ _ _ _ Hs). by repeat case_match.
    + unfold create_invoice. by rewrite logged_out_run.
  - rewrite public_invoice_run. by repeat case_match.
  - destruct (session_cases s) as [[cid Hs]|Hs].
    + rewrite (mark_paid_run _ _ _ _ _ Hs). by case_match.
    + unfold mark_paid. by rewrite logged_out_run.
  - destruct (session_cases s) as [[cid Hs]|Hs].
    + rewrite (add_task_run _ _ _ _ _ _ Hs). cbv zeta. by repeat case_match.
    + unfold add_task. by rewrite logged_out_run.
  - destruct (session_cases s) as [[cid Hs]|Hs].
    + rewrite (toggle_task_run _ _ _ _ Hs). by case_match.
    + unfold toggle_task. by rewrite logged_out_run.
Qed.

Lemma failed_request_writes_nothing_witness :
  status_code (@handle sample_externals
                 (AddTask acme bad_form 1 "t11") sample_db).1 = 400
  ∧ (@handle sample_externals (AddTask acme bad_form 1 "t11") sample_db).2
    = sample_db.
Proof.
  split; [reflexivity|].
  apply (@failed_request_writes_nothing sample_externals).
  assert (status_code (@handle sample_externals
                         (AddTask acme bad_form 1 "t11") sample_db).1 = 400)
    as -> by reflexivity.
  discriminate.
Defined.

(** * What a signup answers *)

(** X20.  A [signup] POST that runs alone has four outcomes.  With a
    company name, username or password that is empty once stripped, with
    the username [aptech_owner] in any mix of cases, or with a username
    some user already has, it renders the form again with the matching
    error and writes nothing.  Otherwise it adds one company and one user,
    an admin of that company, under fresh rowids, leaves every other table
    as it is, and answers with a session for that user and company. *)
Theorem signup_outcomes `{Ext : Externals} f now1 now2 d :
  let out := respond (signup POST f now1 now2 id id) d in
  let name := field "username" f in
  let cid := next_rowid (companies d) in
  let uid := next_rowid (users d) in
  (fields_missing f = true →
   out = (Render "signup.html" (Some "All fields are required."), d))
  ∧ (fields_missing f = false → lower name = "aptech_owner" →
     out = (Render "signup.html"
              (Some "That username is reserved. Please choose another."), d))
  ∧ (fields_missing f = false → lower name ≠ "aptech_owner" →
     (∃ k u, rows (users d) !! k = Some u ∧ u_username u = name) →
     out = (Render "signup.html"
              (Some "That username is already taken. Try another."), d))
  ∧ (fields_missing f = false → lower name ≠ "aptech_owner" →
     (∀ k u, rows (users d) !! k = Some u → u_username u ≠ name) →
     out.1 = RedirectLoggedIn "dashboard"
               {| user_id := Some uid; company_id := Some cid |}
     ∧ rows (companies d) !! cid = None
     ∧ rows (users d) !! uid = None
     ∧ rows (companies out.2) = <[cid := new_company f now1]>
                                  (rows (companies d))
     ∧ rows (users out.2) = <[uid := new_admin cid f now2]> (rows (users d))
     ∧ u_role (new_admin cid f now2) = "admin"
     ∧ u_password_hash (new_admin cid f now2)
       = generate_password_hash (field "password" f)
     ∧ leads out.2 = leads d ∧ jobs out.2 = jobs d
     ∧ invoices out.2 = invoices d ∧ tasks out.2 = tasks d).
Proof.
  cbv zeta. split; [|split; [|split]].
  - intros Hf. unfold signup.
    fold (field "company_name" f) (field "username" f) (field "password" f).
    fold (fields_missing f). by rewrite Hf.
  - intros Hf Hr. unfold signup.
    fold (field "company_name" f) (field "username" f) (field "password" f).
    fold (fields_missing f). rewrite Hf. by rewrite bool_decide_eq_true_2.
  - intros Hf Hr (k & u & Hk & Hu). rewrite signup_run by done. cbv zeta.
    destruct (select_first_is_Some (username_is (field "username" f))
                (users d) k u Hk) as [x ->]; [|done].
    by apply bool_decide_eq_true_2.
  - intros Hf Hr Hfree.
    rewrite signup_alone_succeeds; [| done | done |].
    + cbn [fst snd]. unfold signup_company. db_simpl.
      split; [done|]. split; [apply next_rowid_fresh|].
      split; [apply next_rowid_fresh|]. done.
    + apply select_first_None. intros k u Hk.
      apply bool_decide_eq_false_2. by eapply Hfree.
Qed.

Lemma signup_outcomes_witness :
  fields_missing
    [("company_name", "Evil"); ("username", " APtech_Owner ");
     ("password", "x")] = false
  ∧ @respond sample_externals
      (signup POST
         [("company_name", "Evil"); ("username", " APtech_Owner ");
          ("password", "x")] "t11" "t11" id id) sample_db
    = (Render "signup.html"
         (Some "That username is reserved. Please choose another."),
       sample_db).
Proof.
  split; [reflexivity|].
  apply (@signup_outcomes sample_externals); reflexivity.
Defined.

(** * A lead's conversion on the dashboard *)

(** X21.  Once [convert_lead] has accepted a lead, the caller's dashboard
    shows the new job first in its list of jobs, the jobs that were there
    following in their order; it shows the lead as Scheduled and no longer
    among the missed leads. *)
Theorem convert_lead_on_dashboard `{Ext : Externals} {Sq : Sqlite}
    s cid f k now today d :
  logged_in s cid →
  (respond (convert_lead s f k now) d).1 = Redirect "dashboard" →
  let d' := (respond (convert_lead s f k now) d).2 in
  ∃ l ctx ctx',
    respond_page (dashboard s today) d = (RenderDashboard ctx, d)
    ∧ respond_page (dashboard s today) d' = (RenderDashboard ctx', d')
    ∧ rows (leads d) !! k = Some l
    ∧ ctx_jobs ctx'
      = (next_rowid (jobs d), new_job cid k l f now) :: ctx_jobs ctx
    ∧ (k, set_lead_status "Scheduled" l) ∈ ctx_leads ctx'
    ∧ (∀ l', (k, l') ∉ ctx_missed_leads ctx').
Proof.
  intros Hs. rewrite (convert_lead_run _ _ _ _ _ _ Hs).
  destruct (select_row _ _ _) as [l|] eqn:Hsel; [|done].
  intros _. cbn [snd].
  apply select_row_Some in Hsel as [Hk Hp].
  exists l. eexists _, _.
  split; [by apply dashboard_run|]. split; [by apply dashboard_run|].
  split; [done|].
  cbn [dashboard_context_of ctx_jobs ctx_leads ctx_missed_leads]. db_simpl.
  split; [|split].
  - rewrite select_desc_insert_row.
    unfold job_in at 1. cbn [j_company_id new_job].
    by rewrite bool_decide_eq_true_2.
  - apply select_desc_members.
    rewrite update_row_lookup, decide_True, Hk by done. simpl.
    by rewrite Hp.
  - intros l'. rewrite select_desc_members.
    rewrite update_row_lookup, decide_True, Hk by done. simpl. rewrite Hp.
    intros [[= <-] [_ E%bool_decide_eq_true_1]%andb_true_iff].
    discriminate E.
Qed.

Lemma convert_lead_on_dashboard_witness :
  logged_in acme 2
  ∧ ∃ ctx' : @dashboard_context sample_externals,
      @respond_page sample_externals
        (@dashboard sample_externals sample_sqlite acme "2024-06-01")
        (@respond sample_externals (convert_lead acme [] 1 "t11")
           sample_db).2
      = (RenderDashboard ctx',
         (@respond sample_externals (convert_lead acme [] 1 "t11")
            sample_db).2)
      ∧ ∀ l', (1, l') ∉ ctx_missed_leads ctx'.
Proof.
  split; [exact acme_logged_in|].
  destruct (@convert_lead_on_dashboard sample_externals sample_sqlite acme 2
              [] 1 "t11" "2024-06-01" sample_db acme_logged_in)
    as (l & ctx & ctx' & _ & H1 & _ & _ & _ & H2).
  { reflexivity. }
  exists ctx'. split; [exact H1|exact H2].
Defined.

(** * The public page of a paid invoice *)

(** X22.  Payment shows on the public page.  When a member of company
    [cid] marks one of its invoices paid, and that invoice is the only one
    carrying its token, the public page for the token shows the invoice as
    Paid with the time of the call, under the name of the company and the
    customer name of the invoiced job, provided both rows exist. *)
Theorem mark_paid_on_public_page `{Ext : Externals}
    s cid k now d i token c j :
  logged_in s cid →
  rows (invoices d) !! k = Some i →
  i_company_id i = Some cid →
  i_public_token i = Some token →
  (∀ k' i', rows (invoices d) !! k' = Some i' →
            i_public_token i' = Some token → k' = k) →
  rows (companies d) !! cid = Some c →
  rows (jobs d) !! i_job_id i = Some j →
  let d' := (respond (mark_paid s k now) d).2 in
  (respond (mark_paid s k now) d).1 = Redirect "dashboard"
  ∧ respond (public_invoice token) d'
    = (RenderInvoice (set_paid now i) (c_name c) (j_customer_name j), d')
  ∧ i_status (set_paid now i) = "Paid"
  ∧ i_paid_at (set_paid now i) = Some now.
Proof.
  intros Hs Hk Hc Htok Huniq Hcomp Hjob. cbv zeta.
  rewrite (mark_paid_run _ _ _ _ _ Hs).
  assert (invoice_in cid i = true) as Hp by by apply bool_decide_eq_true_2.
  rewrite (select_row_in _ _ _ i) by done. cbn [fst snd].
  split; [done|]. split; [|done].
  rewrite public_invoice_run.
  rewrite (select_public_invoice_unique token _ k (set_paid now i)
             (set_paid now i, c_name c, j_customer_name j)); [done| | | |].
  - db_simpl. rewrite update_row_lookup, decide_True, Hk by done. simpl.
    by rewrite Hp.
  - done.
  - unfold join_invoice. cbn [i_company_id i_job_id set_paid]. db_simpl.
    rewrite Hc. simpl. rewrite Hcomp. simpl. by rewrite Hjob.
  - db_simpl.
    intros k' i' (r & Hr & [->|(-> & _)])%update_row_inv Ht;
      by eapply Huniq.
Qed.

Lemma mark_paid_on_public_page_witness :
  logged_in acme 2
  ∧ @respond sample_externals
      (public_invoice (token_urlsafe 24 sample_src))
      (@respond sample_externals (mark_paid acme 1 "t11") sample_db).2
    = (RenderInvoice
         (set_paid "t11"
            (@new_invoice sample_externals 2
               [("amount", "150"); ("due_date", "2024-05-15")] 1 "t6"
               sample_src 150))
         (c_name acme_company) (j_customer_name jane_job),
       (@respond sample_externals (mark_paid acme 1 "t11") sample_db).2).
Proof.
  split; [exact acme_logged_in|].
  pose (inv := @new_invoice sample_externals 2
                 [("amount", "150"); ("due_date", "2024-05-15")] 1 "t6"
                 sample_src 150).
  assert (rows (invoices sample_db) !! 1 = Some inv) as H1
    by (vm_compute; reflexivity).
  assert (rows (companies sample_db) !! 2 = Some acme_company) as H2
    by (vm_compute; reflexivity).
  assert (rows (jobs sample_db) !! i_job_id inv = Some jane_job) as H3
    by (vm_compute; reflexivity).
  assert (∀ k' i', rows (invoices sample_db) !! k' = Some i' →
            i_public_token i' = Some (token_urlsafe 24 sample_src) →
            k' = 1) as Huniq.
  { intros k' i' Hk' Ht.
    destruct (decide (k' = 1)) as [->|Hne]; [done|].
    destruct (decide (k' = 2)) as [->|Hne2].
    - assert (i_public_token <$> rows (invoices sample_db) !! 2
              = Some (Some (token_urlsafe 24 sample_src'))) as E
        by (vm_compute; reflexivity).
      rewrite Hk' in E. simpl in E. injection E as E.
      pose proof (eq_trans (eq_sym Ht) E) as E'.
      vm_compute in E'. discriminate E'.
    - assert (dom (rows (invoices sample_db)) = {[1; 2]}) as Hdom
        by (vm_compute; reflexivity).
      assert (k' ∈ dom (rows (invoices sample_db))) as Hin
        by (apply elem_of_dom; by eexists).
      rewrite Hdom in Hin. clear -Hin Hne Hne2.
      apply elem_of_union in Hin as [Hin|Hin];
        apply elem_of_singleton in Hin; contradiction. }
  exact (proj1 (proj2
    (@mark_paid_on_public_page sample_externals acme 2 1 "t11" sample_db
       inv (token_urlsafe 24 sample_src) acme_company jane_job
       acme_logged_in H1 eq_refl eq_refl Huniq H2 H3))).
Defined.

(** * The statuses a request can be answered with *)

Section StatusCodes.
Context {Ext : Externals}.
Implicit Types (s : session) (f : form) (d : DB) (cid k : Z).

Lemma no_users_no_match d (p : user → bool) :
  bool_decide (0 < count_rows (users d))%nat = false →
  select_first p (users d) = None.
Proof.
  intros H%bool_decide_eq_false_1. apply select_first_None. intros k u Hk.
  destruct H. unfold count_rows.
  destruct (size (rows (users d))) eqn:E; [|lia].
  apply map_size_empty_inv in E. by rewrite E, lookup_empty in Hk.
Qed.

Lemma setup_run_alone method f now1 now2 d :
  respond (setup method f now1 now2) d =
    if bool_decide (0 < count_rows (users d))%nat then (Redirect "login", d)
    else match method with
         | GET => (Render "setup.html" None, d)
         | POST =>
             if fields_missing f
             then (Render "setup.html" (Some "All fields are required."), d)
             else (Redirect "login", setup_writes f now1 now2 d)
         end.
Proof.
  rewrite setup_run. destruct (bool_decide _) eqn:E; [done|].
  by rewrite (no_users_no_match _ _ E).
Qed.

End StatusCodes.



(** * The first run of setup *)

(** X24.  On a store without users, a [setup] POST with a company name,
    username and password that are not empty once stripped adds the
    company and its admin in one transaction, gives every lead, job and
    invoice that has no company to the new company and leaves the others
    and the tasks alone, and redirects to the login page without logging
    anyone in.  Afterwards no lead, job or invoice is without a company
    and the setup route is closed.  With a field missing it renders the
    form again and writes nothing. *)
Theorem setup_first_run `{Ext : Externals} f now1 now2 d :
  count_rows (users d) = 0%nat →
  let out := respond (setup POST f now1 now2) d in
  let cid := next_rowid (companies d) in
  (fields_missing f = true →
   out = (Render "setup.html" (Some "All fields are required."), d))
  ∧ (fields_missing f = false →
     out.1 = Redirect "login"
     ∧ rows (companies out.2)
       = <[cid := new_company f now1]> (rows (companies d))
     ∧ rows (users out.2)
       = <[next_rowid (users d) := new_admin cid f now2]> ∅
     ∧ (∀ k, rows (leads out.2) !! k
             = (λ l, if is_null (l_company_id l)
                     then set_lead_company cid l else l)
               <$> rows (leads d) !! k)
     ∧ (∀ k, rows (jobs out.2) !! k
             = (λ j, if is_null (j_company_id j)
                     then set_job_company cid j else j)
               <$> rows (jobs d) !! k)
     ∧ (∀ k, rows (invoices out.2) !! k
             = (λ i, if is_null (i_company_id i)
                     then set_invoice_company cid i else i)
               <$> rows (invoices d) !! k)
     ∧ tasks out.2 = tasks d
     ∧ (∀ k l, rows (leads out.2) !! k = Some l → is_Some (l_company_id l))
     ∧ (∀ k j, rows (jobs out.2) !! k = Some j → is_Some (j_company_id j))
     ∧ (∀ k i, rows (invoices out.2) !! k = Some i →
               is_Some (i_company_id i))
     ∧ (∀ method f' t1 t2,
          respond (setup method f' t1 t2) out.2 = (Redirect "login", out.2))).
Proof.
  intros Hn. cbv zeta. rewrite setup_run_alone, Hn.
  rewrite bool_decide_eq_false_2 by lia.
  split; [by intros ->|]. intros ->. cbn [fst snd].
  assert (rows (users d) = ∅) as Hu.
  { by apply map_size_empty_inv. }
  unfold setup_writes. cbv zeta. db_simpl. rewrite insert_row_seqno.
  split; [done|]. split; [done|].
  split; [by unfold insert_row; cbn [rows]; rewrite Hu|].
  split; [intros k; apply update_where_lookup|].
  split; [intros k; apply update_where_lookup|].
  split; [intros k; apply update_where_lookup|].
  split; [done|].
  split; [|split; [|split]].
  - intros k l Hk. rewrite update_where_lookup in Hk.
    destruct (rows (leads d) !! k) as [x|]; [|done]. simpl in Hk.
    destruct (l_company_id x) eqn:Ex; simpl in Hk; injection Hk as <-;
      [by rewrite Ex; eexists|by eexists].
  - intros k j Hk. rewrite update_where_lookup in Hk.
    destruct (rows (jobs d) !! k) as [x|]; [|done]. simpl in Hk.
    destruct (j_company_id x) eqn:Ex; simpl in Hk; injection Hk as <-;
      [by rewrite Ex; eexists|by eexists].
  - intros k i Hk. rewrite update_where_lookup in Hk.
    destruct (rows (invoices d) !! k) as [x|]; [|done]. simpl in Hk.
    destruct (i_company_id x) eqn:Ex; simpl in Hk; injection Hk as <-;
      [by rewrite Ex; eexists|by eexists].
  - intros method f' t1 t2. rewrite setup_run.
    rewrite (users_exist _ (next_rowid (users d))
               (new_admin (next_rowid (companies d)) f now2)); [done|].
    db_simpl. apply insert_row_new.
Qed.

Lemma setup_first_run_witness :
  count_rows (users (@empty_db sample_externals)) = 0%nat
  ∧ fields_missing cool_form = false
  ∧ (@respond sample_externals (setup POST cool_form "t1" "t1") empty_db).1
    = Redirect "login"
  ∧ ∀ method f' t1 t2,
      @respond sample_externals (setup method f' t1 t2)
        (@respond sample_externals (setup POST cool_form "t1" "t1")
           empty_db).2
      = (Redirect "login",
         (@respond sample_externals (setup POST cool_form "t1" "t1")
            empty_db).2).
Proof.
  split; [reflexivity|]. split; [reflexivity|].
  destruct (@setup_first_run sample_externals cool_form "t1" "t1" empty_db
              eq_refl) as [_ H].
  destruct (H eq_refl) as (H1 & _ & _ & _ & _ & _ & _ & _ & _ & _ & H2).
  split; [exact H1|exact H2].
Defined.

(** * Dates *)

(** X25.  [parse_date_yyyy_mm_dd] strips its argument; it gives nothing
    for the empty string, for whitespace alone and for a text [strptime]
    refuses, and the stripped text otherwise.  A date it has given is a
    fixed point: parsed again, it comes back as it is. *)
Theorem parse_date_cases `{Ext : Externals} x :
  (parse_date_yyyy_mm_dd x = None
   ↔ strip x = "" ∨ strptime_ok (strip x) = false)
  ∧ (∀ y, parse_date_yyyy_mm_dd x = Some y →
          y = strip x ∧ y ≠ "" ∧ strptime_ok y = true
          ∧ parse_date_yyyy_mm_dd y = Some y)
  ∧ (lstrip x = "" → parse_date_yyyy_mm_dd x = None).
Proof.
  unfold parse_date_yyyy_mm_dd. rewrite or_default_empty.
  split; [|split].
  - destruct (strip x) as [|c t] eqn:E; simpl; [by split; auto|].
    destruct (strptime_ok (String c t)); split; try done; auto.
    by intros [?|?].
  - intros y Hy.
    destruct (nonempty (strip x)) eqn:En; [|done]. simpl in Hy.
    destruct (strptime_ok (strip x)) eqn:Eo; [|done].
    injection Hy as <-. split; [done|]. split; [by intros E; rewrite E in En|].
    split; [done|]. rewrite or_default_empty, strip_idem, En. simpl.
    by rewrite Eo.
  - intros E. unfold strip. by rewrite E.
Qed.

Lemma parse_date_cases_witness :
  @parse_date_yyyy_mm_dd sample_externals " 2024-05-01 " = Some "2024-05-01"
  ∧ @parse_date_yyyy_mm_dd sample_externals "2024-05-01" = Some "2024-05-01"
  ∧ @parse_date_yyyy_mm_dd sample_externals "   " = None.
Proof.
  destruct (@parse_date_cases sample_externals " 2024-05-01 ")
    as (_ & H & _).
  destruct (H "2024-05-01" eq_refl) as (_ & _ & _ & H').
  split; [reflexivity|]. split; [exact H'|].
  apply (@parse_date_cases sample_externals "   "). reflexivity.
Defined.

(** * The schema after startup *)

Section SchemaProps.
Import Schema.
Implicit Types (sch : schema) (t : table_def) (x table col : string).

Lemma same_name_true a b :
  same_name a b = true ↔ fold_case a = fold_case b.
Proof. unfold same_name. apply bool_decide_eq_true. Qed.

Lemma same_name_false a b :
  same_name a b = false ↔ fold_case a ≠ fold_case b.
Proof. unfold same_name. apply bool_decide_eq_false. Qed.

Lemma find_table_key x y sch :
  fold_case x = fold_case y → find_table x sch = find_table y sch.
Proof.
  intros E. induction sch as [|t sch IH]; [done|]. simpl.
  unfold same_name. by rewrite E, IH.
Qed.

Lemma find_table_name x sch t :
  find_table x sch = Some t → fold_case (name t) = fold_case x.
Proof.
  induction sch as [|t' sch IH]; [done|]. simpl.
  destruct (same_name (name t') x) eqn:E; [|done].
  intros [= <-]. by apply same_name_true.
Qed.

Lemma find_table_app x sch1 sch2 :
  find_table x (sch1 ++ sch2)%list
  = match find_table x sch1 with
    | Some t => Some t
    | None => find_table x sch2
    end.
Proof.
  induction sch1 as [|t sch1 IH]; [done|]. simpl.
  by destruct (same_name (name t) x).
Qed.

Lemma find_table_create x table cols sch :
  find_table x (create_table_if_not_exists table cols sch)
  = match find_table x sch with
    | Some t => Some t
    | None => if same_name table x
              then Some {| name := table; columns := cols |} else None
    end.
Proof.
  unfold create_table_if_not_exists.
  destruct (find_table table sch) as [t|] eqn:E.
  - destruct (find_table x sch) eqn:E'; [done|].
    destruct (same_name table x) eqn:En; [|done].
    apply same_name_true in En.
    by rewrite (find_table_key _ _ _ En), E' in E.
  - rewrite find_table_app. destruct (find_table x sch); [done|]. simpl.
    by destruct (same_name table x).
Qed.

Lemma create_noop table cols sch :
  is_Some (find_table table sch) →
  create_table_if_not_exists table cols sch = sch.
Proof. intros [t E]. unfold create_table_if_not_exists. by rewrite E. Qed.

Lemma extends_refl sch : extends sch sch.
Proof. intros x t E. by exists t. Qed.

Lemma extends_trans sch1 sch2 sch3 :
  extends sch1 sch2 → extends sch2 sch3 → extends sch1 sch3.
Proof.
  intros H1 H2 x t E.
  destruct (H1 x t E) as (t' & E' & Hn & Hp).
  destruct (H2 x t' E') as (t'' & E'' & Hn' & Hp').
  exists t''. split; [done|]. split; [congruence|by etrans].
Qed.

Lemma extends_columns sch sch' x c :
  extends sch sch' → c ∈ table_columns sch x → c ∈ table_columns sch' x.
Proof.
  intros H. unfold table_columns.
  destruct (find_table x sch) as [t|] eqn:E; [|by intros ?%not_elem_of_nil].
  destruct (H x t E) as (t' & -> & _ & Hp). intros Hc.
  destruct Hp as [l ->]. apply elem_of_app. by left.
Qed.

Lemma extends_exists sch sch' x :
  extends sch sch' → is_Some (find_table x sch) →
  is_Some (find_table x sch').
Proof. intros H [t E]. destruct (H x t E) as (t' & -> & _). by eexists. Qed.

Lemma create_extends table cols sch :
  extends sch (create_table_if_not_exists table cols sch).
Proof.
  intros x t E. exists t. by rewrite find_table_create, E.
Qed.

Lemma create_exists table cols sch :
  is_Some (find_table table (create_table_if_not_exists table cols sch)).
Proof.
  rewrite find_table_create. destruct (find_table table sch); [by eexists|].
  unfold same_name. rewrite bool_decide_eq_true_2 by done. by eexists.
Qed.

(** What a successful [ADD COLUMN] has done, and when it fails. *)
Lemma add_column_cases table col sch :
  match find_table table sch with
  | None => add_column table col sch = inl NoSuchTable
  | Some t =>
      if existsb (same_name col) (columns t)
      then add_column table col sch = inl DuplicateColumnName
      else ∃ sch',
          add_column table col sch = inr sch'
          ∧ ∀ x, find_table x sch'
                 = if same_name table x
                   then Some {| name := name t;
                                columns := (columns t ++ [col])%list |}
                   else find_table x sch
  end.
Proof.
  induction sch as [|t sch IH]; [done|]. simpl.
  destruct (same_name (name t) table) eqn:E.
  - destruct (existsb _ _); [done|]. eexists. split; [done|].
    intros x. simpl. apply same_name_true in E.
    unfold same_name. rewrite E. by case_bool_decide.
  - destruct (find_table table sch) as [t'|]; [|by rewrite IH].
    destruct (existsb _ _); [by rewrite IH|].
    destruct IH as (sch' & -> & Hf). eexists. split; [done|].
    intros x. simpl. rewrite Hf.
    destruct (same_name (name t) x) eqn:E'; [|done].
    apply same_name_true in E'. apply same_name_false in E.
    rewrite (proj2 (same_name_false table x)); [done|congruence].
Qed.

Lemma existsb_same_name col cols :
  existsb (same_name col) cols = true
  ↔ ∃ c, c ∈ cols ∧ same_name col c = true.
Proof.
  rewrite existsb_exists. split; intros (c & Hc & E); exists c;
    (split; [|done]); by apply list_elem_of_In.
Qed.

Lemma ensure_column_noop table col ty sch :
  col ∈ table_columns sch table →
  ensure_column table col ty sch = (inr (), sch).
Proof. intros H. unfold ensure_column. by rewrite bool_decide_eq_true_2. Qed.

Lemma ensure_column_ok table col ty sch sch' :
  ensure_column table col ty sch = (inr (), sch') →
  extends sch sch' ∧ col ∈ table_columns sch' table.
Proof.
  unfold ensure_column, execute_alter. cbv zeta.
  case_bool_decide as Hin; simpl.
  { intros [= <-]. split; [apply extends_refl|done]. }
  pose proof (add_column_cases table col sch) as H.
  destruct (find_table table sch) as [t|] eqn:E; [|by rewrite H].
  destruct (existsb _ _); [by rewrite H|].
  destruct H as (s' & -> & Hf). intros [= <-]. split.
  - intros x t' E'. rewrite Hf.
    destruct (same_name table x) eqn:En.
    + apply same_name_true in En.
      rewrite <- (find_table_key _ _ _ En), E in E'. injection E' as <-.
      eexists. split; [done|]. split; [done|]. by eexists.
    + exists t'. split; [done|]. split; [done|]. done.
  - unfold table_columns. rewrite Hf.
    unfold same_name. rewrite bool_decide_eq_true_2 by done. simpl.
    apply elem_of_app. right. by left.
Qed.

Lemma ensure_column_fails table col ty sch e sch' :
  ensure_column table col ty sch = (inl e, sch') →
  sch' = sch
  ∧ match find_table table sch with
    | None => e = NoSuchTable
    | Some t =>
        e = DuplicateColumnName ∧ (col ∉ columns t)
        ∧ ∃ c, c ∈ columns t ∧ same_name col c = true
    end.
Proof.
  unfold ensure_column, execute_alter. cbv zeta.
  case_bool_decide as Hin; simpl; [done|].
  pose proof (add_column_cases table col sch) as H.
  unfold table_columns in Hin.
  destruct (find_table table sch) as [t|] eqn:E.
  - destruct (existsb _ _) eqn:Ex.
    + rewrite H. intros [= <- <-]. split; [done|].
      split; [done|]. split; [done|]. by apply existsb_same_name.
    + by destruct H as (s' & -> & _).
  - rewrite H. by intros [= <- <-].
Qed.

Lemma init_db_unfold :
  init_db = (create_all created;; ensure_all upgrades).
Proof. reflexivity. Qed.

Lemma create_all_run cs sch :
  ∃ sch', create_all cs sch = (inr (), sch')
          ∧ extends sch sch'
          ∧ ∀ c, c ∈ cs → is_Some (find_table c.1 sch').
Proof.
  revert sch. induction cs as [|c cs IH]; intros sch.
  { exists sch. split; [done|]. split; [apply extends_refl|].
    by intros c ?%not_elem_of_nil. }
  destruct (IH (create_table_if_not_exists c.1 c.2 sch))
    as (sch' & E & Hext & Hex).
  exists sch'. split; [exact E|]. split.
  - eapply extends_trans; [apply create_extends|done].
  - intros c' [->|Hin]%elem_of_cons; [|by apply Hex].
    eapply extends_exists; [done|apply create_exists].
Qed.

Lemma create_all_noop cs sch :
  (∀ c, c ∈ cs → is_Some (find_table c.1 sch)) →
  create_all cs sch = (inr (), sch).
Proof.
  induction cs as [|c cs IH]; intros H; [done|].
  change (create_all (c :: cs) sch)
    with (create_all cs (create_table_if_not_exists c.1 c.2 sch)).
  rewrite create_noop by (apply H; left).
  apply IH. intros c' Hc'. apply H. by right.
Qed.

Lemma ensure_all_cons u us sch :
  ensure_all (u :: us) sch
  = match ensure_column u.1.1 u.1.2 u.2 sch with
    | (inr _, sch') => ensure_all us sch'
    | (inl e, sch') => (inl e, sch')
    end.
Proof. done. Qed.

Lemma ensure_all_extends us sch :
  extends sch (ensure_all us sch).2.
Proof.
  revert sch. induction us as [|u us IH]; intros sch; [apply extends_refl|].
  rewrite ensure_all_cons.
  destruct (ensure_column _ _ _ sch) as [[e|[]] s1] eqn:E.
  - apply ensure_column_fails in E as [-> _]. apply extends_refl.
  - apply ensure_column_ok in E as [Hext _].
    eapply extends_trans; [done|apply IH].
Qed.

Lemma ensure_all_ok us sch sch' :
  ensure_all us sch = (inr (), sch') →
  ∀ u, u ∈ us → u.1.2 ∈ table_columns sch' u.1.1.
Proof.
  revert sch. induction us as [|u us IH]; intros sch H u' Hin;
    [by apply not_elem_of_nil in Hin|].
  rewrite ensure_all_cons in H.
  destruct (ensure_column _ _ _ sch) as [[e|[]] s1] eqn:E; [done|].
  apply elem_of_cons in Hin as [->|Hin]; [|by eapply IH].
  apply ensure_column_ok in E as [_ Hc].
  eapply extends_columns; [|done].
  pose proof (ensure_all_extends us s1) as He. by rewrite H in He.
Qed.

Lemma ensure_all_noop us sch :
  (∀ u, u ∈ us → u.1.2 ∈ table_columns sch u.1.1) →
  ensure_all us sch = (inr (), sch).
Proof.
  induction us as [|u us IH]; intros H; [done|].
  rewrite ensure_all_cons, ensure_column_noop by (apply H; left).
  apply IH. intros u' Hu'. apply H. by right.
Qed.

Lemma ensure_all_fails us sch e sch' :
  ensure_all us sch = (inl e, sch') →
  (∀ u, u ∈ us → is_Some (find_table u.1.1 sch)) →
  e = DuplicateColumnName.
Proof.
  revert sch. induction us as [|u us IH]; intros sch H Hex; [done|].
  rewrite ensure_all_cons in H.
  destruct (ensure_column _ _ _ sch) as [[e'|[]] s1] eqn:E.
  - injection H as <- <-. apply ensure_column_fails in E as [_ E].
    destruct (Hex u) as [t Ht]; [left|]. rewrite Ht in E. by destruct E.
  - eapply IH; [done|]. intros u' Hu'.
    apply ensure_column_ok in E as [Hext _].
    eapply extends_exists; [done|]. apply Hex. by right.
Qed.

(** The columns [init_db] adds to one table differ by more than case, and
    none of them is spelled like a column of the table as it is created. *)
Lemma upgrades_distinct u u' :
  u ∈ upgrades → u' ∈ upgrades →
  fold_case u.1.1 = fold_case u'.1.1 →
  same_name u'.1.2 u.1.2 = true → u.1.2 = u'.1.2.
Proof.
  intros Hu Hu'.
  assert (Forall (λ u, Forall (λ u',
            fold_case u.1.1 = fold_case u'.1.1 →
            same_name u'.1.2 u.1.2 = true → u.1.2 = u'.1.2) upgrades)
            upgrades) as H.
  { unfold upgrades. repeat (constructor; [repeat constructor|]);
      try constructor; simpl; intros E1 E2;
      first [reflexivity|by vm_compute in E1|by vm_compute in E2]. }
  rewrite Forall_forall in H. specialize (H u Hu).
  rewrite Forall_forall in H. by apply H.
Qed.

Lemma created_no_clash u c col :
  u ∈ upgrades → c ∈ created → same_name c.1 u.1.1 = true →
  col ∈ c.2 → same_name u.1.2 col = true → col = u.1.2.
Proof.
  intros Hu Hc.
  assert (Forall (λ u, Forall (λ c : string * list string,
            same_name c.1 u.1.1 = true →
            Forall (λ col, same_name u.1.2 col = true → col = u.1.2) c.2)
            created) upgrades) as H.
  { unfold upgrades, created.
    repeat (constructor; [repeat (constructor;
      [simpl; intros E; first [by vm_compute in E|
         repeat (constructor; [intros E'; by vm_compute in E'|]);
         constructor]|]); constructor|]); constructor. }
  rewrite Forall_forall in H. specialize (H u Hu).
  rewrite Forall_forall in H. specialize (H c Hc).
  intros E Hcol. specialize (H E). rewrite Forall_forall in H. by apply H.
Qed.

Lemma no_case_clash_create_all sch :
  no_case_clash sch → no_case_clash (create_all created sch).2.
Proof.
  assert (∀ cs sch,
            (∀ c, c ∈ cs → c ∈ created) →
            no_case_clash sch → no_case_clash (create_all cs sch).2) as H.
  { induction cs as [|c cs IH]; intros s Hsub Hs; [done|].
    change (create_all (c :: cs) s)
      with (create_all cs (create_table_if_not_exists c.1 c.2 s)).
    apply IH; [intros c' Hc'; apply Hsub; by right|].
    intros u col Hu. unfold table_columns. rewrite find_table_create.
    destruct (find_table u.1.1 s) as [t|] eqn:E.
    - intros Hcol. apply (Hs u col Hu). unfold table_columns. by rewrite E.
    - destruct (same_name c.1 u.1.1) eqn:En;
        [|by intros ?%not_elem_of_nil].
      simpl. intros Hcol Hsame.
      eapply created_no_clash; [done|apply Hsub; left|done..]. }
  by apply H.
Qed.

Lemma no_case_clash_ensure u sch sch' :
  u ∈ upgrades → no_case_clash sch →
  ensure_column u.1.1 u.1.2 u.2 sch = (inr (), sch') →
  no_case_clash sch'.
Proof.
  intros Hu Hs. unfold ensure_column, execute_alter. cbv zeta.
  case_bool_decide as Hin; simpl; [by intros [= <-]|].
  pose proof (add_column_cases u.1.1 u.1.2 sch) as H.
  destruct (find_table u.1.1 sch) as [t|] eqn:E; [|by rewrite H].
  destruct (existsb _ _); [by rewrite H|].
  destruct H as (s' & -> & Hf). intros [= <-].
  intros u' c Hu'. unfold table_columns. rewrite Hf.
  destruct (same_name u.1.1 u'.1.1) eqn:En.
  - simpl. intros [Hc|Hc]%elem_of_app Hsame.
    + apply (Hs u' c Hu'); [|done]. unfold table_columns.
      apply same_name_true in En.
      by rewrite <- (find_table_key _ _ _ En), E.
    + apply list_elem_of_singleton in Hc. subst c.
      apply same_name_true in En. by apply upgrades_distinct.
  - intros Hc. by apply (Hs u' c Hu').
Qed.

Lemma ensure_all_succeeds us sch :
  (∀ u, u ∈ us → u ∈ upgrades) →
  (∀ u, u ∈ us → is_Some (find_table u.1.1 sch)) →
  no_case_clash sch →
  (ensure_all us sch).1 = inr ().
Proof.
  revert sch. induction us as [|u us IH]; intros sch Hsub Hex Hs; [done|].
  rewrite ensure_all_cons.
  destruct (ensure_column _ _ _ sch) as [[e|[]] s1] eqn:E.
  - exfalso. apply ensure_column_fails in E as [_ E].
    destruct (Hex u) as [t Ht]; [left|]. rewrite Ht in E.
    destruct E as (_ & Hno & c & Hc & Hsame). destruct Hno.
    assert (c = u.1.2) as <-; [|done].
    apply (Hs u c); [apply Hsub; left| |done].
    unfold table_columns. by rewrite Ht.
  - apply IH.
    + intros u' Hu'. apply Hsub. by right.
    + intros u' Hu'. apply ensure_column_ok in E as [Hext _].
      eapply extends_exists; [done|]. apply Hex. by right.
    + eapply no_case_clash_ensure; [apply Hsub; left|done..].
Qed.

Lemma upgrades_created u :
  u ∈ upgrades → ∃ c, c ∈ created ∧ c.1 = u.1.1.
Proof.
  intros Hu.
  assert (Forall (λ u, ∃ c, c ∈ created ∧ c.1 = u.1.1) upgrades) as H.
  { unfold upgrades.
    repeat (constructor;
      [first [by eexists (_, _); split; [do 2 right; left|]
             |by eexists (_, _); split; [do 3 right; left|]
             |by eexists (_, _); split; [do 4 right; left|]]|]).
    constructor. }
  rewrite Forall_forall in H. by apply H.
Qed.

Lemma init_db_split sch :
  ∃ s1, create_all created sch = (inr (), s1)
        ∧ extends sch s1
        ∧ (∀ c, c ∈ created → is_Some (find_table c.1 s1))
        ∧ init_db sch = ensure_all upgrades s1.
Proof.
  destruct (create_all_run created sch) as (s1 & E & Hext & Hex).
  exists s1. repeat (split; [done|]).
  rewrite init_db_unfold. unfold mbind, ddl_bind. by rewrite E.
Qed.

End SchemaProps.

(** X26.  [init_db] never drops a table or a column: whether it returns
    or raises, every table that was there still is, under its name, with
    its columns in their places and any new ones after them.  When it
    returns, the six tables exist and leads, jobs and invoices have every
    column [ensure_column] is asked for; and running it again on the
    result, as every restart does, changes nothing. *)
Theorem schema_init_db_upgrades sch :
  Schema.extends sch (Schema.init_db sch).2
  ∧ ((Schema.init_db sch).1 = inr () →
     (∀ c, c ∈ Schema.created →
           is_Some (Schema.find_table c.1 (Schema.init_db sch).2))
     ∧ (∀ u, u ∈ Schema.upgrades →
             u.1.2 ∈ Schema.table_columns (Schema.init_db sch).2 u.1.1)
     ∧ Schema.init_db (Schema.init_db sch).2
       = (inr (), (Schema.init_db sch).2)).
Proof.
  destruct (init_db_split sch) as (s1 & E & Hext & Hex & ->).
  pose proof (ensure_all_extends Schema.upgrades s1) as Hext'.
  split; [by eapply extends_trans|].
  destruct (Schema.ensure_all Schema.upgrades s1) as [[e|[]] s2] eqn:E2;
    [done|]. intros _. cbn [snd] in *.
  assert (∀ c, c ∈ Schema.created → is_Some (Schema.find_table c.1 s2))
    as Hex2.
  { intros c Hc. eapply extends_exists; [done|by apply Hex]. }
  pose proof (ensure_all_ok _ _ _ E2) as Hcols.
  split; [done|]. split; [done|].
  rewrite init_db_unfold. unfold mbind, Schema.ddl_bind.
  rewrite (create_all_noop _ _ Hex2). by apply ensure_all_noop.
Qed.

Lemma schema_init_db_upgrades_witness :
  (Schema.init_db Schema.legacy).1 = inr ()
  ∧ Schema.init_db (Schema.init_db Schema.legacy).2
    = (inr (), (Schema.init_db Schema.legacy).2)
  ∧ "company_id" ∈ Schema.table_columns (Schema.init_db Schema.legacy).2
                     "jobs".
Proof.
  destruct (schema_init_db_upgrades Schema.legacy) as [_ H].
  destruct (H eq_refl) as (_ & H2 & H3).
  split; [reflexivity|]. split; [exact H3|].
  apply (H2 ("jobs", "company_id", "INTEGER")). vm_compute.
  do 11 right. left.
Defined.

(** X27.  [init_db] can raise only one way: [ALTER TABLE] refusing a
    duplicate column name.  It returns on every schema in which no column
    of leads, jobs or invoices is spelled like a column it adds except for
    the case of letters -- on an empty database in particular -- because
    [ensure_column] looks for the exact name where SQLite compares without
    case. *)
Theorem schema_init_db_succeeds sch :
  (Schema.no_case_clash sch → (Schema.init_db sch).1 = inr ())
  ∧ (∀ e, (Schema.init_db sch).1 = inl e → e = Schema.DuplicateColumnName)
  ∧ (sch = [] → (Schema.init_db sch).1 = inr ()).
Proof.
  destruct (init_db_split sch) as (s1 & E & Hext & Hex & ->).
  assert (∀ u, u ∈ Schema.upgrades → is_Some (Schema.find_table u.1.1 s1))
    as Hex'.
  { intros u (c & Hc & <-)%upgrades_created. by apply Hex. }
  assert (Schema.no_case_clash sch →
          (Schema.ensure_all Schema.upgrades s1).1 = inr ()) as Hok.
  { intros Hs. apply ensure_all_succeeds; [done|done|].
    pose proof (no_case_clash_create_all sch Hs) as H. by rewrite E in H. }
  split; [done|]. split.
  - intros e He.
    destruct (Schema.ensure_all Schema.upgrades s1) as [r s2] eqn:E2.
    simpl in He. subst r. by eapply ensure_all_fails.
  - intros ->. apply Hok. intros u c _ Hc. by apply not_elem_of_nil in Hc.
Qed.

Lemma schema_init_db_succeeds_witness :
  Schema.no_case_clash Schema.legacy
  ∧ (Schema.init_db Schema.legacy).1 = inr ()
  ∧ (Schema.init_db Schema.legacy_notes).1
    = inl Schema.DuplicateColumnName.
Proof.
  assert (Schema.no_case_clash Schema.legacy) as H.
  { intros u c Hu Hc Hsame.
    assert (Forall (λ u : string * string * string,
              Forall (λ c, Schema.same_name u.1.2 c = true → c = u.1.2)
                (Schema.table_columns Schema.legacy u.1.1))
              Schema.upgrades) as HF.
    { unfold Schema.upgrades.
      repeat (constructor;
        [vm_compute Schema.table_columns;
         repeat (constructor;
           [intros E; first [reflexivity|by vm_compute in E]|]);
         constructor|]).
      constructor. }
    rewrite Forall_forall in HF. specialize (HF u Hu).
    rewrite Forall_forall in HF. by apply HF. }
  split; [exact H|]. split; [|reflexivity].
  exact (proj1 (schema_init_db_succeeds Schema.legacy) H).
Defined.
